(** * indiekit-endpoint-lastfm: a shallow embedding of the sync core

    The development follows the layout of the JavaScript sources:

    - [JS]          the fragments of ECMAScript the code relies on
                    (truthiness, [parseInt], [Date], [Array.prototype.slice]);
    - [Payload]     the upstream (Last.fm) payload shapes and the stored
                    document shape;
    - [Effects]     a state-and-exception monad over the process state
                    (clock, network log, client cache, durable store,
                    stats cache);
    - [Utils]       lib/utils.js;
    - [Client]      lib/lastfm-client.js;
    - [Sync]        lib/sync.js;
    - [Format]      the presentation helpers of lib/utils.js;
    - [Controllers] lib/controllers/stats.js, scrobbles.js, dashboard.js;
    - [MemDb]       a reference implementation of the two MongoDB operations
                    the sync engine uses, with the unique indexes it creates;
    - [Scheduler]   [startSync], [stopSync] and the timers and admin
                    requests around [runSync];
    - [Queries]     the single-entry queries of lib/lastfm-client.js;
    - [Handlers]    lib/controllers/now-playing.js and the trends route;
    - [StatsEngine] the summary pipeline of lib/stats.js, read over the
                    reference store.

    Numbers are modelled as exact integers ([Z]); the quantities the
    code computes itself (millisecond timestamps, page counts) are
    integers far below 2^53, where IEEE doubles are exact.  [NaN] is
    [None].  Where a number is read from a text the caller supplies,
    the statements say for which values they hold ([JS.safe]).

    A [string] holds the UTF-8 encoding of a JS string; equality,
    concatenation and emptiness are the same on both.  Where the code
    counts or cuts UTF-16 code units ([utils.truncate]) the text is
    given as the sequence of its code units instead.

    Console output is not modelled.  Reading the body of a response
    ([response.text()]) is taken to succeed.  The database, the
    upstream API and the packages [@indiekit/error] and [mongodb] are
    the environment: the code is parametric in the database handle
    ([Sync.Database]) and in the answers of the upstream ([Effects.Env]),
    and [MemDb] gives the handle one concrete meaning. *)

From Stdlib Require Import ZArith List String Ascii Bool Lia QArith.
From Stdlib Require Import DecimalString DecimalPos Permutation.
Import ListNotations.
Open Scope string_scope.
Open Scope Z_scope.

Set Implicit Arguments.

(* ------------------------------------------------------------------ *)
(** ** ECMAScript fragments *)

Module JS.

(** A JS number that is an integer or NaN. *)
Definition num := option Z.

(** The integers up to [Number.MAX_SAFE_INTEGER] in absolute value:
    each is a double, and the arithmetic of the code on them is exact. *)
Definition safe (z : Z) : Prop := Z.abs z <= 9007199254740991.

(** Truthiness of an optional string property: [undefined], [null]
    and [""] are falsy. *)
Definition truthy_str (s : option string) : bool :=
  match s with
  | None => false
  | Some EmptyString => false
  | Some _ => true
  end.

(** Truthiness of a number: [NaN] and [0] are falsy. *)
Definition truthy_num (n : num) : bool :=
  match n with
  | None => false
  | Some z => negb (z =? 0)
  end.

(** [a || b] on optional strings. *)
Definition or_str (a b : option string) : option string :=
  if truthy_str a then a else b.

(** [a || null] on optional strings. *)
Definition or_null (a : option string) : option string :=
  if truthy_str a then a else None.

(** [a === b] between a possibly-undefined property and a string. *)
Definition strict_eq (a : option string) (b : string) : bool :=
  match a with
  | Some s => String.eqb s b
  | None => false
  end.

(** StrWhiteSpaceChar: the white space and line terminators that
    [parseInt] skips.  Those of one byte: TAB, LF, VT, FF, CR and the
    space. *)
Definition is_space (c : ascii) : bool :=
  let n := nat_of_ascii c in
  ((9 <=? n) && (n <=? 13))%nat || (n =? 32)%nat.

(** Of two bytes: U+00A0 (C2 A0). *)
Definition is_space2 (c1 c2 : ascii) : bool :=
  ((nat_of_ascii c1 =? 194) && (nat_of_ascii c2 =? 160))%nat.

(** Of three bytes: U+1680 (E1 9A 80); U+2000 to U+200A, U+2028, U+2029
    and U+202F (E2 80 80 to E2 80 8A, E2 80 A8, E2 80 A9, E2 80 AF);
    U+205F (E2 81 9F); U+3000 (E3 80 80); U+FEFF (EF BB BF). *)
Definition is_space3 (c1 c2 c3 : ascii) : bool :=
  let n1 := nat_of_ascii c1 in
  let n2 := nat_of_ascii c2 in
  let n3 := nat_of_ascii c3 in
  ((n1 =? 225) && (n2 =? 154) && (n3 =? 128)
   || (n1 =? 226) && (n2 =? 128)
      && (((128 <=? n3) && (n3 <=? 138))
          || (n3 =? 168) || (n3 =? 169) || (n3 =? 175))
   || (n1 =? 226) && (n2 =? 129) && (n3 =? 159)
   || (n1 =? 227) && (n2 =? 128) && (n3 =? 128)
   || (n1 =? 239) && (n2 =? 187) && (n3 =? 191))%nat.

(** TrimString(s, start). *)
Fixpoint trim_start (s : string) : string :=
  match s with
  | EmptyString => EmptyString
  | String c1 r1 =>
      if is_space c1 then trim_start r1
      else
        match r1 with
        | EmptyString => s
        | String c2 r2 =>
            if is_space2 c1 c2 then trim_start r2
            else
              match r2 with
              | EmptyString => s
              | String c3 r3 =>
                  if is_space3 c1 c2 c3 then trim_start r3 else s
              end
        end
  end.

(** Value of a digit in the given radix (10 or 16), if it is one. *)
Definition digit_val (radix : Z) (c : ascii) : option Z :=
  let n := Z.of_nat (nat_of_ascii c) in
  let v :=
    if (48 <=? n) && (n <=? 57) then Some (n - 48)
    else if (97 <=? n) && (n <=? 122) then Some (n - 87)
    else if (65 <=? n) && (n <=? 90) then Some (n - 55)
    else None in
  match v with
  | Some d => if d <? radix then Some d else None
  | None => None
  end.

(** Longest prefix of radix digits, accumulated left to right;
    [None] when the prefix is empty. *)
Fixpoint digits (radix : Z) (s : string) (acc : option Z) : option Z :=
  match s with
  | EmptyString => acc
  | String c r =>
      match digit_val radix c with
      | Some d =>
          digits radix r
            (Some (match acc with Some a => a * radix + d | None => d end))
      | None => acc
      end
  end.

(** [parseInt(string)] with the radix left undefined: leading white
    space, an optional sign, an optional [0x] prefix, then digits. *)
Definition parseInt_str (s : string) : num :=
  let s1 := trim_start s in
  let '(sign, s2) :=
    match s1 with
    | String "-" r => (-1, r)
    | String "+" r => (1, r)
    | _ => (1, s1)
    end in
  let '(radix, s3) :=
    match s2 with
    | String "0" (String "x" r) => (16, r)
    | String "0" (String "X" r) => (16, r)
    | _ => (10, s2)
    end in
  match digits radix s3 None with
  | Some m => Some (sign * m)
  | None => None
  end.

(** [parseInt(x)] where [x] may be [undefined] (ToString gives
    ["undefined"], which has no digits). *)
Definition parseInt (x : option string) : num :=
  match x with
  | Some s => parseInt_str s
  | None => None
  end.

(** [n || d] on numbers. *)
Definition or_num (n : num) (d : Z) : Z :=
  match n with
  | Some z => if z =? 0 then d else z
  | None => d
  end.

(** A [Date] object, identified with its time value in milliseconds
    since the epoch; [None] is the Invalid Date. *)
Definition Date := option Z.

(** TimeClip: time values beyond 8.64e15 ms are invalid. *)
Definition TimeClip (t : num) : Date :=
  match t with
  | Some z => if Z.abs z <=? 8640000000000000 then Some z else None
  | None => None
  end.

(** [new Date(number)]. *)
Definition Date_of_num (t : num) : Date := TimeClip t.

(** [date.getTime()]. *)
Definition getTime (d : Date) : num := d.

(** [a * b] and [a - b] with NaN propagation. *)
Definition mul (a : num) (b : Z) : num :=
  match a with Some x => Some (x * b) | None => None end.

Definition sub (a b : num) : num :=
  match a, b with Some x, Some y => Some (x - y) | _, _ => None end.

(** [Math.floor(a / b)] for a positive integer [b]. *)
Definition floor_div (a : num) (b : Z) : num :=
  match a with Some x => Some (x / b) | None => None end.

(** Number-to-string conversion of an integer or NaN, as used in
    template literals. *)
Definition num_to_string (n : num) : string :=
  match n with
  | Some z => NilZero.string_of_int (Z.to_int z)
  | None => "NaN"
  end.

(** [Array.prototype.slice(start, end)] with its treatment of
    negative and out-of-range indices. *)
Definition rel_index (len k : Z) : Z :=
  if k <? 0 then Z.max (len + k) 0 else Z.min k len.

Definition slice {A} (l : list A) (start stop : Z) : list A :=
  let len := Z.of_nat (List.length l) in
  let from := rel_index len start in
  let to := rel_index len stop in
  firstn (Z.to_nat (to - from)) (skipn (Z.to_nat from) l).

(** [slice(start)]: up to the end of the array. *)
Definition slice_from {A} (l : list A) (start : Z) : list A :=
  slice l start (Z.of_nat (List.length l)).

(** [Array.prototype.indexOf] on strings with strict equality;
    [-1] when absent. *)
Fixpoint indexOf_from (l : list string) (x : string) (i : Z) : Z :=
  match l with
  | [] => -1
  | y :: r => if String.eqb y x then i else indexOf_from r x (i + 1)
  end.

Definition indexOf (l : list string) (x : string) : Z := indexOf_from l x 0.

End JS.

(* ------------------------------------------------------------------ *)
(** ** Payload shapes *)

Module Payload.

(** One entry of a track's [image] array: [{ size, "#text" }]. *)
Record ImageVariant := {
  img_size : option string;
  img_text : option string
}.

(** [track.artist]: an object (extended or standard format), a bare
    string, or absent. *)
Inductive ArtistField :=
| ArtistAbsent
| ArtistString (s : string)
| ArtistObject (name text mbid : option string).

(** [track.album]: an object, a bare string, or absent. *)
Inductive AlbumField :=
| AlbumAbsent
| AlbumString (s : string)
| AlbumObject (text mbid : option string).

(** What [parseDate] may receive: nothing, a Last.fm date object
    [{ uts, "#text" }], a [Date] instance (rows read back from the
    store), or a string. *)
Inductive DateInput :=
| DateMissing
| DateObject (uts : option string)
| DateInstance (d : JS.Date)
| DateString (s : string).

(** [track["@attr"]]. *)
Record Attr := {
  nowplaying : option string
}.

(** One entry of [recenttracks.track]. *)
Record Track := {
  t_name : string;
  t_artist : ArtistField;
  t_album : AlbumField;
  t_image : option (list ImageVariant); (* [None]: absent or not an array *)
  t_url : option string;
  t_mbid : option string;
  t_date : DateInput;
  t_attr : option Attr;
  t_loved : option string
}.

(** [track["@attr"]?.nowplaying]. *)
Definition attr_nowplaying (track : Track) : option string :=
  match t_attr track with
  | Some a => nowplaying a
  | None => None
  end.

(** A row of the [scrobbles] collection, as built by
    [transformScrobble]. *)
Record Doc := {
  lastfmId : string;
  trackTitle : string;
  trackUrl : option string;
  artistName : string;
  artistMbid : option string;
  albumTitle : option string;
  albumMbid : option string;
  mbid : option string;
  coverUrl : option string;
  loved : bool;
  scrobbledAt : JS.Date;
  syncedAt : JS.Date
}.

(** [recenttracks["@attr"]]. *)
Record PageAttr := {
  totalPages : option string;
  total : option string;
  page : option string
}.

Record RecentTracks := {
  track : option (list Track);
  rt_attr : option PageAttr
}.

(** A parsed JSON body of the upstream API. *)
Record Data := {
  d_error : JS.num;              (* [data.error], absent = [None] *)
  d_message : option string;
  recenttracks : option RecentTracks
}.

(** Summary counters of one time window. *)
Record Summary := {
  totalPlays : Z;
  lovedCount : Z;
  uniqueTracks : Z;
  uniqueArtists : Z;
  uniqueAlbums : Z
}.

Record TopEntry := {
  te_rank : Z;
  te_name : string;
  te_playCount : Z
}.

Record Windows (A : Type) := {
  w_all : A;
  w_month : A;
  w_week : A
}.

(** The object returned by [getAllStats]. *)
Record Stats := {
  summary : Windows Summary;
  topArtists : Windows (list TopEntry);
  topAlbums : Windows (list TopEntry);
  trends : list (string * Z)
}.

(** The [settings] document of the [lastfmMeta] collection. *)
Record Settings := {
  s_apiKey : option string;
  s_username : option string
}.

Record Limits := {
  lim_scrobbles : JS.num;
  lim_topArtists : JS.num;
  lim_topAlbums : JS.num
}.

(** Plugin options. *)
Record Options := {
  apiKey : option string;
  username : option string;
  cacheTtl : JS.num;
  syncInterval : JS.num;
  limits : option Limits
}.

End Payload.

(* ------------------------------------------------------------------ *)
(** ** Effects: process state, exceptions, divergence *)

Module Effects.
Import Payload.

Inductive ErrorName :=
| IndiekitError     (* the typed error of @indiekit/error *)
| PlainError        (* [new Error(...)] *)
| SyntaxError       (* a failed [JSON.parse] *)
| TypeError         (* a failed network request *)
| RangeError        (* [toISOString] of an invalid date *)
| MongoError.       (* raised by the database driver *)

(** A thrown JS error with the properties the code reads. *)
Record JsError := {
  err_name : ErrorName;
  err_message : string;
  err_status : option Z;
  err_code : option Z
}.

(** Query parameters of an API call, before the [undefined]/[null]
    ones are dropped. *)
Record Params := {
  p_page : option Z;
  p_limit : option Z;
  p_extended : option Z;
  p_from : option Z;
  p_to : option Z
}.

(** A fully resolved request: what the URL (and so the client's
    cache key) is built from. *)
Record Request := {
  r_method : string;
  r_apiKey : option string;
  r_user : option string;
  r_params : Params
}.

(** The parts of a fetch [Response] the client reads. *)
Record HttpResponse := {
  status : Z;
  statusText : string;
  contentType : option string;   (* [headers.get("content-type")] *)
  body_text : string;            (* [response.text()] *)
  body_json : option Data        (* [response.json()], [None]: not JSON *)
}.

(** [response.ok]. *)
Definition ok (r : HttpResponse) : bool :=
  (200 <=? status r) && (status r <=? 299).

(** Outcome of the platform's [fetch]: a response, or a rejection. *)
Inductive NetOutcome :=
| NetResponse (r : HttpResponse)
| NetFailure (e : JsError).

(** Outcome of running a piece of code: a value, a thrown error, or
    a loop that was still running when the fuel ran out. *)
Inductive Result (A : Type) :=
| Ok (a : A)
| Throw (e : JsError)
| OutOfFuel.
Arguments Ok {A} a.
Arguments Throw {A} e.
Arguments OutOfFuel {A}.

(** Outcome of a call that cannot loop: it returns or it throws. *)
Inductive Outcome (A : Type) :=
| Returned (a : A)
| Raised (e : JsError).
Arguments Returned {A} a.
Arguments Raised {A} e.

Definition Result_of {A} (o : Outcome A) : Result A :=
  match o with
  | Returned a => Ok a
  | Raised e => Throw e
  end.

Section WithStore.
(** [S] is the state of the durable store. *)
Variable S : Type.

(** The process state. *)
Record World := {
  tick : nat;                            (* clock reads so far *)
  requests : list Request;               (* network requests issued, latest first *)
  cache : list (Request * (Data * Z));   (* [this.cache] of the live client *)
  store : S;                             (* the durable store *)
  cachedStats : option Stats;            (* module variable of sync.js *)
  cachedStatsTime : JS.num               (* module variable of sync.js *)
}.

(** The environment the process runs in. *)
Record Env := {
  clock : nat -> Z;                      (* the n-th reading of the wall clock *)
  upstream : nat -> Request -> NetOutcome; (* answer to the n-th request *)
  Date_parse : string -> JS.Date;        (* [new Date(string)] *)
  fromFetch : HttpResponse -> JsError    (* what [throw await IndiekitError.fromFetch(r)] throws *)
}.

Definition M (A : Type) : Type := World -> Result A * World.

Definition ret {A} (a : A) : M A := fun w => (Ok a, w).

Definition bind {A B} (m : M A) (f : A -> M B) : M B :=
  fun w =>
    match m w with
    | (Ok a, w') => f a w'
    | (Throw e, w') => (Throw e, w')
    | (OutOfFuel, w') => (OutOfFuel, w')
    end.

Definition throw {A} (e : JsError) : M A := fun w => (Throw e, w).

Definition out_of_fuel {A} : M A := fun w => (OutOfFuel, w).

(** [try { m } catch (e) { h e }]. *)
Definition try_catch {A} (m : M A) (h : JsError -> M A) : M A :=
  fun w =>
    match m w with
    | (Throw e, w') => h e w'
    | r => r
    end.

Definition get : M World := fun w => (Ok w, w).

Definition modify (f : World -> World) : M unit := fun w => (Ok tt, f w).

(** [Date.now()]: consume the next clock reading. *)
Definition Date_now (env : Env) : M Z :=
  fun w =>
    (Ok (clock env (tick w)),
     {| tick := Datatypes.S (tick w); requests := requests w; cache := cache w;
        store := store w; cachedStats := cachedStats w;
        cachedStatsTime := cachedStatsTime w |}).

(** [new Date()]. *)
Definition Date_new (env : Env) : M JS.Date :=
  bind (Date_now env) (fun t => ret (JS.Date_of_num (Some t))).

Definition set_requests (rs : list Request) (w : World) : World :=
  {| tick := tick w; requests := rs; cache := cache w; store := store w;
     cachedStats := cachedStats w; cachedStatsTime := cachedStatsTime w |}.

Definition set_cache (c : list (Request * (Data * Z))) (w : World) : World :=
  {| tick := tick w; requests := requests w; cache := c; store := store w;
     cachedStats := cachedStats w; cachedStatsTime := cachedStatsTime w |}.

Definition set_store (s : S) (w : World) : World :=
  {| tick := tick w; requests := requests w; cache := cache w; store := s;
     cachedStats := cachedStats w; cachedStatsTime := cachedStatsTime w |}.

Definition set_stats (st : option Stats) (t : JS.num) (w : World) : World :=
  {| tick := tick w; requests := requests w; cache := cache w; store := store w;
     cachedStats := st; cachedStatsTime := t |}.

(** Run an operation of the store inside the process. *)
Definition on_store {A} (op : S -> Outcome A * S) : M A :=
  fun w => let '(r, s') := op (store w) in (Result_of r, set_store s' w).

(** Run a call that cannot loop. *)
Definition lift {A} (f : World -> Outcome A * World) : M A :=
  fun w => let '(r, w') := f w in (Result_of r, w').

End WithStore.

Arguments ret {S A} a.
Arguments bind {S A B} m f.
Arguments throw {S A} e.
Arguments out_of_fuel {S A}.
Arguments try_catch {S A} m h.
Arguments get {S}.
Arguments modify {S} f.
Arguments on_store {S A} op.
Arguments lift {S A} f.
Arguments Date_now {S} env.
Arguments Date_new {S} env.
Arguments set_requests {S} rs w.
Arguments set_cache {S} c w.
Arguments set_store {S} s w.
Arguments set_stats {S} st t w.

Declare Scope js_scope.
Delimit Scope js_scope with js.
Notation "x <- m ;; k" := (bind m (fun x => k))
  (at level 100, m at next level, right associativity) : js_scope.
Notation "' pat <- m ;; k" :=
  (bind m (fun x => match x with pat => k end))
  (at level 100, pat pattern, m at next level, right associativity) : js_scope.
Notation "m ;;; k" := (bind m (fun _ => k))
  (at level 100, right associativity) : js_scope.

End Effects.

(* ------------------------------------------------------------------ *)
(** ** lib/utils.js *)

Module Utils.
Import Payload Effects.
Local Open Scope js_scope.

(** [track.artist?.name], [track.artist?.["#text"]],
    [scrobble.artist?.mbid]: property reads on the artist field; a
    string or an absent artist has none of them. *)
Definition artist_name (a : ArtistField) : option string :=
  match a with ArtistObject n _ _ => n | _ => None end.

Definition artist_text (a : ArtistField) : option string :=
  match a with ArtistObject _ t _ => t | _ => None end.

Definition artist_mbid (a : ArtistField) : option string :=
  match a with ArtistObject _ _ m => m | _ => None end.

Definition album_text (a : AlbumField) : option string :=
  match a with AlbumObject t _ => t | _ => None end.

Definition album_mbid (a : AlbumField) : option string :=
  match a with AlbumObject _ m => m | _ => None end.

Definition getArtistName (track : option Track) : string :=
  match track with
  | None => "Unknown Artist"
  | Some t =>
      match artist_name (t_artist t) with
      | Some (String c r) => String c r
      | _ =>
          match artist_text (t_artist t) with
          | Some (String c r) => String c r
          | _ =>
              match t_artist t with
              | ArtistString s => s
              | _ => "Unknown Artist"
              end
          end
      end
  end.

(** [!track?.album]: no track, no album, or the empty string. *)
Definition album_falsy (track : option Track) : bool :=
  match track with
  | None => true
  | Some t =>
      match t_album t with
      | AlbumAbsent => true
      | AlbumString EmptyString => true
      | _ => false
      end
  end.

Definition getAlbumName (track : option Track) : option string :=
  if album_falsy track then None
  else
    match track with
    | None => None
    | Some t =>
        match album_text (t_album t) with
        | Some (String c r) => Some (String c r)
        | _ =>
            match t_album t with
            | AlbumString s => Some s
            | _ => None
            end
        end
    end.

Definition sizePriority : list string :=
  ["extralarge"; "large"; "medium"; "small"].

(** The order in which sizes are tried:
    [[...sizePriority.slice(startIndex), ...sizePriority.slice(0, startIndex)]]. *)
Definition orderedSizes (preferredSize : string) : list string :=
  let startIndex := JS.indexOf sizePriority preferredSize in
  (JS.slice_from sizePriority startIndex ++ JS.slice sizePriority 0 startIndex)%list.

(** [track.image.find((i) => i.size === size)]. *)
Definition find_size (image : list ImageVariant) (size : string)
  : option ImageVariant :=
  find (fun i => JS.strict_eq (img_size i) size) image.

(** The [for (const size of orderedSizes)] loop: the URL of the first
    size whose found variant has a truthy ["#text"]. *)
Fixpoint try_sizes (image : list ImageVariant) (sizes : list string)
  : option string :=
  match sizes with
  | [] => None
  | size :: rest =>
      match find_size image size with
      | Some img =>
          if JS.truthy_str (img_text img) then img_text img
          else try_sizes image rest
      | None => try_sizes image rest
      end
  end.

(** [preferredSize] is [None] when the argument is omitted. *)
Definition getCoverUrl (track : option Track) (preferredSize : option string)
  : option string :=
  let preferredSize :=
    match preferredSize with Some p => p | None => "extralarge" end in
  match track with
  | None => None
  | Some t =>
      match t_image t with
      | None => None
      | Some image =>
          match try_sizes image (orderedSizes preferredSize) with
          | Some u => Some u
          | None =>
              (* Fall back to any available image *)
              match find (fun i => JS.truthy_str (img_text i)) image with
              | Some anyImg => JS.or_null (img_text anyImg)
              | None => None
              end
          end
      end
  end.

Definition getTrackUrl (track : option Track) : option string :=
  match track with
  | Some t => JS.or_null (t_url t)
  | None => None
  end.

Definition getMbid (track : option Track) : option string :=
  match track with
  | Some t => JS.or_null (t_mbid t)
  | None => None
  end.

(** [!dateInput]: [undefined], [null] and the empty string. *)
Definition date_falsy (d : DateInput) : bool :=
  match d with
  | DateMissing => true
  | DateString EmptyString => true
  | _ => false
  end.

(** [dateInput.uts]: only a date object has one. *)
Definition date_uts (d : DateInput) : option string :=
  match d with DateObject u => u | _ => None end.

(** [new Date(dateInput)] for an input without a usable [uts]: a
    [Date] is copied, a string is parsed, a plain object converts to
    a string that is not a date. *)
Definition Date_of_input (env : Env) (d : DateInput) : JS.Date :=
  match d with
  | DateInstance t => JS.TimeClip t
  | DateString s => Date_parse env s
  | DateObject _ => None
  | DateMissing => None
  end.

Section WithStore.
Variable S : Type.
Variable env : Env.

Definition parseDate (dateInput : DateInput) : M S JS.Date :=
  if date_falsy dateInput then Date_new env
  else if JS.truthy_str (date_uts dateInput) then
    ret (JS.Date_of_num (JS.mul (JS.parseInt (date_uts dateInput)) 1000))
  else ret (Date_of_input env dateInput).

(** [x < bound] for a quotient that may be NaN. *)
Definition lt_num (x : option Q) (bound : Q) : bool :=
  match x with
  | Some q => if Qlt_le_dec q bound then true else false
  | None => false
  end.

Definition getPlayingStatus (track : Track) : M S (option string) :=
  if JS.strict_eq (attr_nowplaying track) "true" then
    ret (Some "now-playing")
  else
    date <- parseDate (t_date track) ;;
    now <- Date_new env ;;
    let diffMs := JS.sub (JS.getTime now) (JS.getTime date) in
    let diffMins := option_map (fun ms => (inject_Z ms / inject_Z 60000)%Q) diffMs in
    if lt_num diffMins (inject_Z 60) then ret (Some "now-playing")
    else if lt_num diffMins (inject_Z (24 * 60)) then ret (Some "recently-played")
    else ret None.

End WithStore.

End Utils.

(* ------------------------------------------------------------------ *)
(** ** lib/lastfm-client.js *)

Module Client.
Import Payload Effects.
Local Open Scope js_scope.

(** [String.prototype.includes]. *)
Fixpoint includes (s sub : string) : bool :=
  if String.prefix sub s then true
  else
    match s with
    | EmptyString => false
    | String _ r => includes r sub
    end.

Definition opt_eqb {A} (eqb : A -> A -> bool) (a b : option A) : bool :=
  match a, b with
  | Some x, Some y => eqb x y
  | None, None => true
  | _, _ => false
  end.

Definition Params_eqb (a b : Params) : bool :=
  opt_eqb Z.eqb (p_page a) (p_page b)
  && opt_eqb Z.eqb (p_limit a) (p_limit b)
  && opt_eqb Z.eqb (p_extended a) (p_extended b)
  && opt_eqb Z.eqb (p_from a) (p_from b)
  && opt_eqb Z.eqb (p_to a) (p_to b).

(** Equality of cache keys (the URLs built from the requests). *)
Definition Request_eqb (a b : Request) : bool :=
  String.eqb (r_method a) (r_method b)
  && opt_eqb String.eqb (r_apiKey a) (r_apiKey b)
  && opt_eqb String.eqb (r_user a) (r_user b)
  && Params_eqb (r_params a) (r_params b).

(** [this.cache.get(cacheKey)]. *)
Fixpoint cache_get (c : list (Request * (Data * Z))) (k : Request)
  : option (Data * Z) :=
  match c with
  | [] => None
  | (k', v) :: r => if Request_eqb k' k then Some v else cache_get r k
  end.

(** [this.cache.set(cacheKey, value)]. *)
Definition cache_set (c : list (Request * (Data * Z))) (k : Request)
    (v : Data * Z) : list (Request * (Data * Z)) :=
  (k, v) :: filter (fun e => negb (Request_eqb (fst e) k)) c.

(** The fields of a [LastFmClient] instance other than its cache,
    which lives in the process state. *)
Record LastFmClient := {
  c_apiKey : option string;
  c_username : option string;
  c_cacheTtl : Z
}.

(** The typed error thrown for a non-success, non-JSON response:
    [new IndiekitError(`Last.fm API returned ${status}: ${statusText}`,
    { status })].  The error exposes the status it was built with. *)
Definition nonJsonError (r : HttpResponse) : JsError :=
  {| err_name := IndiekitError;
     err_message :=
       "Last.fm API returned " ++ JS.num_to_string (Some (status r))
         ++ ": " ++ statusText r;
     err_status := Some (status r);
     err_code := None |}.

Definition plainError (msg : string) : JsError :=
  {| err_name := PlainError; err_message := msg;
     err_status := None; err_code := None |}.

Definition syntaxError : JsError :=
  {| err_name := SyntaxError; err_message := "Unexpected token";
     err_status := None; err_code := None |}.

Definition opt_string (s : option string) : string :=
  match s with Some x => x | None => "undefined" end.

Section WithStore.
Variable S : Type.
Variable env : Env.

(** [new LastFmClient(options)]: a fresh, empty cache. *)
Definition new_LastFmClient (apiKey username : option string)
    (cacheTtl : JS.num) : M S LastFmClient :=
  modify (set_cache []) ;;;
  ret {| c_apiKey := apiKey; c_username := username;
         c_cacheTtl := JS.or_num cacheTtl 900000 |}.

(** The platform's [fetch(url, ...)]: the request is recorded and
    answered by the environment. *)
Definition net_fetch (req : Request) : M S HttpResponse :=
  w <- get ;;
  modify (set_requests (req :: requests w)) ;;;
  match upstream env (List.length (requests w)) req with
  | NetResponse r => ret r
  | NetFailure e => throw e
  end.

(** [cached && Date.now() - cached.timestamp < this.cacheTtl]. *)
Definition cache_fresh (this : LastFmClient) (cached : option (Data * Z))
  : M S (option Data) :=
  match cached with
  | None => ret None
  | Some (data, timestamp) =>
      now <- Date_now env ;;
      if now - timestamp <? c_cacheTtl this then ret (Some data)
      else ret None
  end.

Definition fetch (this : LastFmClient) (method : string) (params : Params)
  : M S Data :=
  let cacheKey :=
    {| r_method := method; r_apiKey := c_apiKey this;
       r_user := c_username this; r_params := params |} in
  (* Check cache first *)
  w <- get ;;
  hit <- cache_fresh this (cache_get (cache w) cacheKey) ;;
  match hit with
  | Some data => ret data
  | None =>
      response <- net_fetch cacheKey ;;
      (* Check content type before parsing *)
      let contentType :=
        match contentType response with
        | Some (String c r) => String c r
        | _ => ""
        end in
      if negb (ok response) then
        (* Handle non-JSON error responses (e.g., HTML error pages) *)
        if negb (includes contentType "application/json") then
          throw (nonJsonError response)
        else throw (fromFetch env response)
      else if negb (includes contentType "application/json") then
        (* Handle non-JSON success responses *)
        throw (plainError "Last.fm API returned non-JSON response")
      else
        match body_json response with
        | None => throw syntaxError
        | Some data =>
            (* Check for Last.fm API errors *)
            if JS.truthy_num (d_error data) then
              throw (plainError
                       ("Last.fm API error " ++ JS.num_to_string (d_error data)
                          ++ ": " ++ opt_string (d_message data)))
            else
              (* Cache result *)
              now <- Date_now env ;;
              w' <- get ;;
              modify (set_cache (cache_set (cache w') cacheKey (data, now))) ;;;
              ret data
        end
  end.

(** A truthy number, kept as a parameter. *)
Definition truthy_param (n : JS.num) : option Z :=
  if JS.truthy_num n then n else None.

(** [page] and [limit] are [None] when omitted (defaults 1 and 50). *)
Definition getRecentTracks (this : LastFmClient) (page limit : option Z)
    (from to : JS.num) : M S Data :=
  let page := match page with Some p => p | None => 1 end in
  let limit := match limit with Some l => l | None => 50 end in
  let params :=
    {| p_page := Some page;
       p_limit := Some (Z.min limit 200);
       p_extended := Some 1; (* Include loved status and artist info *)
       p_from := truthy_param from;
       p_to := truthy_param to |} in
  fetch this "user.getRecentTracks" params.

(** [response.recenttracks?.track || []]. *)
Definition response_tracks (response : Data) : list Track :=
  match recenttracks response with
  | Some rt => match track rt with Some l => l | None => [] end
  | None => []
  end.

(** [parseInt(response.recenttracks?.["@attr"]?.totalPages) || 1]. *)
Definition response_totalPages (response : Data) : Z :=
  JS.or_num
    (JS.parseInt
       match recenttracks response with
       | Some rt =>
           match rt_attr rt with
           | Some a => totalPages a
           | None => None
           end
       | None => None
       end)
    1.

(** [tracks.filter((t) => !t["@attr"]?.nowplaying)]. *)
Definition scrobbledTracks (tracks : list Track) : list Track :=
  filter (fun t => negb (JS.truthy_str (attr_nowplaying t))) tracks.

(** The [while (hasMore && page <= maxPages)] loop. *)
Fixpoint getAllRecentTracks_loop (fuel : nat) (this : LastFmClient)
    (maxPages page : Z) (hasMore : bool) (allTracks : list Track)
  : M S (list Track) :=
  if hasMore && (page <=? maxPages) then
    match fuel with
    | O => out_of_fuel
    | Datatypes.S fuel' =>
        response <- getRecentTracks this (Some page) (Some 200) None None ;;
        let tracks := response_tracks response in
        (* Filter out "now playing" track (has @attr.nowplaying) *)
        let allTracks := (allTracks ++ scrobbledTracks tracks)%list in
        let totalPages := response_totalPages response in
        getAllRecentTracks_loop fuel' this maxPages (page + 1)
          (page <? totalPages) allTracks
    end
  else ret allTracks.

(** At most [maxPages] iterations are possible, so that much fuel
    is enough. *)
Definition getAllRecentTracks (this : LastFmClient) (maxPages : option Z)
  : M S (list Track) :=
  let maxPages := match maxPages with Some m => m | None => 50 end in
  getAllRecentTracks_loop (Z.to_nat maxPages) this maxPages 1 true [].

(** The [while (hasMore)] loop of [getNewScrobbles]. *)
Fixpoint getNewScrobbles_loop (fuel : nat) (this : LastFmClient)
    (fromTimestamp : JS.num) (page : Z) (hasMore : bool)
    (newScrobbles : list Track) : M S (list Track) :=
  if hasMore then
    match fuel with
    | O => out_of_fuel
    | Datatypes.S fuel' =>
        response <-
          getRecentTracks this (Some page) (Some 200) fromTimestamp None ;;
        let tracks := response_tracks response in
        (* Filter out "now playing" track *)
        let newScrobbles := (newScrobbles ++ scrobbledTracks tracks)%list in
        let totalPages := response_totalPages response in
        getNewScrobbles_loop fuel' this fromTimestamp (page + 1)
          (page <? totalPages) newScrobbles
    end
  else ret newScrobbles.

(** The loop has no bound of its own; [fuel] bounds the number of
    pages this run is given time for. *)
Definition getNewScrobbles (fuel : nat) (this : LastFmClient)
    (since : JS.Date) : M S (list Track) :=
  let fromTimestamp := JS.floor_div (JS.getTime since) 1000 in
  getNewScrobbles_loop fuel this fromTimestamp 1 true [].

End WithStore.

End Client.

(* ------------------------------------------------------------------ *)
(** ** lib/sync.js *)

Module Sync.
Import Payload Effects Utils Client.
Local Open Scope js_scope.

(** The indexes [syncScrobbles] asks for. *)
Inductive IndexSpec :=
| UniqueSparse_lastfmId
| Unique_trackTitle_artistName_scrobbledAt
| Desc_scrobbledAt
| Asc_artistName
| Asc_albumTitle.

(** The filter of the upsert:
    [{ trackTitle, artistName, scrobbledAt }]. *)
Record Filter := {
  f_trackTitle : string;
  f_artistName : string;
  f_scrobbledAt : JS.Date
}.

(** The database handle: the operations the sync engine calls on it,
    each of which may change the store and may throw. *)
Record Database (S : Type) := {
  (* [db.collection("lastfmMeta").findOne({ key: "settings" })] *)
  findSettings : S -> Outcome (option Settings) * S;
  (* [collection.createIndex(...)] *)
  createIndex : IndexSpec -> S -> Outcome unit * S;
  (* [collection.findOne({}, { sort: { scrobbledAt: -1 } })] *)
  findLatest : S -> Outcome (option Doc) * S;
  (* [collection.updateOne(filter, { $set: doc }, { upsert: true })] *)
  updateOne : Filter -> Doc -> S -> Outcome unit * S
}.

(** [Indiekit.database] may be unset. *)
Record Indiekit (S : Type) := {
  database : option (Database S)
}.

(** The result object of a sync: [{ synced }] or [{ synced, error }]. *)
Record SyncResult := {
  synced : Z;
  error : option string
}.

Definition STATS_CACHE_TTL : Z := 300000. (* 5 minutes *)

Definition rangeError : JsError :=
  {| err_name := RangeError; err_message := "Invalid time value";
     err_status := None; err_code := None |}.

Section WithStore.
Variable S : Type.
Variable env : Env.

(** lib/stats.js [getAllStats(db, limits, client)]: it returns a
    snapshot or throws; its aggregation pipelines are not interpreted
    here (see [StatsEngine] for the summary of a window). *)
Variable getAllStats :
  Database S -> option Limits -> option LastFmClient ->
  World S -> Outcome Stats * World S.

(** [cachedStatsTime && Date.now() - cachedStatsTime > ttl]: the
    clock is read only when a write time is recorded. *)
Definition cache_expired (ttl : Z) (cachedStatsTime : JS.num) : M S bool :=
  match cachedStatsTime with
  | Some t =>
      if negb (t =? 0) then
        now <- Date_now env ;;
        ret (now - t >? ttl)
      else ret false
  | None => ret false
  end.

(** The read accessor, with the freshness window as a parameter. *)
Definition getCachedStats_ttl (ttl : Z) : M S (option Stats) :=
  w <- get ;;
  match cachedStats w with
  | None => ret None
  | Some stats =>
      expired <- cache_expired ttl (cachedStatsTime w) ;;
      if expired then
        ret (Some stats) (* Return stale cache, sync will refresh *)
      else ret (Some stats)
  end.

Definition getCachedStats : M S (option Stats) :=
  getCachedStats_ttl STATS_CACHE_TTL.

Definition setCachedStats (stats : Stats) : M S unit :=
  now <- Date_now env ;;
  modify (set_stats (Some stats) (Some now)).


Definition getEffectiveSyncOptions (db : Database S) (options : Options)
  : M S Options :=
  try_catch
    (settings <- on_store (findSettings db) ;;
     match settings with
     | Some settings =>
         ret {| apiKey := JS.or_str (s_apiKey settings) (apiKey options);
                username := JS.or_str (s_username settings) (username options);
                cacheTtl := cacheTtl options;
                syncInterval := syncInterval options;
                limits := limits options |}
     | None => ret options
     end)
    (fun _ => ret options).

Definition transformScrobble (scrobble : Track) : M S Doc :=
  scrobbledAt <- parseDate env (t_date scrobble) ;;
  let artistName := getArtistName (Some scrobble) in
  let albumTitle := getAlbumName (Some scrobble) in
  syncedAt <- Date_new env ;;
  ret {| (* Create a unique ID from track info and timestamp *)
         lastfmId :=
           artistName ++ ":" ++ t_name scrobble ++ ":"
             ++ JS.num_to_string (JS.getTime scrobbledAt);
         trackTitle := t_name scrobble;
         trackUrl := getTrackUrl (Some scrobble);
         Payload.artistName := artistName;
         artistMbid := JS.or_null (artist_mbid (t_artist scrobble));
         Payload.albumTitle := albumTitle;
         albumMbid := JS.or_null (album_mbid (t_album scrobble));
         mbid := getMbid (Some scrobble);
         coverUrl := getCoverUrl (Some scrobble) None;
         loved := JS.strict_eq (t_loved scrobble) "1";
         Payload.scrobbledAt := scrobbledAt;
         Payload.syncedAt := syncedAt |}.

(** [newScrobbles.map((s) => transformScrobble(s))]. *)
Fixpoint map_transform (l : list Track) : M S (list Doc) :=
  match l with
  | [] => ret []
  | s :: r =>
      d <- transformScrobble s ;;
      ds <- map_transform r ;;
      ret (d :: ds)
  end.

(** The [for (const doc of docs)] loop: each upsert is attempted on
    its own; one that throws is not counted. *)
Fixpoint upsert_all (db : Database S) (docs : list Doc) (synced : Z)
  : M S Z :=
  match docs with
  | [] => ret synced
  | doc :: rest =>
      synced' <-
        try_catch
          (on_store
             (updateOne db
                {| f_trackTitle := trackTitle doc;
                   f_artistName := artistName doc;
                   f_scrobbledAt := scrobbledAt doc |}
                doc) ;;;
           ret (synced + 1))
          (fun _ => ret synced) ;;
      upsert_all db rest synced'
  end.

(** [fuel] bounds the pagination of the incremental fetch. *)
Definition syncScrobbles (fuel : nat) (db : Database S)
    (client : LastFmClient) : M S SyncResult :=
  (* Create indexes for efficient queries *)
  on_store (createIndex db UniqueSparse_lastfmId) ;;;
  on_store (createIndex db Unique_trackTitle_artistName_scrobbledAt) ;;;
  on_store (createIndex db Desc_scrobbledAt) ;;;
  on_store (createIndex db Asc_artistName) ;;;
  on_store (createIndex db Asc_albumTitle) ;;;
  (* Get the latest synced scrobble *)
  latest <- on_store (findLatest db) ;;
  let latestDate : JS.Date :=
    match latest with
    | Some d => scrobbledAt d
    | None => JS.Date_of_num (Some 0)
    end in
  (* [latestDate.toISOString()] in the log line *)
  match latestDate with
  | None => throw rangeError
  | Some t =>
      (* Fetch new scrobbles *)
      newScrobbles <-
        (if t =? 0 then
           (* First sync: get recent history (not all-time to avoid rate limits) *)
           getAllRecentTracks env client (Some 10)
         else
           (* Incremental sync *)
           getNewScrobbles env fuel client latestDate) ;;
      match newScrobbles with
      | [] => ret {| synced := 0; error := None |}
      | _ =>
          (* Transform to our schema *)
          docs <- map_transform newScrobbles ;;
          (* Upsert each document (in case of duplicates) *)
          synced <- upsert_all db docs 0 ;;
          ret {| synced := synced; error := None |}
      end
  end.

Definition runSync (fuel : nat) (Indiekit : Indiekit S) (options : Options)
  : M S SyncResult :=
  match database Indiekit with
  | None => ret {| synced := 0; error := Some "No database" |}
  | Some db =>
      (* Use effective config (DB settings override env vars) *)
      effectiveOptions <- getEffectiveSyncOptions db options ;;
      if negb (JS.truthy_str (apiKey effectiveOptions))
         || negb (JS.truthy_str (username effectiveOptions)) then
        ret {| synced := 0; error := Some "Not configured" |}
      else
        client <-
          new_LastFmClient (apiKey effectiveOptions)
            (username effectiveOptions) (Some 60000) ;;
        result <- syncScrobbles fuel db client ;;
        (* Update stats cache after sync *)
        try_catch
          (stats <- lift (getAllStats db (limits effectiveOptions) (Some client)) ;;
           setCachedStats stats)
          (fun _ => ret tt) ;;;
        ret result
  end.

(** The body of both timer callbacks of [startSync]:
    [runSync(Indiekit, options).catch((err) => console.error(...))]. *)
Definition timer_callback (fuel : nat) (Indiekit : Indiekit S)
    (options : Options) : M S unit :=
  try_catch (runSync fuel Indiekit options ;;; ret tt) (fun _ => ret tt).

(** [options.syncInterval || 300_000]. *)
Definition intervalMs (options : Options) : Z :=
  JS.or_num (syncInterval options) 300000.

End WithStore.

End Sync.

(* ------------------------------------------------------------------ *)
(** ** lib/utils.js: the presentation helpers *)

Module Format.
Import Payload Effects Utils Sync.
Local Open Scope js_scope.

(** A JS string as the sequence of its UTF-16 code units, which is
    what [length] counts and [slice] cuts. *)
Definition utf16 := list N.

(** ["..."]. *)
Definition dots : utf16 := [46; 46; 46]%N.

(** [text] is [None] for [undefined] and [null]; [maxLength] is [None]
    when the argument is omitted. *)
Definition truncate (text : option utf16) (maxLength : option Z) : utf16 :=
  let maxLength := match maxLength with Some m => m | None => 80 end in
  match text with
  | Some (u :: r) =>
      if Z.of_nat (List.length (u :: r)) <=? maxLength then u :: r
      else (JS.slice (u :: r) 0 (maxLength - 1) ++ dots)%list
  | _ => []
  end.

(** [s.padStart(2, "0")]. *)
Definition padStart2 (s : string) : string :=
  match s with
  | EmptyString => "00"
  | String c EmptyString => String "0" (String c EmptyString)
  | _ => s
  end.

(** [seconds] is an integer or NaN.  The quotients and remainders of
    the code are those of doubles and the numbers are printed by
    Number::toString; both agree with the integer operations and the
    decimal numeral used here for the integers of the safe range
    ([JS.safe]), to which the statements about this function are
    limited. *)
Definition formatDuration (seconds : JS.num) : string :=
  match seconds with
  | None => "0:00"
  | Some s =>
      if (s =? 0) || (s <? 0) then "0:00"
      else
        let hours := s / 3600 in
        let minutes := Z.rem s 3600 / 60 in
        let secs := Z.rem s 60 in
        if hours >? 0 then
          JS.num_to_string (Some hours) ++ "h "
            ++ JS.num_to_string (Some minutes) ++ "m"
        else
          JS.num_to_string (Some minutes) ++ ":"
            ++ padStart2 (JS.num_to_string (Some secs))
  end.

Definition mapPeriodToInternal (period : string) : string :=
  if String.eqb period "7day" then "week"
  else if String.eqb period "1month" || String.eqb period "3month" then "month"
  else "all".

Definition mapPeriodToLastfm (period : string) : string :=
  if String.eqb period "week" then "7day"
  else if String.eqb period "month" then "1month"
  else "overall".

(** A string that is known to be present. *)
Definition opt_str (s : option string) : string :=
  match s with Some x => x | None => EmptyString end.

(** The platform's date formatting; what it prints is not
    interpreted. *)
Record Platform := {
  (* [toISOString()] of the valid date with this time value *)
  iso_of : Z -> string;
  (* [toLocaleDateString(locale, { year, month, day })] *)
  toLocaleDateString : JS.Date -> string -> string
}.

(** The object [formatScrobble] returns. *)
Record Formatted := {
  fs_id : option string;
  fs_track : string;
  fs_artist : string;
  fs_album : option string;
  fs_coverUrl : option string;
  fs_trackUrl : option string;
  fs_mbid : option string;
  fs_loved : bool;
  fs_scrobbledAt : string;
  fs_relativeTime : string;
  fs_status : option string
}.

(** The object literal [{ date: scrobbledAt }]: an entry of which
    only the date is present. *)
Definition dated (scrobbledAt : JS.Date) : Track :=
  {| t_name := "";
     t_artist := ArtistAbsent;
     t_album := AlbumAbsent;
     t_image := None;
     t_url := None;
     t_mbid := None;
     t_date := DateInstance scrobbledAt;
     t_attr := None;
     t_loved := None |}.

(** [x < bound] for an integer that may be NaN. *)
Definition lt_int (x : JS.num) (bound : Z) : bool :=
  match x with
  | Some v => v <? bound
  | None => false
  end.

Section WithStore.
Variable S : Type.
Variable env : Env.
Variable platform : Platform.

(** [date.toISOString()]: a RangeError on the Invalid Date. *)
Definition toISOString (date : JS.Date) : M S string :=
  match date with
  | Some t => ret (iso_of platform t)
  | None => throw rangeError
  end.

(** [locale] is [None] when the argument is omitted. *)
Definition formatDate (dateInput : DateInput) (locale : option string)
  : M S string :=
  let locale := match locale with Some l => l | None => "en" end in
  date <- parseDate env dateInput ;;
  ret (toLocaleDateString platform date locale).

Definition formatRelativeTime (dateInput : DateInput) : M S string :=
  date <- parseDate env dateInput ;;
  now <- Date_new env ;;
  let diffMs := JS.sub (JS.getTime now) (JS.getTime date) in
  let diffMins := JS.floor_div diffMs 60000 in
  let diffHours := JS.floor_div diffMs 3600000 in
  let diffDays := JS.floor_div diffMs 86400000 in
  if lt_int diffMins 1 then ret "just now"
  else if lt_int diffMins 60 then ret (JS.num_to_string diffMins ++ "m ago")
  else if lt_int diffHours 24 then ret (JS.num_to_string diffHours ++ "h ago")
  else if lt_int diffDays 7 then ret (JS.num_to_string diffDays ++ "d ago")
  else formatDate dateInput None.

(** [formatScrobble(scrobble, true)]: a row read from the store.
    [_id] is the row's [_id?.toString()]. *)
Definition formatScrobble_fromDb (scrobble : Doc) (_id : option string)
  : M S Formatted :=
  let scrobbledAt := Payload.scrobbledAt scrobble in
  iso <- toISOString scrobbledAt ;;
  relativeTime <- formatRelativeTime (DateInstance scrobbledAt) ;;
  status <- getPlayingStatus env (dated scrobbledAt) ;;
  ret {| fs_id := JS.or_str (Some (lastfmId scrobble)) _id;
         fs_track := trackTitle scrobble;
         fs_artist := artistName scrobble;
         fs_album := albumTitle scrobble;
         fs_coverUrl := coverUrl scrobble;
         fs_trackUrl := trackUrl scrobble;
         fs_mbid := mbid scrobble;
         fs_loved := loved scrobble || false;
         fs_scrobbledAt := iso;
         fs_relativeTime := relativeTime;
         fs_status := status |}.

(** [formatScrobble(scrobble)]: an entry of the upstream API. *)
Definition formatScrobble (scrobble : Track) : M S Formatted :=
  scrobbledAt <- parseDate env (t_date scrobble) ;;
  let isNowPlaying := JS.strict_eq (attr_nowplaying scrobble) "true" in
  iso <-
    (if isNowPlaying then now <- Date_new env ;; toISOString now
     else toISOString scrobbledAt) ;;
  relativeTime <-
    (if isNowPlaying then ret "now"
     else formatRelativeTime (DateInstance scrobbledAt)) ;;
  status <- getPlayingStatus env scrobble ;;
  ret {| fs_id :=
           Some (opt_str (JS.or_str (artist_mbid (t_artist scrobble)) (Some ""))
                   ++ ":"
                   ++ opt_str (JS.or_str (t_mbid scrobble)
                                 (Some (t_name scrobble)))
                   ++ ":" ++ JS.num_to_string (JS.getTime scrobbledAt));
         fs_track := t_name scrobble;
         fs_artist := getArtistName (Some scrobble);
         fs_album := getAlbumName (Some scrobble);
         fs_coverUrl := getCoverUrl (Some scrobble) None;
         fs_trackUrl := getTrackUrl (Some scrobble);
         fs_mbid := getMbid (Some scrobble);
         fs_loved := JS.strict_eq (t_loved scrobble) "1";
         fs_scrobbledAt := iso;
         fs_relativeTime := relativeTime;
         fs_status := status |}.

End WithStore.

End Format.

(* ------------------------------------------------------------------ *)
(** ** lib/config.js and lib/controllers *)

Module Controllers.
Import Payload Effects Utils Client Sync Format.
Local Open Scope js_scope.

(** The JSON bodies the handlers send. *)
Inductive Body :=
| ErrorBody (error : string)                   (* [{ error }] *)
| NotReadyBody (error message : string)        (* [{ error, message }] *)
| ErrorDetail (error : string) (retryable : bool)
                                               (* [{ error, code, retryable }] *)
| StatsBody (stats : Stats)
| SyncBody (success : bool) (synced : Z) (message : string)
| PageBody (scrobbles : list Formatted) (total page : Z)
    (hasNext hasPrev : bool).
                                               (* [{ scrobbles, total, page, hasNext, hasPrev }] *)

(** What a handler leaves on the response object. *)
Record Reply := {
  reply_status : Z;
  reply_retryAfter : option string;   (* the [Retry-After] header *)
  reply_body : Body
}.

(** [response.json(body)] and [response.status(n).json(body)]. *)
Definition json (body : Body) : Reply :=
  {| reply_status := 200; reply_retryAfter := None; reply_body := body |}.

Definition status_json (n : Z) (body : Body) : Reply :=
  {| reply_status := n; reply_retryAfter := None; reply_body := body |}.

(** The [catch (error)] block shared by the public API handlers. *)
Definition error_reply (error : JsError) : Reply :=
  (* Use error status if available (from IndiekitError), otherwise 500 *)
  let status := JS.or_num (err_status error) 500 in
  {| reply_status := status;
     (* For transient errors (503), suggest retry *)
     reply_retryAfter := if status =? 503 then Some "60" else None;
     reply_body :=
       ErrorDetail (err_message error) ((status =? 503) || (status =? 502)) |}.

(** The query string of a paged request. *)
Record Query := {
  q_page : option string;
  q_limit : option string
}.

(** [recenttracks?.["@attr"]?.total] and [.page]. *)
Definition response_total (response : Data) : option string :=
  match recenttracks response with
  | Some rt => match rt_attr rt with Some a => total a | None => None end
  | None => None
  end.

Definition response_page (response : Data) : option string :=
  match recenttracks response with
  | Some rt => match rt_attr rt with Some a => page a | None => None end
  | None => None
  end.

Section WithStore.
Variable S : Type.
Variable env : Env.
Variable platform : Platform.
Variable getAllStats :
  Database S -> option Limits -> option LastFmClient ->
  World S -> Outcome Stats * World S.

(** lib/config.js: stored settings override the plugin options. *)
Definition getEffectiveConfig (db : option (Database S))
    (lastfmConfig : option Options) : M S (option string * option string) :=
  let apiKey0 :=
    JS.or_str (match lastfmConfig with Some c => apiKey c | None => None end)
      (Some "") in
  let username0 :=
    JS.or_str (match lastfmConfig with Some c => username c | None => None end)
      (Some "") in
  match db with
  | Some db =>
      try_catch
        (settings <- on_store (findSettings db) ;;
         match settings with
         | Some settings =>
             ret (if JS.truthy_str (s_apiKey settings)
                  then s_apiKey settings else apiKey0,
                  if JS.truthy_str (s_username settings)
                  then s_username settings else username0)
         | None => ret (apiKey0, username0)
         end)
        (fun _ => ret (apiKey0, username0))
  | None => ret (apiKey0, username0)
  end.

(** [statsController.api]; [db] is [application.getLastfmDb?.()]. *)
Definition stats_api (lastfmConfig : option Options)
    (db : option (Database S)) : M S Reply :=
  try_catch
    match lastfmConfig with
    | None => ret (status_json 500 (ErrorBody "Not configured"))
    | Some config =>
        (* Try database first, fall back to cache for public routes *)
        match db with
        | Some db =>
            '(apiKey, username) <- getEffectiveConfig (Some db) lastfmConfig ;;
            client <- new_LastFmClient apiKey username (cacheTtl config) ;;
            stats <- lift (getAllStats db (limits config) (Some client)) ;;
            ret (json (StatsBody stats))
        | None =>
            (* Public routes don't have DB access, use cached stats *)
            stats <- getCachedStats env ;;
            match stats with
            | None =>
                ret (status_json 503
                       (NotReadyBody "Stats not available yet"
                          "Stats are computed during background sync. Please try again shortly."))
            | Some stats => ret (json (StatsBody stats))
            end
        end
    end
    (fun error => ret (error_reply error)).

(** [tracks.map((s) => utils.formatScrobble(s))]: the entries are
    formatted in order; the first one that throws ends the loop. *)
Fixpoint map_format (tracks : list Track) : M S (list Formatted) :=
  match tracks with
  | [] => ret []
  | s :: rest =>
      f <- formatScrobble env platform s ;;
      fs <- map_format rest ;;
      ret (f :: fs)
  end.

(** [scrobblesController.api]. *)
Definition scrobbles_api (lastfmConfig : option Options)
    (db : option (Database S)) (query : Query) : M S Reply :=
  try_catch
    match lastfmConfig with
    | None => ret (status_json 500 (ErrorBody "Not configured"))
    | Some config =>
        '(apiKey, username) <- getEffectiveConfig db lastfmConfig ;;
        let page := JS.or_num (JS.parseInt (q_page query)) 1 in
        let limit :=
          Z.min
            (JS.or_num (JS.parseInt (q_limit query))
               (JS.or_num
                  (match limits config with
                   | Some l => lim_scrobbles l
                   | None => None
                   end) 20))
            200 in
        client <- new_LastFmClient apiKey username (cacheTtl config) ;;
        scrobblesRes <-
          getRecentTracks env client (Some page) (Some limit) None None ;;
        let tracks := response_tracks scrobblesRes in
        scrobbles <- map_format tracks ;;
        let totalPages := response_totalPages scrobblesRes in
        ret (json
               (PageBody scrobbles
                  (JS.or_num (JS.parseInt (response_total scrobblesRes))
                     (Z.of_nat (List.length scrobbles)))
                  (JS.or_num (JS.parseInt (response_page scrobblesRes)) page)
                  (page <? totalPages) (page >? 1)))
    end
    (fun error => ret (error_reply error)).

(** [dashboardController.sync]; [Indiekit] is
    [request.app.locals.indiekit]. *)
Definition dashboard_sync (fuel : nat) (lastfmConfig : option Options)
    (Indiekit : option (Indiekit S)) : M S Reply :=
  try_catch
    match lastfmConfig with
    | None => ret (status_json 500 (ErrorBody "Not configured"))
    | Some config =>
        match Indiekit with
        | None => ret (status_json 500 (ErrorBody "Database not available"))
        | Some ik =>
            match database ik with
            | None =>
                ret (status_json 500 (ErrorBody "Database not available"))
            | Some _ =>
                result <- runSync env getAllStats fuel ik config ;;
                ret (json
                       (SyncBody true (synced result)
                          ("Synced " ++ JS.num_to_string (Some (synced result))
                             ++ " new scrobbles")))
            end
        end
    end
    (fun error => ret (status_json 500 (ErrorBody (err_message error)))).

End WithStore.

End Controllers.

(* ------------------------------------------------------------------ *)
(** ** A reference store

    The two collections of the plugin, with MongoDB's behaviour for the
    operations [Sync.Database] lists: an upsert replaces the first row
    matching the filter or appends a new one, and is refused with error
    11000 when it would break a unique index that exists. *)

Module MemDb.
Import Payload Effects Sync.

Record MemStore := {
  scrobbles : list Doc;           (* collection "scrobbles" *)
  meta : option Settings;         (* the settings row of "lastfmMeta" *)
  indexes : list IndexSpec        (* indexes created so far *)
}.

Definition empty : MemStore :=
  {| scrobbles := []; meta := None; indexes := [] |}.

Definition IndexSpec_eqb (a b : IndexSpec) : bool :=
  match a, b with
  | UniqueSparse_lastfmId, UniqueSparse_lastfmId
  | Unique_trackTitle_artistName_scrobbledAt,
    Unique_trackTitle_artistName_scrobbledAt
  | Desc_scrobbledAt, Desc_scrobbledAt
  | Asc_artistName, Asc_artistName
  | Asc_albumTitle, Asc_albumTitle => true
  | _, _ => false
  end.

Definition has_index (s : MemStore) (i : IndexSpec) : bool :=
  existsb (IndexSpec_eqb i) (indexes s).

Definition Date_eqb (a b : JS.Date) : bool :=
  match a, b with
  | Some x, Some y => x =? y
  | None, None => true
  | _, _ => false
  end.

(** A row matches the upsert's filter. *)
Definition matches (f : Filter) (d : Doc) : bool :=
  String.eqb (trackTitle d) (f_trackTitle f)
  && String.eqb (artistName d) (f_artistName f)
  && Date_eqb (scrobbledAt d) (f_scrobbledAt f).

(** Two rows collide on the compound unique index. *)
Definition same_key (a b : Doc) : bool :=
  String.eqb (trackTitle a) (trackTitle b)
  && String.eqb (artistName a) (artistName b)
  && Date_eqb (scrobbledAt a) (scrobbledAt b).

(** Two rows collide on the [lastfmId] unique index. *)
Definition same_id (a b : Doc) : bool :=
  String.eqb (lastfmId a) (lastfmId b).

Fixpoint has_dup (eqb : Doc -> Doc -> bool) (l : list Doc) : bool :=
  match l with
  | [] => false
  | d :: r => existsb (eqb d) r || has_dup eqb r
  end.

Definition dupKeyError : JsError :=
  {| err_name := MongoError;
     err_message := "E11000 duplicate key error";
     err_status := None;
     err_code := Some 11000 |}.

(** A unique index cannot be built over rows that already collide. *)
Definition mem_createIndex (i : IndexSpec) (s : MemStore)
  : Outcome unit * MemStore :=
  let clash :=
    match i with
    | UniqueSparse_lastfmId => has_dup same_id (scrobbles s)
    | Unique_trackTitle_artistName_scrobbledAt => has_dup same_key (scrobbles s)
    | _ => false
    end in
  if clash then (Raised dupKeyError, s)
  else if has_index s i then (Returned tt, s)
  else (Returned tt, {| scrobbles := scrobbles s; meta := meta s;
                  indexes := i :: indexes s |}).

Definition Date_ltb (a b : JS.Date) : bool :=
  match a, b with
  | Some x, Some y => x <? y
  | None, Some _ => true
  | _, _ => false
  end.

(** The row with the greatest [scrobbledAt]. *)
Fixpoint latest_of (l : list Doc) (best : option Doc) : option Doc :=
  match l with
  | [] => best
  | d :: r =>
      latest_of r
        (match best with
         | None => Some d
         | Some b =>
             if Date_ltb (scrobbledAt b) (scrobbledAt d) then Some d else Some b
         end)
  end.

Definition mem_findLatest (s : MemStore) : Outcome (option Doc) * MemStore :=
  (Returned (latest_of (scrobbles s) None), s).

(** Split the rows at the first one matching the filter. *)
Fixpoint split_match (f : Filter) (l : list Doc)
  : option (list Doc * Doc * list Doc) :=
  match l with
  | [] => None
  | d :: r =>
      if matches f d then Some ([], d, r)
      else
        match split_match f r with
        | Some (before, m, after) => Some (d :: before, m, after)
        | None => None
        end
  end.

(** The written row would collide with one of [others]. *)
Definition violates (s : MemStore) (doc : Doc) (others : list Doc) : bool :=
  (has_index s UniqueSparse_lastfmId && existsb (same_id doc) others)
  || (has_index s Unique_trackTitle_artistName_scrobbledAt
      && existsb (same_key doc) others).

Definition mem_updateOne (f : Filter) (doc : Doc) (s : MemStore)
  : Outcome unit * MemStore :=
  match split_match f (scrobbles s) with
  | Some (before, _, after) =>
      (* a row matches: its fields are overwritten in place *)
      if violates s doc (before ++ after) then (Raised dupKeyError, s)
      else (Returned tt, {| scrobbles := before ++ doc :: after; meta := meta s;
                      indexes := indexes s |})
  | None =>
      (* no row matches: insert *)
      if violates s doc (scrobbles s) then (Raised dupKeyError, s)
      else (Returned tt, {| scrobbles := scrobbles s ++ [doc]; meta := meta s;
                      indexes := indexes s |})
  end.

Definition mem_findSettings (s : MemStore)
  : Outcome (option Settings) * MemStore :=
  (Returned (meta s), s).

Definition memdb : Database MemStore :=
  {| findSettings := mem_findSettings;
     createIndex := mem_createIndex;
     findLatest := mem_findLatest;
     updateOne := mem_updateOne |}.

End MemDb.

(* ------------------------------------------------------------------ *)
(** ** The timers of [startSync] and the event loop around [runSync]

    [startSync] and [stopSync] are read as functions on the timer table
    of the platform and the module variable [syncInterval].  The
    platform is the environment: a timeout fires once, an interval
    fires any number of times until [clearInterval] is given its
    handle, and a request to the admin route may arrive at any moment.
    A call of [runSync] awaits I/O, so its promise stays pending over
    several turns of the event loop, during which any other callback
    may run.  Delays are recorded but time is not modelled: a
    registered timer may fire at any turn.  What overlapping calls do
    to the store is not modelled either. *)

Module Scheduler.
Import Payload Effects Sync Controllers.

Section WithStore.
Variable S : Type.

(** A call of [runSync] and who makes it. *)
Inductive Call :=
| TimerSync (Indiekit : Indiekit S) (options : Options)
    (* the arrow functions [startSync] hands to [setTimeout] and
       [setInterval]: [runSync(Indiekit, options).catch(...)] *)
| AdminSync (Indiekit : Indiekit S) (config : Options).
    (* [dashboardController.sync]: [await runSync(Indiekit, lastfmConfig)] *)

(** The arguments [runSync] is called with. *)
Definition call_args (c : Call) : Indiekit S * Options :=
  match c with
  | TimerSync ik options => (ik, options)
  | AdminSync ik config => (ik, config)
  end.

(** The code that makes the call: the timer callback, or the admin
    handler. *)
Definition body (env : Env)
    (getAllStats : Database S -> option Limits -> option Client.LastFmClient ->
                   World S -> Outcome Stats * World S)
    (fuel : nat) (c : Call) : M S unit :=
  match c with
  | TimerSync ik options => timer_callback env getAllStats fuel ik options
  | AdminSync ik config =>
      bind (dashboard_sync env getAllStats fuel (Some config) (Some ik))
        (fun _ => ret tt)
  end.

(** A registered timer. *)
Record Timer := {
  handle : nat;     (* what [setTimeout] / [setInterval] returned *)
  delay : Z;        (* milliseconds *)
  call : Call       (* what its callback does *)
}.

Record State := {
  nextHandle : nat;            (* the handle the next timer gets *)
  timeouts : list Timer;       (* [setTimeout] timers that have not fired *)
  intervals : list Timer;      (* [setInterval] timers that are not cleared *)
  syncInterval : option nat;   (* the module variable of sync.js *)
  inFlight : list Call         (* calls of [runSync] whose promise is pending *)
}.

(** The process starts with no timer; handles are counted from 1. *)
Definition init : State :=
  {| nextHandle := 1; timeouts := []; intervals := []; syncInterval := None;
     inFlight := [] |}.

(** [setTimeout(callback, ms)]: the timer is registered under a fresh
    handle, which is returned. *)
Definition setTimeout (c : Call) (ms : Z) (s : State) : nat * State :=
  (nextHandle s,
   {| nextHandle := Datatypes.S (nextHandle s);
      timeouts := {| handle := nextHandle s; delay := ms; call := c |}
                    :: timeouts s;
      intervals := intervals s;
      syncInterval := syncInterval s;
      inFlight := inFlight s |}).

(** [setInterval(callback, ms)]. *)
Definition setInterval (c : Call) (ms : Z) (s : State) : nat * State :=
  (nextHandle s,
   {| nextHandle := Datatypes.S (nextHandle s);
      timeouts := timeouts s;
      intervals := {| handle := nextHandle s; delay := ms; call := c |}
                     :: intervals s;
      syncInterval := syncInterval s;
      inFlight := inFlight s |}).

(** The timers other than the one with this handle. *)
Definition drop_handle (h : nat) (l : list Timer) : list Timer :=
  filter (fun t => negb (handle t =? h)%nat) l.

(** [clearInterval(handle)]. *)
Definition clearInterval (h : nat) (s : State) : State :=
  {| nextHandle := nextHandle s;
     timeouts := timeouts s;
     intervals := drop_handle h (intervals s);
     syncInterval := syncInterval s;
     inFlight := inFlight s |}.

(** An assignment to the module variable [syncInterval]. *)
Definition set_syncInterval (v : option nat) (s : State) : State :=
  {| nextHandle := nextHandle s;
     timeouts := timeouts s;
     intervals := intervals s;
     syncInterval := v;
     inFlight := inFlight s |}.

Definition startSync (Indiekit : Indiekit S) (options : Options) (s : State)
  : State :=
  let intervalMs := intervalMs options in (* 5 minutes default *)
  (* Initial sync after a short delay *)
  let '(_, s) := setTimeout (TimerSync Indiekit options) 5000 s in
  (* Schedule recurring sync *)
  let '(h, s) := setInterval (TimerSync Indiekit options) intervalMs s in
  set_syncInterval (Some h) s.

(** A timer handle is truthy. *)
Definition stopSync (s : State) : State :=
  match syncInterval s with
  | Some h => set_syncInterval None (clearInterval h s)
  | None => s
  end.

Inductive Event :=
| StartSync (Indiekit : Indiekit S) (options : Options)
    (* [startSync(Indiekit, options)] is called *)
| StopSync
    (* [stopSync()] is called *)
| TimeoutFires (h : nat)
    (* the timeout with this handle is due and its callback runs *)
| IntervalFires (h : nat)
    (* the interval with this handle is due and its callback runs *)
| AdminRequest (lastfmConfig : option Options)
    (Indiekit : option (Indiekit S))
    (* a request reaches [dashboardController.sync] *)
| Settles (n : nat).
    (* the promise of the pending call at this position settles *)

Definition find_timer (h : nat) (l : list Timer) : option Timer :=
  find (fun t => (handle t =? h)%nat) l.

(** The call of [runSync] that [dashboardController.sync] makes: none
    without a configuration, an Indiekit instance or a database, in
    which cases the handler answers 500 at once. *)
Definition admin_call (lastfmConfig : option Options)
    (Indiekit : option (Indiekit S)) : option Call :=
  match lastfmConfig, Indiekit with
  | Some config, Some ik =>
      match database ik with
      | Some _ => Some (AdminSync ik config)
      | None => None
      end
  | _, _ => None
  end.

(** A call of [runSync] begins: its promise is pending. *)
Definition begin (c : Call) (s : State) : State :=
  {| nextHandle := nextHandle s;
     timeouts := timeouts s;
     intervals := intervals s;
     syncInterval := syncInterval s;
     inFlight := c :: inFlight s |}.

Fixpoint remove_nth {A : Type} (n : nat) (l : list A) : list A :=
  match l, n with
  | [], _ => []
  | _ :: r, O => r
  | x :: r, Datatypes.S n' => x :: remove_nth n' r
  end.

(** One turn of the event loop; [None] when the event cannot occur. *)
Definition step (s : State) (e : Event) : option State :=
  match e with
  | StartSync ik options => Some (startSync ik options s)
  | StopSync => Some (stopSync s)
  | TimeoutFires h =>
      match find_timer h (timeouts s) with
      | Some t =>
          Some (begin (call t)
                  {| nextHandle := nextHandle s;
                     timeouts := drop_handle h (timeouts s);
                     intervals := intervals s;
                     syncInterval := syncInterval s;
                     inFlight := inFlight s |})
      | None => None
      end
  | IntervalFires h =>
      match find_timer h (intervals s) with
      | Some t => Some (begin (call t) s)
      | None => None
      end
  | AdminRequest lastfmConfig ik =>
      match admin_call lastfmConfig ik with
      | Some c => Some (begin c s)
      | None => Some s
      end
  | Settles n =>
      match nth_error (inFlight s) n with
      | Some _ =>
          Some {| nextHandle := nextHandle s;
                  timeouts := timeouts s;
                  intervals := intervals s;
                  syncInterval := syncInterval s;
                  inFlight := remove_nth n (inFlight s) |}
      | None => None
      end
  end.

Fixpoint run (s : State) (trace : list Event) : option State :=
  match trace with
  | [] => Some s
  | e :: r =>
      match step s e with
      | Some s' => run s' r
      | None => None
      end
  end.

(** Events at which a call of [runSync] begins. *)
Definition starts_cycle (e : Event) : bool :=
  match e with
  | TimeoutFires _ | IntervalFires _ => true
  | AdminRequest lastfmConfig ik =>
      match admin_call lastfmConfig ik with
      | Some _ => true
      | None => false
      end
  | _ => false
  end.

Definition settles_cycle (e : Event) : bool :=
  match e with
  | Settles _ => true
  | _ => false
  end.

Definition count (p : Event -> bool) (trace : list Event) : nat :=
  List.length (filter p trace).

(** The handles of a list of timers. *)
Definition handles (l : list Timer) : list nat := map handle l.

(** What holds of the timer table at every moment: handles are given
    out once, and the module variable, when set, holds the handle of a
    live interval. *)
Definition consistent (s : State) : Prop :=
  (forall h, In h (handles (timeouts s)) -> (h < nextHandle s)%nat)
  /\ (forall h, In h (handles (intervals s)) -> (h < nextHandle s)%nat)
  /\ NoDup (handles (timeouts s))
  /\ NoDup (handles (intervals s))
  /\ (forall h, syncInterval s = Some h -> In h (handles (intervals s))).

(** The state is reached from the start of the process. *)
Definition reachable (s : State) : Prop :=
  exists trace, run init trace = Some s.

End WithStore.

Arguments StopSync {S}.
Arguments TimeoutFires {S} h.
Arguments IntervalFires {S} h.
Arguments Settles {S} n.
Arguments starts_cycle {S} e.
Arguments settles_cycle {S} e.

End Scheduler.

(* ------------------------------------------------------------------ *)
(** ** Concrete payloads and environments used in examples *)

Module Examples.
Import Payload Effects Utils Client Sync Format Controllers MemDb.

Definition variant (size url : string) : ImageVariant :=
  {| img_size := Some size; img_text := Some url |}.

(** A completed play of "Song" by "Band" at the given second. *)
Definition play (uts : string) (images : list ImageVariant) : Track :=
  {| t_name := "Song";
     t_artist := ArtistObject (Some "Band") None None;
     t_album := AlbumObject (Some "Record") None;
     t_image := Some images;
     t_url := Some "https://www.last.fm/music/Band/_/Song";
     t_mbid := None;
     t_date := DateObject (Some uts);
     t_attr := None;
     t_loved := Some "0" |}.

(** Variants for "small" and "large" only. *)
Definition small_large : list ImageVariant :=
  [variant "small" "https://img/s.png"; variant "large" "https://img/l.png"].

Definition track_small_large : Track := play "1700000000" small_large.

(** The entry Last.fm puts first while a track is playing. *)
Definition playing_now : Track :=
  {| t_name := "Song";
     t_artist := ArtistObject (Some "Band") None None;
     t_album := AlbumAbsent;
     t_image := None;
     t_url := None;
     t_mbid := None;
     t_date := DateMissing;
     t_attr := Some {| nowplaying := Some "true" |};
     t_loved := None |}.

(** A completed play that carries no date. *)
Definition dateless : Track :=
  {| t_name := "Song";
     t_artist := ArtistObject (Some "Band") None None;
     t_album := AlbumAbsent;
     t_image := None;
     t_url := None;
     t_mbid := None;
     t_date := DateMissing;
     t_attr := None;
     t_loved := None |}.

Definition page_of (tracks : list Track) (pages : string) : Data :=
  {| d_error := None; d_message := None;
     recenttracks :=
       Some {| track := Some tracks;
               rt_attr := Some {| totalPages := Some pages;
                                  total := None; page := Some "1" |} |} |}.

Definition json_response (data : Data) : HttpResponse :=
  {| status := 200; statusText := "OK";
     contentType := Some "application/json; charset=utf-8";
     body_text := ""; body_json := Some data |}.

(** An HTML error page sent with status 429. *)
Definition html_429 : HttpResponse :=
  {| status := 429; statusText := "Too Many Requests";
     contentType := Some "text/html";
     body_text := "<html><body>Too Many Requests</body></html>";
     body_json := None |}.


Definition genericFromFetch (r : HttpResponse) : JsError :=
  {| err_name := IndiekitError; err_message := statusText r;
     err_status := Some (status r); err_code := None |}.

(** The clock shows one second past 1700000000 at every reading. *)
Definition env_of (up : nat -> Request -> NetOutcome) : Env :=
  {| clock := fun _ => 1700000001000;
     upstream := up;
     Date_parse := fun _ => None;
     fromFetch := genericFromFetch |}.

(** The second at which an entry was played. *)
Definition uts_of (t : Track) : Z :=
  match t_date t with
  | DateObject u => JS.or_num (JS.parseInt u) 0
  | _ => 0
  end.

(** An upstream holding a fixed history, which answers a page request
    with the entries played at or after the [from] bound. *)
Definition serve_from (history : list Track) (n : nat) (req : Request)
  : NetOutcome :=
  let from := match p_from (r_params req) with Some f => f | None => 0 end in
  NetResponse
    (json_response
       (page_of (filter (fun t => from <=? uts_of t) history) "1")).

(** The upstream holds one completed play, and nothing is ever added. *)
Definition env_one_play : Env := env_of (serve_from [play "1700000000" []]).


(** The upstream answers 429 with an HTML page. *)
Definition env_429 : Env := env_of (fun _ _ => NetResponse html_429).


Definition world0 : World MemStore :=
  {| tick := 0; requests := []; cache := []; store := MemDb.empty;
     cachedStats := None; cachedStatsTime := None |}.

Definition options0 : Options :=
  {| apiKey := Some "key"; username := Some "user"; cacheTtl := Some 900000;
     syncInterval := Some 300000; limits := None |}.

Definition params0 : Params :=
  {| p_page := Some 1; p_limit := Some 20; p_extended := Some 1;
     p_from := None; p_to := None |}.

Definition query0 : Query := {| q_page := None; q_limit := None |}.

(** A platform that prints a date as its time value. *)
Definition platform0 : Platform :=
  {| iso_of := fun t => JS.num_to_string (Some t);
     toLocaleDateString := fun d _ => JS.num_to_string d |}.

Definition client0 : LastFmClient :=
  {| c_apiKey := Some "key"; c_username := Some "user"; c_cacheTtl := 60000 |}.

Definition indiekit0 : Indiekit MemStore := {| database := Some memdb |}.

Definition summary0 : Summary :=
  {| totalPlays := 0; lovedCount := 0; uniqueTracks := 0;
     uniqueArtists := 0; uniqueAlbums := 0 |}.

Definition stats0 : Stats :=
  {| summary := {| w_all := summary0; w_month := summary0; w_week := summary0 |};
     topArtists := {| w_all := []; w_month := []; w_week := [] |};
     topAlbums := {| w_all := []; w_month := []; w_week := [] |};
     trends := [] |}.

(** A stats engine that always succeeds with the empty snapshot. *)
Definition getAllStats0 (db : Database MemStore) (l : option Limits)
    (c : option LastFmClient) (w : World MemStore)
  : Outcome Stats * World MemStore :=
  (Returned stats0, w).

(** The upstream holds one completed play and the entry of the track
    that is playing. *)
Definition env_now_playing : Env :=
  env_of (serve_from [playing_now; play "1700000000" []]).

(** The upstream delivers the same completed play twice in one page. *)
Definition env_repeated : Env :=
env_of (serve_from [play "1700000000" []; play "1700000000" []]).

(** The process once a first cycle against [env_one_play] is over,
    seen by the fresh client of the next cycle. *)
Definition world_after_first_sync : World MemStore :=
  set_cache []
    (snd (runSync env_one_play getAllStats0 10 indiekit0 options0 world0)).

End Examples.

(* ------------------------------------------------------------------ *)
(** ** Vocabulary of the statements *)

Module Spec.
Import Payload Effects Utils Client Sync Controllers MemDb.

(** The URL a size contributes: the ["#text"] of the first variant of
    that size, when it is non-empty. *)
Definition usable (image : list ImageVariant) (size : string) : option string :=
  match find_size image size with
  | Some img => if JS.truthy_str (img_text img) then img_text img else None
  | None => None
  end.

(** The URL of the first variant that has a non-empty one. *)
Definition first_usable (image : list ImageVariant) : option string :=
  match find (fun i => JS.truthy_str (img_text i)) image with
  | Some img => img_text img
  | None => None
  end.

(** The accessor the cache is meant to be: hand out the slot. *)
Definition readSlot {S} : M S (option Stats) :=
  fun w => (Ok (cachedStats w), w).

(** The process state [n] clock readings later. *)
Definition later {S} (n : nat) (w : World S) : World S :=
  {| tick := tick w + n; requests := requests w; cache := cache w;
     store := store w; cachedStats := cachedStats w;
     cachedStatsTime := cachedStatsTime w |}.

(** The process state with another write time recorded for the slot. *)
Definition written_at {S} (t : JS.num) (w : World S) : World S :=
  set_stats (cachedStats w) t w.

(** A process whose stats slot was never written. *)
Definition unpopulated {S} (w : World S) : World S :=
  set_stats None None w.

Definition minute : Z := 60000.
Definition hour : Z := 60 * minute.

(** The response announces a JSON body. *)
Definition isJson (r : HttpResponse) : bool :=
  includes
    (match contentType r with Some (String c s) => String c s | _ => "" end)
    "application/json".

(** The cache key of a call. *)
Definition request_of (this : LastFmClient) (method : string)
    (params : Params) : Request :=
  {| r_method := method; r_apiKey := c_apiKey this;
     r_user := c_username this; r_params := params |}.

(** The [retryable] flag of an error body. *)
Definition reply_retryable (r : Reply) : bool :=
  match reply_body r with
  | ErrorDetail _ b => b
  | _ => false
  end.

(** The body was sent by the upstream in answer to some request. *)
Definition from_upstream (env : Env) (data : Data) : Prop :=
  exists n req r,
    upstream env n req = NetResponse r /\ body_json r = Some data.

(** Everything in the client's cache was sent by the upstream. *)
Definition cache_ok {S} (env : Env) (w : World S) : Prop :=
  forall k data t, In (k, (data, t)) (cache w) -> from_upstream env data.

(** The entry occurs in a page sent by the upstream. *)
Definition upstream_entry (env : Env) (s : Track) : Prop :=
  exists data, from_upstream env data /\ In s (response_tracks data).

(** The entry does not carry the "now playing" marker. *)
Definition completed (s : Track) : Prop :=
  JS.truthy_str (attr_nowplaying s) = false.

(** Nothing but the clock, the network log and the client cache
    differs between the two process states. *)
Definition same_process {S} (w w' : World S) : Prop :=
  store w' = store w
  /\ cachedStats w' = cachedStats w
  /\ cachedStatsTime w' = cachedStatsTime w.

(** A request for one page of 200 recent tracks. *)
Definition page_request (q : Request) : Prop :=
  r_method q = "user.getRecentTracks"
  /\ p_limit (r_params q) = Some 200.

(** No page sent by the upstream announces more than [N] pages. *)
Definition pages_bounded (env : Env) (N : Z) : Prop :=
  forall n req r data,
    upstream env n req = NetResponse r ->
    body_json r = Some data ->
    response_totalPages data <= N.

(** No page sent by the upstream holds more than [n] entries. *)
Definition page_size_bounded (env : Env) (n : nat) : Prop :=
  forall k req r data,
    upstream env k req = NetResponse r ->
    body_json r = Some data ->
    (List.length (response_tracks data) <= n)%nat.

(** A property of the outcome and final state of a run. *)
Definition post {S A} (x : Result A * World S)
    (Q : Result A -> World S -> Prop) : Prop :=
  Q (fst x) (snd x).

(** What the pagination loops have in common: the effect of a run on
    the process and the origin of the entries it returns. *)
Definition pages_post {S} (env : Env) (fuel : nat) (acc : list Track)
    (w : World S) (r : Result (list Track)) (w' : World S) : Prop :=
  same_process w w'
  /\ (exists new,
        requests w' = (new ++ requests w)%list
        /\ (List.length new <= fuel)%nat
        /\ Forall page_request new)
  /\ (cache_ok env w ->
      cache_ok env w'
      /\ forall l, r = Ok l ->
           exists l',
             l = (acc ++ l')%list
             /\ Forall (fun s => upstream_entry env s /\ completed s) l'
             /\ forall n, page_size_bounded env n ->
                          (List.length l' <= fuel * n)%nat).

(** The date [parseDate] gives for an input that is present. *)
Definition date_value (env : Env) (d : DateInput) : JS.Date :=
  if JS.truthy_str (date_uts d) then
    JS.Date_of_num (JS.mul (JS.parseInt (date_uts d)) 1000)
  else Date_of_input env d.

(** [doc] is what [transformScrobble] makes of [s] at some moment. *)
Definition is_transform {S} (env : Env) (s : Track) (doc : Doc) : Prop :=
  exists w w' : World S, transformScrobble env s w = (Ok doc, w').

(** Only the clock has been read between the two process states. *)
Definition only_clock {S} (w w' : World S) : Prop :=
  requests w' = requests w /\ cache w' = cache w /\ same_process w w'.

(** Only the store differs between the two process states. *)
Definition only_store {S} (w w' : World S) : Prop :=
  tick w' = tick w /\ requests w' = requests w /\ cache w' = cache w
  /\ cachedStats w' = cachedStats w /\ cachedStatsTime w' = cachedStatsTime w.

(** The identifier [transformScrobble] derives from a row's key. *)
Definition id_of (artist title : string) (at_ : JS.Date) : string :=
  artist ++ ":" ++ title ++ ":" ++ JS.num_to_string (JS.getTime at_).

(** The row's [lastfmId] is the one derived from its key. *)
Definition well_keyed (d : Doc) : Prop :=
  lastfmId d = id_of (artistName d) (trackTitle d) (scrobbledAt d).

(** The filter [syncScrobbles] upserts a document with. *)
Definition filter_of (doc : Doc) : Filter :=
  {| f_trackTitle := trackTitle doc;
     f_artistName := artistName doc;
     f_scrobbledAt := scrobbledAt doc |}.

(** The five [createIndex] calls that open [syncScrobbles]. *)
Definition ensure_indexes {S} (db : Database S) : M S unit :=
  (on_store (createIndex db UniqueSparse_lastfmId) ;;;
   on_store (createIndex db Unique_trackTitle_artistName_scrobbledAt) ;;;
   on_store (createIndex db Desc_scrobbledAt) ;;;
   on_store (createIndex db Asc_artistName) ;;;
   on_store (createIndex db Asc_albumTitle))%js.

(** The fetch of [syncScrobbles], given the time value of the latest
    stored play (0 when there is none). *)
Definition fetch_phase {S} (env : Env) (fuel : nat) (client : LastFmClient)
    (t : Z) : M S (list Track) :=
  if t =? 0 then getAllRecentTracks env client (Some 10)
  else getNewScrobbles env fuel client (Some t).

(** What [syncScrobbles] does with the fetched entries. *)
Definition persist_phase {S} (env : Env) (db : Database S)
    (newScrobbles : list Track) : M S SyncResult :=
  match newScrobbles with
  | [] => ret {| synced := 0; error := None |}
  | _ =>
      (docs <- map_transform env newScrobbles ;;
       synced <- upsert_all db docs 0 ;;
       ret {| synced := synced; error := None |})%js
  end.

(** The date [syncScrobbles] takes as its watermark. *)
Definition latestDate_of (latest : option Doc) : JS.Date :=
  match latest with
  | Some d => scrobbledAt d
  | None => JS.Date_of_num (Some 0)
  end.


(** Every row of [w'] was a row of [w] or is what [transformScrobble]
    makes of a completed play sent by the upstream. *)
Definition rows_from_completed (env : Env) (w w' : World MemStore) : Prop :=
  forall doc,
    In doc (scrobbles (store w')) ->
    In doc (scrobbles (store w))
    \/ exists s, upstream_entry env s /\ completed s
                 /\ @is_transform MemStore env s doc.

(** The key [transformScrobble] gives a dated entry. *)
Definition key_of (env : Env) (s : Track) : Filter :=
  {| f_trackTitle := t_name s;
     f_artistName := getArtistName (Some s);
     f_scrobbledAt := date_value env (t_date s) |}.

(** The entry carries a date and a row with its key is stored. *)
Definition stored (env : Env) (st : MemStore) (s : Track) : Prop :=
  date_falsy (t_date s) = false
  /\ existsb (matches (key_of env s)) (scrobbles st) = true.

(** The watermark [syncScrobbles] reads from the store. *)
Definition watermark (w : World MemStore) : JS.Date :=
  latestDate_of (latest_of (scrobbles (store w)) None).

(** The process state in which [syncScrobbles] starts fetching. *)
Definition at_fetch (w : World MemStore) : World MemStore :=
  let w1 := snd (ensure_indexes memdb w) in
  set_store (store w1) w1.

(** The upstream answers every request with a JSON success body
    that reports no API error. *)
Definition healthy (env : Env) : Prop :=
  forall n req,
    exists r data,
      upstream env n req = NetResponse r
      /\ ok r = true
      /\ isJson r = true
      /\ body_json r = Some data
      /\ JS.truthy_num (d_error data) = false.






(** The classification the specification asks for: rate limiting and
    upstream 5xx are transient. *)
Definition transient_status (status : Z) : bool :=
  (status =? 429) || ((500 <=? status) && (status <=? 599)).

End Spec.

(* ------------------------------------------------------------------ *)
(** ** lib/lastfm-client.js: the single-entry queries *)

Module Queries.
Import Payload Effects Utils Client.
Local Open Scope js_scope.

(** [response.recenttracks?.track?.[0]]. *)
Definition first_track (response : Data) : option Track :=
  match recenttracks response with
  | Some rt =>
      match track rt with
      | Some (t :: _) => Some t
      | _ => None
      end
  | None => None
  end.

Section WithStore.
Variable S : Type.
Variable env : Env.

Definition getLatestScrobble (this : LastFmClient) : M S (option Track) :=
  response <- getRecentTracks env this (Some 1) (Some 1) None None ;;
  ret (first_track response).

Definition getNowPlaying (this : LastFmClient) : M S (option Track) :=
  response <- getRecentTracks env this (Some 1) (Some 1) None None ;;
  match first_track response with
  | Some track =>
      if JS.strict_eq (attr_nowplaying track) "true" then ret (Some track)
      else ret None
  | None => ret None
  end.

Definition clearCache (this : LastFmClient) : M S unit :=
  modify (set_cache []).

End WithStore.

End Queries.

(* ------------------------------------------------------------------ *)
(** ** lib/controllers/now-playing.js and the trends route of
       lib/controllers/stats.js *)

Module Handlers.
Import Payload Effects Utils Client Sync Controllers Format Queries.
Local Open Scope js_scope.

(** What a handler sends: an error reply as the other handlers build
    it, or [response.json(a)]. *)
Inductive Answer (A : Type) :=
| Failure (r : Reply)
| Success (a : A).
Arguments Failure {A} r.
Arguments Success {A} a.

Record NowPlaying := {
  np_playing : bool;
  np_status : option string;
  np_track : string;
  np_artist : string;
  np_album : option string;
  np_coverUrl : option string;
  np_trackUrl : option string;
  np_loved : bool;
  np_scrobbledAt : string;
  np_relativeTime : string
}.

Inductive NowPlayingBody :=
| NoRecentPlays   (* [{ playing: false, status: null, message: "No recent plays" }] *)
| Latest (p : NowPlaying).


(** [Math.min(a, b)] for a first argument that may be [undefined]. *)
Definition min_num (a : JS.num) (b : Z) : JS.num :=
  match a with
  | Some x => Some (Z.min x b)
  | None => None
  end.

Section WithStore.
Variable S : Type.
Variable env : Env.
Variable platform : Platform.

(** lib/stats.js [getScrobbleTrends(db, days)]: it returns the daily
    counts or throws. *)
Variable getScrobbleTrends :
  Database S -> Z -> World S -> Outcome (list (string * Z)) * World S.

(** [nowPlayingController.api]. *)
Definition nowPlaying_api (lastfmConfig : option Options)
    (db : option (Database S)) : M S (Answer NowPlayingBody) :=
  try_catch
    match lastfmConfig with
    | None => ret (Failure (status_json 500 (ErrorBody "Not configured")))
    | Some config =>
        '(apiKey, username) <- getEffectiveConfig db lastfmConfig ;;
        client <-
          new_LastFmClient apiKey username (min_num (cacheTtl config) 60000) ;;
        track <- getLatestScrobble env client ;;
        match track with
        | None => ret (Success NoRecentPlays)
        | Some track =>
            formatted <- formatScrobble env platform track ;;
            ret (Success
                   (Latest
                      {| np_playing :=
                           JS.strict_eq (fs_status formatted) "now-playing";
                         np_status := fs_status formatted;
                         np_track := fs_track formatted;
                         np_artist := fs_artist formatted;
                         np_album := fs_album formatted;
                         np_coverUrl := fs_coverUrl formatted;
                         np_trackUrl := fs_trackUrl formatted;
                         np_loved := fs_loved formatted;
                         np_scrobbledAt := fs_scrobbledAt formatted;
                         np_relativeTime := fs_relativeTime formatted |}))
        end
    end
    (fun error => ret (Failure (error_reply error))).


End WithStore.

End Handlers.

(* ------------------------------------------------------------------ *)
(** ** lib/stats.js: the summary of a time window

    The aggregation pipeline of [getSummary] is read over the rows of
    the reference store: a [$match] stage on [scrobbledAt], then the
    [$group] and [$project] stages that count. *)

Module StatsEngine.
Import Payload Effects Sync MemDb.
Local Open Scope js_scope.

(** The filter [getDateMatch] builds: [{}], or
    [{ scrobbledAt: { $gte: bound } }]. *)
Definition DateMatch := option JS.Date.

(** The [$match] stage.  Dates are compared by their time values; an
    invalid date on either side satisfies no [$gte]. *)
Definition passes (m : DateMatch) (d : Doc) : bool :=
  match m with
  | None => true
  | Some bound =>
      match scrobbledAt d, bound with
      | Some t, Some b => b <=? t
      | _, _ => false
      end
  end.

(** [$addToSet]: the distinct values. *)
Definition addToSet (l : list string) : list string := nodup string_dec l.

(** [$size], and [$sum: 1] over the rows of a group. *)
Definition size {A} (l : list A) : Z := Z.of_nat (List.length l).

(** The non-null album titles of the rows. *)
Definition albums (rows : list Doc) : list string :=
  flat_map (fun d => match albumTitle d with Some a => [a] | None => [] end)
    rows.

(** The [$group] stage with [_id: null] followed by [$project]: one
    result for a non-empty input, none for an empty one. *)
Definition group_project (rows : list Doc) : list Summary :=
  match rows with
  | [] => []
  | _ =>
      [{| totalPlays := size rows;
          lovedCount := size (filter loved rows);
          uniqueTracks :=
            size (addToSet
                    (map (fun d => artistName d ++ ":" ++ trackTitle d) rows));
          uniqueArtists := size (addToSet (map artistName rows));
          uniqueAlbums := size (addToSet (albums rows)) |}]
  end.

Section WithEnv.
Variable env : Env.

Definition getDateMatch {S} (period : string) : M S DateMatch :=
  now <- Date_new env ;;
  if String.eqb period "week" then
    ret (Some (JS.Date_of_num
                 (JS.sub (JS.getTime now) (Some (7 * 24 * 60 * 60 * 1000)))))
  else if String.eqb period "month" then
    ret (Some (JS.Date_of_num
                 (JS.sub (JS.getTime now) (Some (30 * 24 * 60 * 60 * 1000)))))
  else ret None.

(** [period] is [None] when the argument is omitted. *)
Definition getSummary (period : option string) : M MemStore Summary :=
  let period := match period with Some p => p | None => "all" end in
  match_ <- getDateMatch period ;;
  w <- get ;;
  let result := group_project (filter (passes match_) (scrobbles (store w))) in
  match result with
  | r :: _ => ret r
  | [] =>
      ret {| totalPlays := 0; lovedCount := 0; uniqueTracks := 0;
             uniqueArtists := 0; uniqueAlbums := 0 |}
  end.

End WithEnv.

End StatsEngine.

(* ------------------------------------------------------------------ *)
(** ** Further concrete values used in examples *)

Module Samples.
Import Payload Effects Utils Client Sync Controllers MemDb Format Handlers.

(** Plugin options without credentials. *)
Definition options_unset : Options :=
  {| apiKey := None; username := None; cacheTtl := Some 900000;
     syncInterval := Some 300000; limits := None |}.

(** A JSON body in which the upstream reports an API error. *)
Definition api_error (code : Z) (message : string) : Data :=
  {| d_error := Some code; d_message := Some message; recenttracks := None |}.

(** The upstream reports error 29, its rate-limit code, in a 200 body. *)
Definition env_error_29 : Env :=
  Examples.env_of
    (fun _ _ =>
       NetResponse (Examples.json_response (api_error 29 "Rate Limit Exceeded"))).


End Samples.

(* ------------------------------------------------------------------ *)
(** ** Further vocabulary of the statements *)

Module Notions.
Import Payload Effects Utils Client Sync Controllers MemDb Format.

(** The variant carries this non-empty URL. *)
Definition offers (img : ImageVariant) (u : string) : Prop :=
  img_text img = Some u /\ u <> "".

(** The three period names of the stats windows. *)
Definition internal_periods : list string := ["week"; "month"; "all"].

(** The request [getLatestScrobble] makes with the given credentials. *)
Definition latest_request (apiKey username : option string) : Request :=
  {| r_method := "user.getRecentTracks";
     r_apiKey := apiKey;
     r_user := username;
     r_params :=
       {| p_page := Some 1; p_limit := Some 1; p_extended := Some 1;
          p_from := None; p_to := None |} |}.

(** The clock never leaves the range of valid dates. *)
Definition clock_in_range (env : Env) : Prop :=
  forall n, Z.abs (clock env n) <= 8640000000000000.

(** No two rows of the store collide on either unique index. *)
Definition rows_unique (s : MemStore) : Prop :=
  has_dup same_id (scrobbles s) = false
  /\ has_dup same_key (scrobbles s) = false.

(** Both unique indexes of the [scrobbles] collection exist. *)
Definition unique_indexes (s : MemStore) : Prop :=
  has_index s UniqueSparse_lastfmId = true
  /\ has_index s Unique_trackTitle_artistName_scrobbledAt = true.

(** Every play stored in [s] is still stored in [s'], and [s'] has at
    least as many rows. *)
Definition keeps_rows (s s' : MemStore) : Prop :=
  (forall f, existsb (matches f) (scrobbles s) = true ->
             existsb (matches f) (scrobbles s') = true)
  /\ (List.length (scrobbles s) <= List.length (scrobbles s'))%nat.

(** A property of the store that every upsert of the sync engine
    preserves. *)
Definition upsert_stable (I : MemStore -> Prop) : Prop :=
  forall doc s,
    I s ->
    I (snd (mem_updateOne
              {| f_trackTitle := trackTitle doc;
                 f_artistName := artistName doc;
                 f_scrobbledAt := scrobbledAt doc |} doc s)).

(** The page number a request asks for (0 when it names none). *)
Definition page_no (q : Request) : Z :=
  match p_page (r_params q) with
  | Some p => p
  | None => 0
  end.

(** The request the pagination loops make for one page: 200 entries,
    extended format, bounded below by [from] when that is a non-zero
    number. *)
Definition page_req (this : LastFmClient) (from : JS.num) (page : Z)
  : Request :=
  {| r_method := "user.getRecentTracks";
     r_apiKey := c_apiKey this;
     r_user := c_username this;
     r_params :=
       {| p_page := Some page; p_limit := Some 200; p_extended := Some 1;
          p_from := truthy_param from; p_to := None |} |}.

(** The [n] consecutive page numbers from [page] on. *)
Fixpoint pages_from (page : Z) (n : nat) : list Z :=
  match n with
  | O => []
  | Datatypes.S n' => page :: pages_from (page + 1) n'
  end.




(** Every cached answer is for a page before [page]. *)
Definition cached_below {S} (page : Z) (w : World S) : Prop :=
  forall k v, In (k, v) (cache w) -> page_no k < page.

End Notions.

(* ================================================================== *)
(** * Properties *)

Unset Implicit Arguments.
Import Payload Effects Spec.

(** ** Cover-URL selection (lib/utils.js) *)

Section CoverUrl.
Import Utils.

Lemma try_sizes_first image sizes :
  forall i size u,
    nth_error sizes i = Some size ->
    usable image size = Some u ->
    (forall j size', (j < i)%nat -> nth_error sizes j = Some size' ->
                     usable image size' = None) ->
    try_sizes image sizes = Some u.
Proof.
  induction sizes as [|s0 sizes IH]; intros i size u Hi Hu Hbefore.
  - destruct i; discriminate.
  - destruct i as [|i]; simpl in Hi.
    + injection Hi as ->. simpl. unfold usable in Hu.
      destruct (find_size image size) as [img|]; [|discriminate].
      destruct (JS.truthy_str (img_text img)); [assumption|discriminate].
    + assert (H0 : usable image s0 = None)
        by (apply (Hbefore 0%nat); [lia | reflexivity]).
      simpl. unfold usable in H0.
      assert (Hrest : try_sizes image sizes = Some u).
      { apply (IH i size u Hi Hu). intros j size' Hj Hnth.
        apply (Hbefore (S j)); [lia | exact Hnth]. }
      destruct (find_size image s0) as [img|]; [|exact Hrest].
      destruct (JS.truthy_str (img_text img)) eqn:E; [|exact Hrest].
      destruct (img_text img); discriminate.
Qed.

Lemma try_sizes_none image sizes :
  (forall size, In size sizes -> usable image size = None) ->
  try_sizes image sizes = None.
Proof.
  induction sizes as [|s0 sizes IH]; intros H; [reflexivity|].
  simpl. assert (H0 := H s0 (or_introl eq_refl)). unfold usable in H0.
  assert (Hrest : try_sizes image sizes = None)
    by (apply IH; intros; apply H; right; assumption).
  destruct (find_size image s0) as [img|]; [|exact Hrest].
  destruct (JS.truthy_str (img_text img)) eqn:E; [|exact Hrest].
  destruct (img_text img); [discriminate | discriminate].
Qed.

Lemma orderedSizes_rotation k p :
  nth_error sizePriority k = Some p ->
  forall i, (i < 4)%nat ->
    nth_error (orderedSizes p) i = nth_error sizePriority ((k + i) mod 4).
Proof.
  intros Hk i Hi.
  do 4 (destruct k as [|k]; [injection Hk as <-;
    do 4 (destruct i as [|i]; [reflexivity|]); lia |]).
  destruct k; discriminate.
Qed.

Lemma orderedSizes_sound k p :
  nth_error sizePriority k = Some p ->
  forall size, In size (orderedSizes p) -> In size sizePriority.
Proof.
  intros Hk size Hin.
  do 4 (destruct k as [|k]; [injection Hk as <-; vm_compute;
    vm_compute in Hin; tauto |]).
  destruct k; discriminate.
Qed.

(** C8.  For a track that has an image array and a preferred size taken
    from the priority order (extralarge, large, medium, small), the
    sizes are tried from the preferred one onwards, wrapping round the
    order; the result is the URL of the first tried size whose (first
    listed) variant has a non-empty URL; when no size of the order
    yields one, the
    result is the URL of the first variant with a non-empty URL, and
    null when there is none.  With variants for "small" and "large"
    only and preference "extralarge" the result is the "large" URL. *)
Theorem getCoverUrl_size_fallback :
  forall (t : Track) (image : list ImageVariant) (p : string) (k : nat),
    t_image t = Some image ->
    nth_error sizePriority k = Some p ->
    (forall i, (i < 4)%nat ->
       nth_error (orderedSizes p) i = nth_error sizePriority ((k + i) mod 4))
    /\ (forall i size u,
          nth_error (orderedSizes p) i = Some size ->
          usable image size = Some u ->
          (forall j size', (j < i)%nat ->
             nth_error (orderedSizes p) j = Some size' ->
             usable image size' = None) ->
          getCoverUrl (Some t) (Some p) = Some u)
    /\ ((forall size, In size sizePriority -> usable image size = None) ->
        getCoverUrl (Some t) (Some p) = first_usable image)
    /\ ((forall img, In img image -> JS.truthy_str (img_text img) = false) ->
        getCoverUrl (Some t) (Some p) = None)
    /\ getCoverUrl (Some Examples.track_small_large) (Some "extralarge")
       = Some "https://img/l.png".
Proof.
  intros t image p k Himg Hk.
  assert (Hnone : (forall size, In size sizePriority -> usable image size = None) ->
                  getCoverUrl (Some t) (Some p) = first_usable image).
  { intros Hall. unfold getCoverUrl. rewrite Himg.
    rewrite try_sizes_none.
    - unfold first_usable.
      destruct (find (fun i => JS.truthy_str (img_text i)) image) as [a|] eqn:F;
        [|reflexivity].
      apply find_some in F. destruct F as [_ F].
      unfold JS.or_null. rewrite F. reflexivity.
    - intros size Hin. apply Hall.
      exact (orderedSizes_sound k p Hk size Hin). }
  split; [exact (orderedSizes_rotation k p Hk)|].
  split.
  { intros i size u Hi Hu Hbefore. unfold getCoverUrl. rewrite Himg.
    rewrite (try_sizes_first image (orderedSizes p) i size u Hi Hu Hbefore).
    reflexivity. }
  split; [exact Hnone|].
  split; [|reflexivity].
  intros Hall.
  assert (Hf : find (fun i => JS.truthy_str (img_text i)) image = None).
  { destruct (find (fun i => JS.truthy_str (img_text i)) image) as [a|] eqn:F;
      [|reflexivity].
    apply find_some in F. destruct F as [Hin F].
    rewrite (Hall a Hin) in F. discriminate. }
  rewrite Hnone.
  - unfold first_usable. rewrite Hf. reflexivity.
  - intros size _. unfold usable, find_size.
    destruct (find (fun i => JS.strict_eq (img_size i) size) image) as [a|] eqn:F;
      [|reflexivity].
    apply find_some in F. destruct F as [Hin _].
    rewrite (Hall a Hin). reflexivity.
Qed.

Lemma getCoverUrl_size_fallback_witness :
  getCoverUrl (Some Examples.track_small_large) (Some "extralarge")
  = Some "https://img/l.png".
Proof.
  destruct (getCoverUrl_size_fallback Examples.track_small_large
              Examples.small_large "extralarge" 0%nat eq_refl eq_refl)
    as (_ & Hfirst & _).
  apply (Hfirst 1%nat "large" "https://img/l.png"); [reflexivity | reflexivity |].
  intros j size' Hj Hnth.
  destruct j as [|j]; [|lia].
  injection Hnth as <-. reflexivity.
Defined.

End CoverUrl.

(** ** Playing status (lib/utils.js) *)

Section PlayingStatus.
Import Utils.

Lemma lt_num_minutes (ms b : Z) :
  lt_num (Some (inject_Z ms / inject_Z 60000)%Q) (inject_Z b)
  = (ms <? b * 60000).
Proof.
  unfold lt_num.
  destruct (Qlt_le_dec (inject_Z ms / inject_Z 60000) (inject_Z b)) as [H|H];
    unfold Qlt, Qle in H; simpl in H; symmetry;
    [apply Z.ltb_lt | apply Z.ltb_ge]; lia.
Qed.

Lemma getPlayingStatus_by_age (S : Type) (env : Env) (w w1 : World S)
    (track : Track) (played : Z) :
  JS.strict_eq (attr_nowplaying track) "true" = false ->
  parseDate env (t_date track) w = (Ok (Some played), w1) ->
  Z.abs (clock env (tick w1)) <= 8640000000000000 ->
  fst (getPlayingStatus env track w)
  = Ok (if clock env (tick w1) - played <? 60 * 60000 then Some "now-playing"
        else if clock env (tick w1) - played <? 24 * 60 * 60000
             then Some "recently-played"
             else None).
Proof.
  intros Hattr Hparse Hclock.
  unfold getPlayingStatus. rewrite Hattr.
  unfold bind at 1. rewrite Hparse.
  unfold Date_new, Date_now, bind, ret. cbn [JS.Date_of_num JS.TimeClip].
  apply Z.leb_le in Hclock. rewrite Hclock.
  cbn [JS.getTime JS.sub option_map].
  rewrite !lt_num_minutes.
  destruct (clock env (tick w1) - played <? 60 * 60000); [reflexivity|].
  destruct (clock env (tick w1) - played <? 24 * 60 * 60000); reflexivity.
Qed.

(** C7.  A track whose upstream marker says "now playing" is classified
    "now-playing".  Otherwise the time of the play, as [parseDate]
    gives it, is compared with the clock: less than 60 minutes old is
    "now-playing" (so 59 minutes), from 60 minutes to less than 24
    hours is "recently-played" (so 61 minutes), 24 hours or more (so
    25 hours) is no status. *)
Theorem getPlayingStatus_classifies :
  forall (S : Type) (env : Env) (w : World S) (track : Track),
    (attr_nowplaying track = Some "true" ->
     fst (getPlayingStatus env track w) = Ok (Some "now-playing"))
    /\ (forall (played : Z) (w1 : World S) (now : Z),
          JS.strict_eq (attr_nowplaying track) "true" = false ->
          parseDate env (t_date track) w = (Ok (Some played), w1) ->
          clock env (tick w1) = now ->
          Z.abs now <= 8640000000000000 ->
          (now - played < 60 * minute ->
           fst (getPlayingStatus env track w) = Ok (Some "now-playing"))
          /\ (60 * minute <= now - played < 24 * hour ->
              fst (getPlayingStatus env track w) = Ok (Some "recently-played"))
          /\ (24 * hour <= now - played ->
              fst (getPlayingStatus env track w) = Ok None)
          /\ (now - played = 59 * minute ->
              fst (getPlayingStatus env track w) = Ok (Some "now-playing"))
          /\ (now - played = 61 * minute ->
              fst (getPlayingStatus env track w) = Ok (Some "recently-played"))
          /\ (now - played = 25 * hour ->
              fst (getPlayingStatus env track w) = Ok None)).
Proof.
  intros S env w track. split.
  - intros Hattr. unfold getPlayingStatus. rewrite Hattr. reflexivity.
  - intros played w1 now Hattr Hparse Hnow Hrange. subst now.
    rewrite (getPlayingStatus_by_age S env w w1 track played Hattr Hparse Hrange).
    unfold hour, minute.
    repeat split; intros H;
      destruct (clock env (tick w1) - played <? 60 * 60000) eqn:E1;
      destruct (clock env (tick w1) - played <? 24 * 60 * 60000) eqn:E2;
      try reflexivity;
      try (apply Z.ltb_lt in E1); try (apply Z.ltb_ge in E1);
      try (apply Z.ltb_lt in E2); try (apply Z.ltb_ge in E2); lia.
Qed.

Lemma getPlayingStatus_classifies_witness :
fst (getPlayingStatus Examples.env_one_play Examples.playing_now Examples.world0)
= Ok (Some "now-playing")
/\ fst (getPlayingStatus Examples.env_one_play (Examples.play "1699996461" [])
          Examples.world0)
   = Ok (Some "now-playing")
/\ fst (getPlayingStatus Examples.env_one_play (Examples.play "1699996341" [])
          Examples.world0)
   = Ok (Some "recently-played")
/\ fst (getPlayingStatus Examples.env_one_play (Examples.play "1699910001" [])
          Examples.world0)
   = Ok None.
Proof.
split.
{ exact (proj1 (getPlayingStatus_classifies _ Examples.env_one_play
                  Examples.world0 Examples.playing_now) eq_refl). }
split.
{ destruct (getPlayingStatus_classifies _ Examples.env_one_play Examples.world0
              (Examples.play "1699996461" [])) as [_ H].
  destruct (H 1699996461000 Examples.world0 1700000001000
              eq_refl eq_refl eq_refl) as (_ & _ & _ & H59 & _).
  - vm_compute. discriminate.
  - apply H59. reflexivity. }
split.
{ destruct (getPlayingStatus_classifies _ Examples.env_one_play Examples.world0
              (Examples.play "1699996341" [])) as [_ H].
  destruct (H 1699996341000 Examples.world0 1700000001000
              eq_refl eq_refl eq_refl) as (_ & _ & _ & _ & H61 & _).
  - vm_compute. discriminate.
  - apply H61. reflexivity. }
destruct (getPlayingStatus_classifies _ Examples.env_one_play Examples.world0
            (Examples.play "1699910001" [])) as [_ H].
destruct (H 1699910001000 Examples.world0 1700000001000
            eq_refl eq_refl eq_refl) as (_ & _ & _ & _ & _ & H25).
- vm_compute. discriminate.
- apply H25. reflexivity.
Defined.

End PlayingStatus.

(** ** The stats cache (lib/sync.js, lib/controllers/stats.js) *)

Section StatsCache.
Import Client Sync Controllers.

Lemma getCachedStats_ttl_value (S : Type) (env : Env) (ttl : Z) (w : World S) :
  fst (getCachedStats_ttl env ttl w) = Ok (cachedStats w).
Proof.
  unfold getCachedStats_ttl, bind, get, cache_expired.
  destruct (cachedStats w) as [stats|]; [|reflexivity].
  destruct (cachedStatsTime w) as [t|]; [|reflexivity].
  destruct (negb (t =? 0)); [|reflexivity].
  unfold bind, Date_now, ret.
  destruct (clock env (tick w) - t >? ttl); reflexivity.
Qed.

Lemma getCachedStats_ttl_slot (S : Type) (env : Env) (ttl : Z) (w : World S) :
  cachedStats (snd (getCachedStats_ttl env ttl w)) = cachedStats w
  /\ cachedStatsTime (snd (getCachedStats_ttl env ttl w)) = cachedStatsTime w
  /\ store (snd (getCachedStats_ttl env ttl w)) = store w.
Proof.
  unfold getCachedStats_ttl, bind, get, cache_expired.
  destruct (cachedStats w) as [stats|] eqn:E; [|simpl; auto].
  destruct (cachedStatsTime w) as [t|] eqn:E'; [|simpl; auto].
  destruct (negb (t =? 0)); [|simpl; auto].
  unfold bind, Date_now, ret.
  destruct (clock env (tick w) - t >? ttl); simpl; auto.
Qed.

(** C9.  The read accessor of the stats cache returns what a plain read
    of the slot returns.  The recorded write time, the clock and the
    freshness window have no effect on the value: the accessor gives
    the same answer for any of them, and a read leaves the slot as it
    was, so no read observes an eviction. *)
Theorem getCachedStats_refines_readSlot :
  forall (S : Type) (env : Env) (w : World S),
    fst (getCachedStats env w) = fst (readSlot w)
    /\ (forall (env' : Env) (ttl : Z) (t : JS.num) (n : nat),
          fst (getCachedStats_ttl env' ttl (written_at t (later n w)))
          = fst (getCachedStats env w))
    /\ cachedStats (snd (getCachedStats env w)) = cachedStats w.
Proof.
  intros S env w. unfold getCachedStats.
  rewrite getCachedStats_ttl_value. split; [reflexivity|]. split.
  - intros env' ttl t n. rewrite getCachedStats_ttl_value. reflexivity.
  - apply getCachedStats_ttl_slot.
Qed.

Lemma stats_api_public (S : Type) (env : Env) getAllStats (config : Options)
    (w : World S) :
  fst (stats_api env getAllStats (Some config) None w)
  = Ok match cachedStats w with
       | Some stats => json (StatsBody stats)
       | None =>
           status_json 503
             (NotReadyBody "Stats not available yet"
                "Stats are computed during background sync. Please try again shortly.")
       end.
Proof.
  unfold stats_api, try_catch, bind.
  assert (Hv := getCachedStats_ttl_value S env STATS_CACHE_TTL w).
  unfold getCachedStats.
  destruct (getCachedStats_ttl env STATS_CACHE_TTL w) as [r w'].
  simpl in Hv. subst r.
  destruct (cachedStats w); reflexivity.
Qed.

(** C4.  Once a snapshot has been written to the stats cache, the
    accessor returns that snapshot, unchanged, however many clock
    readings later and whatever the clock shows, and the public stats
    route answers 200 with it.  While the slot has never been written,
    the accessor returns null and the public stats route answers 503
    "Stats not available yet", which is not the 500 of a failure. *)
Theorem stats_cache_read_path :
  forall (S : Type) (env env' : Env)
         (getAllStats : Sync.Database S -> option Limits ->
                        option LastFmClient -> World S ->
                        Outcome Stats * World S)
         (config : Options) (stats : Stats) (w : World S) (n : nat),
    let populated := later n (snd (setCachedStats env stats w)) in
    fst (getCachedStats env' populated) = Ok (Some stats)
    /\ fst (stats_api env' getAllStats (Some config) None populated)
       = Ok (json (StatsBody stats))
    /\ fst (getCachedStats env' (unpopulated w)) = Ok None
    /\ fst (stats_api env' getAllStats (Some config) None (unpopulated w))
       = Ok (status_json 503
               (NotReadyBody "Stats not available yet"
                  "Stats are computed during background sync. Please try again shortly."))
    /\ reply_status
         (status_json 503
            (NotReadyBody "Stats not available yet"
               "Stats are computed during background sync. Please try again shortly."))
       <> 500.
Proof.
  intros S env env' getAllStats config stats w n populated.
  assert (Hp : cachedStats populated = Some stats) by reflexivity.
  unfold getCachedStats. rewrite !getCachedStats_ttl_value, !stats_api_public.
  rewrite Hp. simpl. repeat split; try reflexivity. discriminate.
Qed.

End StatsCache.

(** ** Reasoning about the effects *)

Section MonadFacts.
Context {S : Type}.

Lemma bind_Ok {A B} (m : M S A) (f : A -> M S B) w a w1 :
  m w = (Ok a, w1) -> bind m f w = f a w1.
Proof. intros H. unfold bind. rewrite H. reflexivity. Qed.

(** What a sequence did, read off its outcome. *)
Lemma bind_inv {A B} (m : M S A) (f : A -> M S B) w r w' :
  bind m f w = (r, w') ->
  (exists a w1, m w = (Ok a, w1) /\ f a w1 = (r, w'))
  \/ (exists e, m w = (Throw e, w') /\ r = Throw e)
  \/ (m w = (OutOfFuel, w') /\ r = OutOfFuel).
Proof.
  unfold bind. destruct (m w) as [[a|e|] w1]; intros H.
  - left. eauto.
  - right. left. injection H as <- <-. eauto.
  - right. right. injection H as <- <-. auto.
Qed.


End MonadFacts.

(** ** Error pages from the upstream (lib/lastfm-client.js) *)

Section ErrorPages.
Import Client Controllers.

Lemma fetch_error_page (S : Type) (env : Env) (this : LastFmClient)
    (method : string) (params : Params) (w : World S) (r : HttpResponse) :
  cache_get (cache w) (request_of this method params) = None ->
  upstream env (List.length (requests w)) (request_of this method params)
  = NetResponse r ->
  ok r = false ->
  isJson r = false ->
  fst (fetch env this method params w) = Throw (nonJsonError r).
Proof.
  intros Hmiss Hup Hok Hjson.
  unfold fetch. fold (request_of this method params).
  unfold bind at 1. unfold get at 1.
  rewrite Hmiss. unfold bind at 1. cbn [cache_fresh ret].
  unfold net_fetch. unfold bind, get, modify. cbn [requests].
  rewrite Hup. cbn [ret]. rewrite Hok. cbn [negb].
  unfold isJson in Hjson. rewrite Hjson. reflexivity.
Qed.

(** C5.  The code at an HTML page sent with status 429: [fetch] throws
    the typed error with status 429, which carries no retry
    classification; the scrobbles route answers 429 with
    [retryable: false] and no [Retry-After] header, although rate
    limiting is a transient condition. *)
Lemma rate_limit_not_classified_transient :
  fst (fetch Examples.env_429 Examples.client0 "user.getRecentTracks"
         Examples.params0 Examples.world0)
  = Throw (nonJsonError Examples.html_429)
  /\ transient_status (status Examples.html_429) = true
  /\ reply_retryable (error_reply (nonJsonError Examples.html_429)) = false
  /\ fst (scrobbles_api Examples.env_429 Examples.platform0
            (Some Examples.options0) (Some MemDb.memdb) Examples.query0
            Examples.world0)
     = Ok {| reply_status := 429;
             reply_retryAfter := None;
             reply_body :=
               ErrorDetail "Last.fm API returned 429: Too Many Requests" false |}.
Proof. repeat split; reflexivity. Qed.

(** What the code does with every such error page.  When the upstream
    answers a call with a non-success status and a body that is not
    announced as JSON, [fetch] throws one IndiekitError whose status is
    the HTTP status: no value is returned and no JSON parsing is
    attempted.  The error carries no retry classification of its own;
    the API handlers answer with the error's status (500 when it is 0),
    flag it retryable exactly for 502 and 503, and add [Retry-After]
    exactly for 503. *)
Theorem fetch_non_json_error_is_typed :
  forall (S : Type) (env : Env) (this : LastFmClient) (method : string)
         (params : Params) (w : World S) (r : HttpResponse),
    cache_get (cache w) (request_of this method params) = None ->
    upstream env (List.length (requests w)) (request_of this method params)
    = NetResponse r ->
    ok r = false ->
    isJson r = false ->
    exists e,
      fst (fetch env this method params w) = Throw e
      /\ err_name e = IndiekitError
      /\ err_status e = Some (status r)
      /\ reply_status (error_reply e) = (if status r =? 0 then 500 else status r)
      /\ (reply_retryable (error_reply e) = true
          <-> status r = 503 \/ status r = 502)
      /\ (reply_retryAfter (error_reply e) = Some "60" <-> status r = 503).
Proof.
  intros S env this method params w r Hmiss Hup Hok Hjson.
  exists (nonJsonError r).
  split; [exact (fetch_error_page S env this method params w r Hmiss Hup Hok Hjson)|].
  split; [reflexivity|]. split; [reflexivity|].
  unfold error_reply, reply_retryable. cbn.
  destruct (status r =? 0) eqn:E0.
  - apply Z.eqb_eq in E0. rewrite E0. cbn.
    repeat split; intros H; try discriminate; lia.
  - apply Z.eqb_neq in E0. split; [reflexivity|]. split.
    + rewrite orb_true_iff, !Z.eqb_eq. tauto.
    + destruct (status r =? 503) eqn:E; [apply Z.eqb_eq in E|apply Z.eqb_neq in E];
        split; intros H; try discriminate; auto; contradiction.
Qed.

Lemma fetch_non_json_error_is_typed_witness :
  exists e,
    fst (fetch Examples.env_429 Examples.client0 "user.getRecentTracks"
           Examples.params0 Examples.world0) = Throw e
    /\ err_status e = Some 429.
Proof.
  destruct (fetch_non_json_error_is_typed _ Examples.env_429 Examples.client0
              "user.getRecentTracks" Examples.params0 Examples.world0
              Examples.html_429 eq_refl eq_refl eq_refl eq_refl)
    as (e & Hthrow & _ & Hstatus & _).
  exists e. split; [exact Hthrow | exact Hstatus].
Defined.

End ErrorPages.

(** ** Overlapping cycles (lib/sync.js, lib/controllers/dashboard.js) *)

Section TimerTable.
Import Sync Controllers Scheduler.
Context {S : Type}.

Lemma run_app (t1 t2 : list (Event S)) :
  forall s0 s1, run s0 t1 = Some s1 -> run s0 (t1 ++ t2)%list = run s1 t2.
Proof.
  induction t1 as [|e t1 IH]; intros s0 s1 H; simpl in *.
  - injection H as <-. reflexivity.
  - destruct (step s0 e); [|discriminate]. apply IH. exact H.
Qed.

Lemma find_timer_In (l : list (Timer S)) (h : nat) (t : Timer S) :
  find_timer h l = Some t -> In t l /\ handle t = h.
Proof.
  unfold find_timer. intros H. apply find_some in H.
  destruct H as [Hin Hh]. apply Nat.eqb_eq in Hh. auto.
Qed.

(** A registered timer is found under its handle. *)
Lemma find_timer_unique (l : list (Timer S)) (t : Timer S) :
  NoDup (handles l) -> In t l -> find_timer (handle t) l = Some t.
Proof.
  unfold find_timer, handles.
  induction l as [|x l IH]; intros Hnd Hin; [destruct Hin|].
  cbn [map] in Hnd. inversion Hnd as [|? ? Hx Hl]; subst.
  cbn [find]. destruct Hin as [->|Hin].
  - rewrite Nat.eqb_refl. reflexivity.
  - destruct (Nat.eqb_spec (handle x) (handle t)) as [E|_].
    + exfalso. apply Hx. rewrite E. apply in_map. exact Hin.
    + apply IH; assumption.
Qed.

Lemma drop_handle_In (h : nat) (l : list (Timer S)) (t : Timer S) :
  In t (drop_handle h l) <-> In t l /\ handle t <> h.
Proof.
  unfold drop_handle. rewrite filter_In, negb_true_iff, Nat.eqb_neq. tauto.
Qed.

Lemma handles_drop (h h' : nat) (l : list (Timer S)) :
  In h' (handles (drop_handle h l)) -> In h' (handles l) /\ h' <> h.
Proof.
  unfold handles. rewrite !in_map_iff. intros (t & <- & Hin).
  apply drop_handle_In in Hin. destruct Hin as [Hin Hne].
  split; [exists t; auto | exact Hne].
Qed.

Lemma NoDup_handles_drop (h : nat) (l : list (Timer S)) :
  NoDup (handles l) -> NoDup (handles (drop_handle h l)).
Proof.
  unfold handles, drop_handle.
  induction l as [|x l IH]; intros Hnd; [constructor|].
  cbn [map] in Hnd. inversion Hnd as [|? ? Hx Hl]; subst.
  cbn [filter]. destruct (negb (handle x =? h)%nat).
  - cbn [map]. constructor; [|apply IH; exact Hl].
    intros Hin. apply Hx. apply in_map_iff in Hin.
    destruct Hin as (t & Ht & Hin). apply filter_In in Hin.
    rewrite <- Ht. apply in_map. apply Hin.
  - apply IH. exact Hl.
Qed.

Lemma consistent_init : consistent (init S).
Proof.
  unfold consistent, init. cbn.
  split; [intros h []|]. split; [intros h []|].
  split; [constructor|]. split; [constructor|]. discriminate.
Qed.

Lemma startSync_consistent (ik : Indiekit S) (options : Options)
    (s : State S) :
  consistent s -> consistent (startSync ik options s).
Proof.
  intros (Ht & Hi & Nt & Ni & Hv).
  unfold consistent, startSync, setTimeout, setInterval, set_syncInterval.
  cbn. repeat split.
  - intros h [<-|Hin]; [lia|]. specialize (Ht h Hin). lia.
  - intros h [<-|Hin]; [lia|]. specialize (Hi h Hin). lia.
  - constructor; [|exact Nt]. intros Hin. specialize (Ht _ Hin). lia.
  - constructor; [|exact Ni]. intros Hin. specialize (Hi _ Hin). lia.
  - intros h Hh. injection Hh as <-. left. reflexivity.
Qed.

Lemma stopSync_consistent (s : State S) :
  consistent s -> consistent (stopSync s).
Proof.
  intros (Ht & Hi & Nt & Ni & Hv). unfold stopSync.
  destruct (syncInterval s) as [h|] eqn:Hs.
  - unfold consistent, set_syncInterval, clearInterval. cbn. repeat split.
    + exact Ht.
    + intros h' Hin. apply handles_drop in Hin. apply Hi. apply Hin.
    + exact Nt.
    + apply NoDup_handles_drop. exact Ni.
    + discriminate.
  - unfold consistent. rewrite Hs. repeat split; auto; discriminate.
Qed.

Lemma step_consistent (s s' : State S) (e : Event S) :
  consistent s -> step s e = Some s' -> consistent s'.
Proof.
  intros Hc Hstep. destruct e as [ik o| |h|h|cfg oik|n]; cbn [step] in Hstep.
  - injection Hstep as <-. apply startSync_consistent. exact Hc.
  - injection Hstep as <-. apply stopSync_consistent. exact Hc.
  - destruct (find_timer h (timeouts s)) as [t|]; [|discriminate].
    injection Hstep as <-. destruct Hc as (Ht & Hi & Nt & Ni & Hv).
    unfold consistent, begin. cbn. repeat split; auto.
    + intros h' Hin. apply handles_drop in Hin. apply Ht. apply Hin.
    + apply NoDup_handles_drop. exact Nt.
  - destruct (find_timer h (intervals s)) as [t|]; [|discriminate].
    injection Hstep as <-. exact Hc.
  - destruct (admin_call cfg oik); injection Hstep as <-; exact Hc.
  - destruct (nth_error (inFlight s) n); [|discriminate].
    injection Hstep as <-. exact Hc.
Qed.

Lemma run_consistent (trace : list (Event S)) :
  forall s s', consistent s -> run s trace = Some s' -> consistent s'.
Proof.
  induction trace as [|e trace IH]; intros s s' Hc Hrun; cbn [run] in Hrun.
  - injection Hrun as <-. exact Hc.
  - destruct (step s e) as [s1|] eqn:Hstep; [|discriminate].
    exact (IH s1 s' (step_consistent s s1 e Hc Hstep) Hrun).
Qed.

Lemma length_remove_nth {A : Type} (l : list A) :
  forall n x, nth_error l n = Some x ->
              Datatypes.S (List.length (remove_nth n l)) = List.length l.
Proof.
  induction l as [|y l IH]; intros [|n] x H; cbn in *; try discriminate.
  - reflexivity.
  - f_equal. exact (IH n x H).
Qed.

(** Calls begun and calls settled balance the calls pending. *)
Lemma run_balance (trace : list (Event S)) :
  forall s0 s,
    run s0 trace = Some s ->
    (List.length (inFlight s) + count settles_cycle trace
     = List.length (inFlight s0) + count starts_cycle trace)%nat.
Proof.
  induction trace as [|e trace IH]; intros s0 s Hrun.
  - injection Hrun as <-. unfold count. simpl. lia.
  - cbn [run] in Hrun. destruct (step s0 e) as [s1|] eqn:Hstep; [|discriminate].
    specialize (IH s1 s Hrun). unfold count in *.
    destruct e as [ik o| |h|h|cfg oik|n]; cbn [step] in Hstep;
      cbn [filter starts_cycle settles_cycle List.length] in *.
    + injection Hstep as <-. cbn in IH. lia.
    + injection Hstep as <-. unfold stopSync in IH.
      destruct (syncInterval s0); cbn in IH; lia.
    + destruct (find_timer h (timeouts s0)); [|discriminate].
      injection Hstep as <-. cbn in IH. lia.
    + destruct (find_timer h (intervals s0)); [|discriminate].
      injection Hstep as <-. cbn in IH. lia.
    + destruct (admin_call cfg oik); injection Hstep as <-; cbn in IH |- *; lia.
    + destruct (nth_error (inFlight s0) n) as [x|] eqn:Hn; [|discriminate].
      injection Hstep as <-. cbn in IH.
      pose proof (length_remove_nth _ _ _ Hn). lia.
Qed.

(** A pending timeout fires when due, whatever is in flight. *)
Lemma timeout_fires (s : State S) (t : Timer S) :
  consistent s ->
  In t (timeouts s) ->
  exists s',
    step s (TimeoutFires (handle t)) = Some s'
    /\ inFlight s' = call t :: inFlight s
    /\ intervals s' = intervals s
    /\ timeouts s' = drop_handle (handle t) (timeouts s).
Proof.
  intros (_ & _ & Nt & _) Hin. cbn [step].
  rewrite (find_timer_unique _ _ Nt Hin).
  eexists. split; [reflexivity|]. repeat split.
Qed.

(** A live interval fires when due, whatever is in flight, and stays
    registered. *)
Lemma interval_fires (s : State S) (t : Timer S) :
  consistent s ->
  In t (intervals s) ->
  step s (IntervalFires (handle t)) = Some (begin (call t) s).
Proof.
  intros (_ & _ & _ & Ni & _) Hin. cbn [step].
  rewrite (find_timer_unique _ _ Ni Hin). reflexivity.
Qed.

Lemma admin_call_some (config : Options) (ik : Indiekit S) (db : Database S) :
  database ik = Some db ->
  admin_call (Some config) (Some ik) = Some (AdminSync ik config).
Proof. intros H. unfold admin_call. rewrite H. reflexivity. Qed.

(** Admin requests pile up. *)
Lemma pile_up (config : Options) (ik : Indiekit S) (db : Database S)
    (s : State S) (n : nat) :
  database ik = Some db ->
  exists s',
    run s (repeat (AdminRequest (Some config) (Some ik)) n) = Some s'
    /\ inFlight s' = (repeat (AdminSync ik config) n ++ inFlight s)%list.
Proof.
  intros Hdb. revert s. induction n as [|n IH]; intros s.
  - exists s. split; reflexivity.
  - cbn [repeat run step]. rewrite (admin_call_some config ik db Hdb).
    destruct (IH (begin (AdminSync ik config) s)) as (s' & Hrun & Hfl).
    exists s'. split; [exact Hrun|]. rewrite Hfl. cbn [begin inFlight].
    change (AdminSync ik config :: inFlight s)
      with ([AdminSync ik config] ++ inFlight s)%list.
    rewrite app_assoc. f_equal.
    change [AdminSync ik config] with (repeat (AdminSync ik config) 1).
    rewrite <- repeat_app. replace (n + 1)%nat with (Datatypes.S n) by lia.
    reflexivity.
Qed.

(** Every timeout that is pending can fire, one after the other. *)
Lemma timeouts_all_fire (l : list (Timer S)) :
  forall s,
    consistent s ->
    timeouts s = l ->
    exists s',
      run s (map (fun t => TimeoutFires (handle t)) l) = Some s'
      /\ List.length (inFlight s') = (List.length l + List.length (inFlight s))%nat
      /\ timeouts s' = []
      /\ intervals s' = intervals s
      /\ syncInterval s' = syncInterval s.
Proof.
  induction l as [|t l IH]; intros s Hc Hl.
  - exists s. cbn. auto.
  - cbn [map run].
    destruct (timeout_fires s t Hc) as (s1 & Hstep & Hfl & Hint & Hto).
    { rewrite Hl. left. reflexivity. }
    rewrite Hstep.
    assert (Hl1 : timeouts s1 = l).
    { rewrite Hto, Hl. cbn [drop_handle filter]. rewrite Nat.eqb_refl. cbn.
      destruct Hc as (_ & _ & Nt & _). rewrite Hl in Nt. cbn in Nt.
      inversion Nt as [|? ? Hx _]; subst.
      apply forallb_filter_id. apply forallb_forall. intros x Hx'.
      apply negb_true_iff, Nat.eqb_neq. intros E. apply Hx. rewrite <- E.
      apply in_map. exact Hx'. }
    destruct (IH s1 (step_consistent s s1 _ Hc Hstep) Hl1)
      as (s' & Hrun & Hlen & Hnil & Hint' & Hsy).
    exists s'. split; [exact Hrun|]. rewrite Hlen, Hfl. cbn [List.length].
    split; [lia|]. split; [exact Hnil|]. split; [congruence|].
    rewrite Hsy. cbn [step] in Hstep.
    destruct (find_timer (handle t) (timeouts s)); [|discriminate].
    injection Hstep as <-. reflexivity.
Qed.

(** What [k] calls of [startSync] leave registered. *)
Lemma run_starts (ik : Indiekit S) (options : Options) (k : nat) :
  forall s,
    exists s',
      run s (repeat (StartSync ik options) k) = Some s'
      /\ List.length (timeouts s') = (k + List.length (timeouts s))%nat
      /\ List.length (intervals s') = (k + List.length (intervals s))%nat
      /\ inFlight s' = inFlight s
      /\ (k <> 0%nat -> syncInterval s' <> None).
Proof.
  induction k as [|k IH]; intros s.
  - exists s. cbn. repeat split. congruence.
  - cbn [repeat run step].
    destruct (IH (startSync ik options s)) as (s' & Hrun & Ht & Hi & Hf & Hs).
    exists s'. split; [exact Hrun|]. rewrite Ht, Hi, Hf. cbn.
    repeat split; try lia.
    intros _. destruct k as [|k]; [|apply Hs; lia].
    cbn in Hrun. injection Hrun as <-. discriminate.
Qed.

End TimerTable.

Section SingleFlight.
Import Client Sync Controllers Scheduler.

(** The callback of both timers does to the process what one call of
    [runSync] does, whatever state it finds. *)
Lemma timer_callback_is_runSync (S : Type) (env : Env)
    (getAllStats : Database S -> option Limits -> option LastFmClient ->
                   World S -> Outcome Stats * World S)
    (fuel : nat) (ik : Indiekit S) (options : Options) (w : World S) :
  snd (timer_callback env getAllStats fuel ik options w)
  = snd (runSync env getAllStats fuel ik options w).
Proof.
  unfold timer_callback, try_catch, bind.
  destruct (runSync env getAllStats fuel ik options w) as [[r|e|] w1];
    reflexivity.
Qed.

(** So does the admin handler where it calls [runSync]; otherwise it
    answers 500 and leaves the process as it is. *)
Lemma dashboard_sync_is_runSync (S : Type) (env : Env)
    (getAllStats : Database S -> option Limits -> option LastFmClient ->
                   World S -> Outcome Stats * World S)
    (fuel : nat) (lastfmConfig : option Options) (oik : option (Indiekit S))
    (w : World S) :
  match admin_call lastfmConfig oik with
  | Some (AdminSync ik config) =>
      snd (dashboard_sync env getAllStats fuel lastfmConfig oik w)
      = snd (runSync env getAllStats fuel ik config w)
  | _ =>
      exists msg,
        dashboard_sync env getAllStats fuel lastfmConfig oik w
        = (Ok (status_json 500 (ErrorBody msg)), w)
  end.
Proof.
  unfold admin_call, dashboard_sync, try_catch.
  destruct lastfmConfig as [config|]; [|eexists; reflexivity].
  destruct oik as [ik|]; [|eexists; reflexivity].
  destruct (database ik) as [db|]; [|eexists; reflexivity].
  unfold bind.
  destruct (runSync env getAllStats fuel ik config w) as [[r|e|] w1];
    reflexivity.
Qed.

(** Whoever makes it, a call does to the process what [runSync] does
    with the arguments of the call. *)
Lemma body_is_runSync (S : Type) (env : Env)
    (getAllStats : Database S -> option Limits -> option LastFmClient ->
                   World S -> Outcome Stats * World S)
    (fuel : nat) (c : Call S) (w : World S) :
  snd (body env getAllStats fuel c w)
  = snd (runSync env getAllStats fuel (fst (call_args c))
           (snd (call_args c)) w).
Proof.
  destruct c as [ik options|ik config]; cbn [body call_args fst snd].
  - apply timer_callback_is_runSync.
  - pose proof (dashboard_sync_is_runSync S env getAllStats fuel
                  (Some config) (Some ik) w) as H.
    unfold admin_call in H. unfold bind.
    destruct (database ik) as [db|] eqn:Hdb.
    + destruct (dashboard_sync env getAllStats fuel (Some config) (Some ik) w)
        as [[r|e|] w1]; exact H.
    + destruct H as (msg & H). rewrite H. cbn.
      unfold runSync. rewrite Hdb. reflexivity.
Qed.

(** C3, as stated, fails: after the interval timer has fired, an admin
    request that arrives before the cycle settles starts a second
    cycle, and two are in flight.  Likewise two calls of [startSync]
    leave two initial syncs, which both run. *)
Lemma two_cycles_in_flight :
  option_map (@inFlight MemDb.MemStore)
    (run (init MemDb.MemStore)
       [StartSync Examples.indiekit0 Examples.options0;
        IntervalFires 2;
        AdminRequest (Some Examples.options0) (Some Examples.indiekit0)])
  = Some [AdminSync Examples.indiekit0 Examples.options0;
          TimerSync Examples.indiekit0 Examples.options0]
  /\ option_map (@inFlight MemDb.MemStore)
       (run (init MemDb.MemStore)
          [StartSync Examples.indiekit0 Examples.options0;
           StartSync Examples.indiekit0 Examples.options0;
           TimeoutFires 1;
           TimeoutFires 3])
     = Some [TimerSync Examples.indiekit0 Examples.options0;
             TimerSync Examples.indiekit0 Examples.options0].
Proof. split; reflexivity. Qed.

(** C3, amended.  Nothing records that a cycle is in progress, and no
    trigger is dropped or deferred.  In every state the process can
    reach: each pending timeout and each live interval starts its call
    of [runSync] when it fires, and an admin request that comes with a
    configuration and a database starts one, whatever is in flight;
    each call of [startSync] adds one initial and one recurring sync to
    those already registered; and the code that makes a call (the
    timer callback, the admin handler) does to the process exactly
    what [runSync] does with the arguments of the call.  The number of
    cycles in flight is the number started minus the number settled; it
    grows by [n] with [n] admin requests, and the [k] initial syncs of
    [k] calls of [startSync] all run. *)
Theorem cycles_are_not_single_flight :
  forall (S : Type) (env : Env)
         (getAllStats : Database S -> option Limits -> option LastFmClient ->
                        World S -> Outcome Stats * World S)
         (fuel : nat) (trace : list (Event S)) (s : State S),
    run (init S) trace = Some s ->
    (List.length (inFlight s) + count settles_cycle trace
     = count starts_cycle trace)%nat
    /\ (forall t, In t (timeouts s) ->
          exists s', step s (TimeoutFires (handle t)) = Some s'
                     /\ inFlight s' = call t :: inFlight s)
    /\ (forall t, In t (intervals s) ->
          exists s', step s (IntervalFires (handle t)) = Some s'
                     /\ inFlight s' = call t :: inFlight s
                     /\ intervals s' = intervals s)
    /\ (forall config ik db,
          database ik = Some db ->
          exists s', step s (AdminRequest (Some config) (Some ik)) = Some s'
                     /\ inFlight s' = AdminSync ik config :: inFlight s)
    /\ (forall ik options,
          exists t1 t2,
            timeouts (startSync ik options s) = t1 :: timeouts s
            /\ intervals (startSync ik options s) = t2 :: intervals s
            /\ call t1 = TimerSync ik options
            /\ call t2 = TimerSync ik options
            /\ inFlight (startSync ik options s) = inFlight s)
    /\ (forall c w,
          snd (body env getAllStats fuel c w)
          = snd (runSync env getAllStats fuel (fst (call_args c))
                   (snd (call_args c)) w))
    /\ (forall config ik db n,
          database ik = Some db ->
          exists s',
            run s (repeat (AdminRequest (Some config) (Some ik)) n) = Some s'
            /\ List.length (inFlight s') = (n + List.length (inFlight s))%nat)
    /\ (forall ik options k,
          exists s1 s2,
            run s (repeat (StartSync ik options) k) = Some s1
            /\ List.length (timeouts s1) = (k + List.length (timeouts s))%nat
            /\ run s1 (map (fun t => TimeoutFires (handle t)) (timeouts s1))
               = Some s2
            /\ List.length (inFlight s2)
               = (k + List.length (timeouts s) + List.length (inFlight s))%nat).
Proof.
  intros S env getAllStats fuel trace s Hrun.
  assert (Hc : consistent s).
  { exact (run_consistent trace _ _ consistent_init Hrun). }
  split.
  { pose proof (run_balance trace _ _ Hrun) as H. cbn in H. exact H. }
  split.
  { intros t Hin. destruct (timeout_fires s t Hc Hin) as (s' & H1 & H2 & _).
    exists s'. auto. }
  split.
  { intros t Hin. exists (begin (call t) s).
    split; [exact (interval_fires s t Hc Hin)|]. split; reflexivity. }
  split.
  { intros config ik db Hdb. cbn [step].
    rewrite (admin_call_some config ik db Hdb).
    eexists. split; reflexivity. }
  split.
  { intros ik options. eexists. eexists. repeat split. }
  split; [intros c w; apply body_is_runSync|].
  split.
  { intros config ik db n Hdb.
    destruct (pile_up config ik db s n Hdb) as (s' & H1 & H2).
    exists s'. split; [exact H1|].
    rewrite H2, length_app, repeat_length. reflexivity. }
  intros ik options k.
  destruct (run_starts ik options k s) as (s1 & H1 & Ht & _ & Hf & _).
  assert (Hc1 : consistent s1) by exact (run_consistent _ _ _ Hc H1).
  destruct (timeouts_all_fire (timeouts s1) s1 Hc1 eq_refl)
    as (s2 & H2 & Hlen & _).
  exists s1, s2. split; [exact H1|]. split; [exact Ht|].
  split; [exact H2|]. rewrite Hlen, Ht, Hf. reflexivity.
Qed.

Lemma cycles_are_not_single_flight_witness :
  exists s,
    run (init MemDb.MemStore)
      [StartSync Examples.indiekit0 Examples.options0;
       IntervalFires 2;
       AdminRequest (Some Examples.options0) (Some Examples.indiekit0)]
    = Some s
    /\ (List.length (inFlight s) + 0 = 2)%nat.
Proof.
  eexists. split; [reflexivity|].
  exact (proj1 (cycles_are_not_single_flight MemDb.MemStore
                  Examples.env_one_play Examples.getAllStats0 10%nat
                  [StartSync Examples.indiekit0 Examples.options0;
                   IntervalFires 2;
                   AdminRequest (Some Examples.options0)
                     (Some Examples.indiekit0)] _ eq_refl)).
Defined.

End SingleFlight.

(** ** The client (lib/lastfm-client.js) *)

Section ClientFacts.
Import Client.
Context {S : Type}.
Variable env : Env.

Lemma same_process_refl (w : World S) : same_process w w.
Proof. repeat split. Qed.

Lemma same_process_trans (w1 w2 w3 : World S) :
  same_process w1 w2 -> same_process w2 w3 -> same_process w1 w3.
Proof.
  intros (A1 & A2 & A3) (B1 & B2 & B3).
  repeat split; congruence.
Qed.

Lemma cache_nil_ok (w : World S) : cache w = [] -> cache_ok env w.
Proof. intros H k d t Hin. rewrite H in Hin. destruct Hin. Qed.

Lemma cache_get_In c k v :
  cache_get c k = Some v -> exists k', In (k', v) c.
Proof.
  induction c as [|[k0 v0] c IH]; simpl; [discriminate|].
  destruct (Request_eqb k0 k).
  - intros H. injection H as <-. exists k0. left. reflexivity.
  - intros H. destruct (IH H) as [k' Hin]. exists k'. right. exact Hin.
Qed.

Lemma cache_set_In c k v k' v' :
  In (k', v') (cache_set c k v) -> (k', v') = (k, v) \/ In (k', v') c.
Proof.
  unfold cache_set. simpl. intros [H|H].
  - left. symmetry. exact H.
  - right. apply filter_In in H. tauto.
Qed.

Lemma cache_fresh_spec (this : LastFmClient) (cached : option (Data * Z))
    (w : World S) :
  exists hit w1,
    cache_fresh env this cached w = (Ok hit, w1)
    /\ requests w1 = requests w /\ cache w1 = cache w /\ same_process w w1
    /\ (forall data, hit = Some data -> exists ts, cached = Some (data, ts)).
Proof.
  destruct cached as [[data ts]|]; cbn [cache_fresh].
  - unfold bind, Date_now.
    destruct (clock env (tick w) - ts <? c_cacheTtl this); cbn;
      eexists; eexists; (split; [reflexivity|]); cbn;
      repeat split; intros d Hd; [|discriminate].
    injection Hd as <-. eauto.
  - exists None, w. repeat split. discriminate.
Qed.

Lemma net_fetch_spec (req : Request) (w : World S) :
  requests (snd (net_fetch env req w)) = req :: requests w
  /\ cache (snd (net_fetch env req w)) = cache w
  /\ same_process w (snd (net_fetch env req w))
  /\ fst (net_fetch env req w) <> OutOfFuel
  /\ (forall r, fst (net_fetch env req w) = Ok r ->
                upstream env (List.length (requests w)) req = NetResponse r).
Proof.
  unfold net_fetch, bind, get, modify. cbn.
  destruct (upstream env (List.length (requests w)) req) as [r|e]; cbn;
    repeat split; try discriminate.
  intros r0 H. injection H as <-. reflexivity.
Qed.


(** What one call of [fetch] can do. *)
Lemma fetch_post (this : LastFmClient) (method : string) (params : Params)
    (w : World S) :
  post (fetch env this method params w) (fun r w' =>
    same_process w w'
    /\ r <> OutOfFuel
    /\ (exists new,
          requests w' = (new ++ requests w)%list
          /\ (List.length new <= 1)%nat
          /\ Forall (eq (request_of this method params)) new)
    /\ (cache_ok env w ->
        cache_ok env w'
        /\ forall data, r = Ok data -> from_upstream env data)).
Proof.
  unfold fetch. fold (request_of this method params).
  set (key := request_of this method params).
  unfold bind at 1. unfold get at 1.
  destruct (cache_fresh_spec this (cache_get (cache w) key) w)
    as (hit & w1 & Hc & Hreq1 & Hcache1 & Hsame1 & Hhit).
  unfold bind at 1. rewrite Hc.
  destruct hit as [data|].
  - (* served from the cache *)
    unfold post. cbn. split; [exact Hsame1|]. split; [discriminate|]. split.
    + exists []. rewrite Hreq1. repeat split; [simpl; lia | constructor].
    + intros Hok. split.
      * intros k d t Hin. rewrite Hcache1 in Hin. exact (Hok k d t Hin).
      * intros d Hd. injection Hd as <-.
        destruct (Hhit data eq_refl) as [ts Hts].
        destruct (cache_get_In _ _ _ Hts) as [k' Hin].
        exact (Hok k' data ts Hin).
  - (* asked from the upstream *)
    destruct (net_fetch_spec key w1) as (Hreq2 & Hcache2 & Hsame2 & Hfuel2 & Hresp).
    unfold bind at 1.
    destruct (net_fetch env key w1) as [[r|e|] w2]; cbn [fst snd] in *.
    3:{ contradiction. }
    2:{ unfold post. cbn. split; [exact (same_process_trans _ _ _ Hsame1 Hsame2)|].
        split; [discriminate|]. split.
        - exists [key]. rewrite Hreq2, Hreq1. repeat split; [simpl; lia | repeat constructor].
        - intros Hok. split; [|discriminate].
          intros k d t Hin. rewrite Hcache2, Hcache1 in Hin. exact (Hok k d t Hin). }
    assert (Hbase :
      forall (x : Result Data),
        (forall d, x <> Ok d) -> x <> OutOfFuel ->
        post (x, w2) (fun r w' =>
          same_process w w'
          /\ r <> OutOfFuel
          /\ (exists new,
                requests w' = (new ++ requests w)%list
                /\ (List.length new <= 1)%nat
                /\ Forall (eq key) new)
          /\ (cache_ok env w ->
              cache_ok env w'
              /\ forall data, r = Ok data -> from_upstream env data))).
    { intros x Hx Hx'. unfold post. cbn.
      split; [exact (same_process_trans _ _ _ Hsame1 Hsame2)|].
      split; [exact Hx'|]. split.
      - exists [key]. rewrite Hreq2, Hreq1. repeat split; [simpl; lia | repeat constructor].
      - intros Hok. split; [|intros d Hd; destruct (Hx d Hd)].
        intros k d t Hin. rewrite Hcache2, Hcache1 in Hin. exact (Hok k d t Hin). }
    destruct (ok r); cbn [negb].
    2:{ destruct (includes _ _); cbn [negb]; apply Hbase; discriminate. }
    destruct (includes _ _); cbn [negb]; [|apply Hbase; discriminate].
    destruct (body_json r) as [data|] eqn:Hbody; [|apply Hbase; discriminate].
    destruct (JS.truthy_num (d_error data)); [apply Hbase; discriminate|].
    unfold post, bind, Date_now, get, modify, set_cache, same_process. cbn.
    destruct Hsame1 as (A1 & A2 & A3). destruct Hsame2 as (B1 & B2 & B3).
    split; [repeat split; congruence|]. split; [discriminate|]. split.
    + exists [key]. rewrite Hreq2, Hreq1. repeat split; [simpl; lia | repeat constructor].
    + intros Hok.
      assert (Hup : from_upstream env data).
      { exists (List.length (requests w1)), key, r. split; [|exact Hbody].
        apply Hresp. reflexivity. }
      split.
      * intros k d t Hin. apply cache_set_In in Hin. destruct Hin as [Heq|Hin].
        -- injection Heq as _ <- _. exact Hup.
        -- rewrite Hcache2, Hcache1 in Hin. exact (Hok k d t Hin).
      * intros d Hd. injection Hd as <-. exact Hup.
Qed.


Lemma scrobbledTracks_spec (data : Data) :
  from_upstream env data ->
  Forall (fun s => upstream_entry env s /\ completed s)
    (scrobbledTracks (response_tracks data))
  /\ forall n, page_size_bounded env n ->
               (List.length (scrobbledTracks (response_tracks data)) <= n)%nat.
Proof.
  intros Hup. split.
  - apply Forall_forall. intros s Hin. unfold scrobbledTracks in Hin.
    apply filter_In in Hin. destruct Hin as [Hin Hc]. split.
    + exists data. split; assumption.
    + unfold completed. apply negb_true_iff. exact Hc.
  - intros n Hn. destruct Hup as (k & req & r & Hr & Hbody).
    specialize (Hn k req r data Hr Hbody).
    unfold scrobbledTracks.
    pose proof (filter_length_le
                  (fun t => negb (JS.truthy_str (attr_nowplaying t)))
                  (response_tracks data)).
    lia.
Qed.

(** One page request of the pagination loops. *)
Lemma getRecentTracks_page_post (this : LastFmClient) (page : Z)
    (from : JS.num) (w : World S) :
  post (getRecentTracks env this (Some page) (Some 200) from None w)
    (fun r w' =>
       same_process w w'
       /\ r <> OutOfFuel
       /\ (exists new,
             requests w' = (new ++ requests w)%list
             /\ (List.length new <= 1)%nat
             /\ Forall page_request new)
       /\ (cache_ok env w ->
           cache_ok env w'
           /\ forall data, r = Ok data -> from_upstream env data)).
Proof.
  unfold getRecentTracks.
  pose proof (fetch_post this "user.getRecentTracks"
                {| p_page := Some page; p_limit := Some (Z.min 200 200);
                   p_extended := Some 1; p_from := truthy_param from;
                   p_to := truthy_param None |} w) as H.
  unfold post in *.
  destruct H as (H1 & H2 & (new & Hreq & Hlen & Hall) & H4).
  split; [exact H1|]. split; [exact H2|]. split; [|exact H4].
  exists new. split; [exact Hreq|]. split; [exact Hlen|].
  eapply Forall_impl; [|exact Hall].
  intros q <-. split; reflexivity.
Qed.

Lemma pages_post_done (fuel : nat) (acc : list Track) (w : World S) :
  pages_post env fuel acc w (Ok acc) w.
Proof.
  split; [apply same_process_refl|]. split.
  - exists []. repeat split; [simpl; lia | constructor].
  - intros Hok. split; [exact Hok|]. intros l Hl. injection Hl as <-.
    exists []. rewrite app_nil_r. repeat split; [constructor | simpl; lia].
Qed.

Lemma pages_post_stop (fuel : nat) (acc : list Track) (w w1 : World S)
    (r : Result Data) (x : Result (list Track)) :
  post (r, w1) (fun r w' =>
       same_process w w'
       /\ r <> OutOfFuel
       /\ (exists new,
             requests w' = (new ++ requests w)%list
             /\ (List.length new <= 1)%nat
             /\ Forall page_request new)
       /\ (cache_ok env w ->
           cache_ok env w'
           /\ forall data, r = Ok data -> from_upstream env data)) ->
  (forall l, x <> Ok l) ->
  pages_post env (Datatypes.S fuel) acc w x w1.
Proof.
  unfold post. cbn. intros (H1 & H2 & (new & Hreq & Hlen & Hall) & H4) Hx.
  split; [exact H1|]. split.
  - exists new. repeat split; [exact Hreq | lia | exact Hall].
  - intros Hok. split; [apply (H4 Hok)|]. intros l Hl. destruct (Hx l Hl).
Qed.

Lemma pages_post_step (fuel : nat) (acc : list Track) (w w1 w2 : World S)
    (data : Data) (x : Result (list Track)) :
  post (Ok data, w1) (fun r w' =>
       same_process w w'
       /\ r <> OutOfFuel
       /\ (exists new,
             requests w' = (new ++ requests w)%list
             /\ (List.length new <= 1)%nat
             /\ Forall page_request new)
       /\ (cache_ok env w ->
           cache_ok env w'
           /\ forall data, r = Ok data -> from_upstream env data)) ->
  pages_post env fuel (acc ++ scrobbledTracks (response_tracks data))%list w1 x w2 ->
  pages_post env (Datatypes.S fuel) acc w x w2.
Proof.
  unfold post. cbn.
  intros (H1 & H2 & (new & Hreq & Hlen & Hall) & H4)
         (G1 & (new' & Hreq' & Hlen' & Hall') & G3).
  split; [exact (same_process_trans _ _ _ H1 G1)|]. split.
  - exists (new' ++ new)%list. rewrite Hreq', Hreq, app_assoc.
    split; [reflexivity|]. split.
    + rewrite length_app. lia.
    + apply Forall_app. split; assumption.
  - intros Hok. destruct (H4 Hok) as [Hok1 Hdata].
    destruct (G3 Hok1) as [Hok2 Hl]. split; [exact Hok2|].
    intros l Hx. destruct (Hl l Hx) as (l' & -> & Hall2 & Hbound).
    destruct (scrobbledTracks_spec data (Hdata data eq_refl)) as [Hs Hsn].
    exists (scrobbledTracks (response_tracks data) ++ l')%list.
    rewrite app_assoc. split; [reflexivity|]. split.
    + apply Forall_app. split; assumption.
    + intros n Hn. rewrite length_app.
      specialize (Hbound n Hn). specialize (Hsn n Hn). lia.
Qed.

Lemma getNewScrobbles_loop_post (this : LastFmClient) (from : JS.num) :
  forall (fuel : nat) (page : Z) (hasMore : bool) (acc : list Track)
         (w : World S),
    post (getNewScrobbles_loop env fuel this from page hasMore acc w)
      (pages_post env fuel acc w).
Proof.
  induction fuel as [|fuel IH]; intros page hasMore acc w.
  - destruct hasMore; cbn [getNewScrobbles_loop].
    + unfold post, out_of_fuel. cbn.
      split; [apply same_process_refl|]. split.
      * exists []. repeat split; [simpl; lia | constructor].
      * intros Hok. split; [exact Hok|]. discriminate.
    + apply pages_post_done.
  - destruct hasMore; cbn [getNewScrobbles_loop]; [|apply pages_post_done].
    pose proof (getRecentTracks_page_post this page from w) as Hpage.
    unfold bind at 1.
    destruct (getRecentTracks env this (Some page) (Some 200) from None w)
      as [[data|e|] w1].
    + specialize (IH (page + 1) (page <? response_totalPages data)
                    (acc ++ scrobbledTracks (response_tracks data))%list w1).
      unfold post in IH |- *.
      exact (pages_post_step fuel acc w w1 _ data _ Hpage IH).
    + apply (pages_post_stop fuel acc w w1 _ _ Hpage). discriminate.
    + apply (pages_post_stop fuel acc w w1 _ _ Hpage). discriminate.
Qed.

Lemma getAllRecentTracks_loop_post (this : LastFmClient) (maxPages : Z) :
  forall (fuel : nat) (page : Z) (hasMore : bool) (acc : list Track)
         (w : World S),
    post (getAllRecentTracks_loop env fuel this maxPages page hasMore acc w)
      (pages_post env fuel acc w).
Proof.
  induction fuel as [|fuel IH]; intros page hasMore acc w.
  - cbn [getAllRecentTracks_loop].
    destruct (hasMore && (page <=? maxPages)).
    + unfold post, out_of_fuel. cbn.
      split; [apply same_process_refl|]. split.
      * exists []. repeat split; [simpl; lia | constructor].
      * intros Hok. split; [exact Hok|]. discriminate.
    + apply pages_post_done.
  - cbn [getAllRecentTracks_loop].
    destruct (hasMore && (page <=? maxPages)); [|apply pages_post_done].
    pose proof (getRecentTracks_page_post this page None w) as Hpage.
    unfold bind at 1.
    destruct (getRecentTracks env this (Some page) (Some 200) None None w)
      as [[data|e|] w1].
    + specialize (IH (page + 1) (page <? response_totalPages data)
                    (acc ++ scrobbledTracks (response_tracks data))%list w1).
      unfold post in IH |- *.
      exact (pages_post_step fuel acc w w1 _ data _ Hpage IH).
    + apply (pages_post_stop fuel acc w w1 _ _ Hpage). discriminate.
    + apply (pages_post_stop fuel acc w w1 _ _ Hpage). discriminate.
Qed.


Lemma getAllRecentTracks_loop_terminates (this : LastFmClient) (maxPages : Z) :
  forall (fuel : nat) (page : Z) (hasMore : bool) (acc : list Track)
         (w : World S),
    maxPages - page < Z.of_nat fuel ->
    fst (getAllRecentTracks_loop env fuel this maxPages page hasMore acc w)
    <> OutOfFuel.
Proof.
  induction fuel as [|fuel IH]; intros page hasMore acc w Hfuel;
    cbn [getAllRecentTracks_loop];
    destruct (hasMore && (page <=? maxPages)) eqn:Hcond;
    try (cbn; discriminate).
  - apply andb_true_iff in Hcond. destruct Hcond as [_ Hle].
    apply Z.leb_le in Hle. simpl in Hfuel. lia.
  - pose proof (getRecentTracks_page_post this page None w) as Hpage.
    unfold bind at 1.
    destruct (getRecentTracks env this (Some page) (Some 200) None None w)
      as [[data|e|] w1]; unfold post in Hpage; cbn [fst snd] in Hpage.
    + apply IH. lia.
    + cbn. discriminate.
    + destruct Hpage as (_ & Hne & _). contradiction.
Qed.

Lemma getNewScrobbles_loop_terminates (this : LastFmClient) (from : JS.num)
    (N : Z) :
  pages_bounded env N ->
  forall (fuel : nat) (page : Z) (hasMore : bool) (acc : list Track)
         (w : World S),
    cache_ok env w ->
    (hasMore = true ->
     page <= Z.max 1 N /\ Z.max 1 N - page < Z.of_nat fuel) ->
    fst (getNewScrobbles_loop env fuel this from page hasMore acc w)
    <> OutOfFuel.
Proof.
  intros HN.
  induction fuel as [|fuel IH]; intros page hasMore acc w Hok Hinv;
    cbn [getNewScrobbles_loop]; destruct hasMore; try (cbn; discriminate).
  - destruct (Hinv eq_refl). simpl in *. lia.
  - destruct (Hinv eq_refl) as [Hpage1 Hfuel].
    pose proof (getRecentTracks_page_post this page from w) as Hpage.
    unfold bind at 1.
    destruct (getRecentTracks env this (Some page) (Some 200) from None w)
      as [[data|e|] w1]; unfold post in Hpage; cbn [fst snd] in Hpage.
    + destruct Hpage as (_ & _ & _ & Hcache).
      destruct (Hcache Hok) as [Hok1 Hdata].
      destruct (Hdata data eq_refl) as (k & req & r & Hr & Hbody).
      specialize (HN k req r data Hr Hbody).
      apply IH; [exact Hok1|].
      intros Hmore. apply Z.ltb_lt in Hmore. lia.
    + cbn. discriminate.
    + destruct Hpage as (_ & Hne & _). contradiction.
Qed.

(** A cache miss answered by a good response. *)
Lemma fetch_ok_run (this : LastFmClient) (method : string) (params : Params)
    (w : World S) (r : HttpResponse) (data : Data) :
  cache_get (cache w) (request_of this method params) = None ->
  upstream env (List.length (requests w)) (request_of this method params)
  = NetResponse r ->
  ok r = true ->
  isJson r = true ->
  body_json r = Some data ->
  JS.truthy_num (d_error data) = false ->
  exists w',
    fetch env this method params w = (Ok data, w')
    /\ tick w' = Datatypes.S (tick w)
    /\ requests w' = request_of this method params :: requests w
    /\ same_process w w'.
Proof.
  intros Hmiss Hup Hok Hjson Hbody Herr.
  unfold fetch. fold (request_of this method params).
  unfold bind at 1. unfold get at 1. rewrite Hmiss.
  unfold bind at 1. cbn [cache_fresh ret].
  unfold bind at 1. unfold net_fetch. unfold bind, get, modify.
  cbn [requests set_requests]. rewrite Hup. cbn [ret].
  rewrite Hok. cbn [negb]. unfold isJson in Hjson. rewrite Hjson. cbn [negb].
  rewrite Hbody, Herr. unfold Date_now. cbn.
  eexists. split; [reflexivity|]. cbn. repeat split.
Qed.

Lemma fetch_healthy (this : LastFmClient) (method : string) (params : Params)
    (w : World S) :
  healthy env ->
  exists data w', fetch env this method params w = (Ok data, w').
Proof.
  intros Hh. unfold fetch. fold (request_of this method params).
  set (key := request_of this method params).
  unfold bind at 1. unfold get at 1.
  destruct (cache_fresh_spec this (cache_get (cache w) key) w)
    as (hit & w1 & Hc & _).
  unfold bind at 1. rewrite Hc. destruct hit as [data|].
  - exists data, w1. reflexivity.
  - destruct (Hh (List.length (requests w1)) key)
      as (r & data & Hup & Hok & Hjson & Hbody & Herr).
    unfold bind at 1. unfold net_fetch. unfold bind, get, modify.
    cbn [requests set_requests]. rewrite Hup. cbn [ret].
    rewrite Hok. cbn [negb]. unfold isJson in Hjson. rewrite Hjson. cbn [negb].
    rewrite Hbody, Herr. unfold Date_now. cbn.
    eexists. eexists. reflexivity.
Qed.

Lemma getAllRecentTracks_loop_healthy (this : LastFmClient) (maxPages : Z) :
  healthy env ->
  forall (fuel : nat) (page : Z) (hasMore : bool) (acc : list Track)
         (w : World S),
    forall e, fst (getAllRecentTracks_loop env fuel this maxPages page hasMore
                     acc w) <> Throw e.
Proof.
  intros Hh. induction fuel as [|fuel IH]; intros page hasMore acc w e;
    cbn [getAllRecentTracks_loop];
    destruct (hasMore && (page <=? maxPages)); try (cbn; discriminate).
  unfold getRecentTracks.
  destruct (fetch_healthy this "user.getRecentTracks"
              {| p_page := Some page; p_limit := Some (Z.min 200 200);
                 p_extended := Some 1; p_from := truthy_param None;
                 p_to := truthy_param None |} w Hh) as (data & w1 & Hf).
  rewrite (bind_Ok _ _ _ _ _ Hf). apply IH.
Qed.

Lemma getNewScrobbles_loop_healthy (this : LastFmClient) (from : JS.num) :
  healthy env ->
  forall (fuel : nat) (page : Z) (hasMore : bool) (acc : list Track)
         (w : World S),
    forall e, fst (getNewScrobbles_loop env fuel this from page hasMore acc w)
              <> Throw e.
Proof.
  intros Hh. induction fuel as [|fuel IH]; intros page hasMore acc w e;
    cbn [getNewScrobbles_loop]; destruct hasMore; try (cbn; discriminate).
  unfold getRecentTracks.
  destruct (fetch_healthy this "user.getRecentTracks"
              {| p_page := Some page; p_limit := Some (Z.min 200 200);
                 p_extended := Some 1; p_from := truthy_param from;
                 p_to := truthy_param None |} w Hh) as (data & w1 & Hf).
  rewrite (bind_Ok _ _ _ _ _ Hf). apply IH.
Qed.



End ClientFacts.

(** ** The sync engine (lib/sync.js) *)

Section SyncFacts.
Import Utils Client Sync.
Context {S : Type}.
Variable env : Env.

Lemma only_clock_refl (w : World S) : only_clock w w.
Proof. repeat split. Qed.

Lemma only_clock_trans (w1 w2 w3 : World S) :
  only_clock w1 w2 -> only_clock w2 w3 -> only_clock w1 w3.
Proof.
  intros (A1 & A2 & A3) (B1 & B2 & B3).
  split; [congruence|]. split; [congruence|].
  exact (same_process_trans _ _ _ A3 B3).
Qed.

Lemma Date_new_run (w : World S) :
  exists w', Date_new env w = (Ok (JS.TimeClip (Some (clock env (tick w)))), w')
             /\ only_clock w w' /\ tick w' = Datatypes.S (tick w).
Proof.
  unfold Date_new, bind, Date_now, ret. cbn.
  eexists. split; [reflexivity|]. repeat split.
Qed.

Lemma parseDate_run (d : DateInput) (w : World S) :
  exists date w',
    parseDate env d w = (Ok date, w')
    /\ only_clock w w'
    /\ (date_falsy d = true ->
        date = JS.TimeClip (Some (clock env (tick w))))
    /\ (date_falsy d = false -> date = date_value env d /\ w' = w).
Proof.
  unfold parseDate, date_value.
  destruct (date_falsy d).
  - destruct (Date_new_run w) as (w' & Hrun & Hclock & _).
    exists (JS.TimeClip (Some (clock env (tick w)))), w'.
    repeat split; try assumption; try apply Hclock; discriminate.
  - destruct (JS.truthy_str (date_uts d)); eexists; exists w;
      (split; [reflexivity|]); (split; [apply only_clock_refl|]);
      split; try discriminate; auto.
Qed.

Lemma transformScrobble_run (s : Track) (w : World S) :
  exists doc w',
    transformScrobble env s w = (Ok doc, w')
    /\ only_clock w w'
    /\ trackTitle doc = t_name s
    /\ artistName doc = getArtistName (Some s)
    /\ well_keyed doc
    /\ (date_falsy (t_date s) = true ->
        scrobbledAt doc = JS.TimeClip (Some (clock env (tick w))))
    /\ (date_falsy (t_date s) = false ->
        scrobbledAt doc = date_value env (t_date s)).
Proof.
  unfold transformScrobble.
  destruct (parseDate_run (t_date s) w) as (date & w1 & Hp & Hc1 & Hf & Hv).
  rewrite (bind_Ok _ _ _ _ _ Hp).
  destruct (Date_new_run w1) as (w2 & Hn & Hc2 & _).
  rewrite (bind_Ok _ _ _ _ _ Hn).
  eexists. eexists. split; [reflexivity|].
  split; [exact (only_clock_trans _ _ _ Hc1 Hc2)|].
  cbn. repeat split; try assumption.
  intros H. apply (Hv H).
Qed.

Lemma is_transform_props (s : Track) (doc : Doc) :
  @is_transform S env s doc ->
  trackTitle doc = t_name s
  /\ artistName doc = getArtistName (Some s)
  /\ well_keyed doc
  /\ (date_falsy (t_date s) = false ->
      scrobbledAt doc = date_value env (t_date s)).
Proof.
  intros (w & w' & H).
  destruct (transformScrobble_run s w) as (doc' & w1 & H' & _ & A & B & C & _ & D).
  rewrite H in H'. injection H' as -> _. auto.
Qed.

Lemma map_transform_run (l : list Track) :
  forall w : World S,
    exists docs w',
      map_transform env l w = (Ok docs, w')
      /\ only_clock w w'
      /\ Forall2 (@is_transform S env) l docs.
Proof.
  induction l as [|s l IH]; intros w.
  - exists [], w. repeat split. constructor.
  - cbn [map_transform].
    destruct (transformScrobble_run s w) as (doc & w1 & Ht & Hc1 & _).
    rewrite (bind_Ok _ _ _ _ _ Ht).
    destruct (IH w1) as (docs & w2 & Hm & Hc2 & Hall).
    rewrite (bind_Ok _ _ _ _ _ Hm).
    exists (doc :: docs), w2. split; [reflexivity|].
    split; [exact (only_clock_trans _ _ _ Hc1 Hc2)|].
    constructor; [exists w, w1; exact Ht | exact Hall].
Qed.

Lemma only_store_refl (w : World S) : only_store w w.
Proof. repeat split. Qed.


Lemma on_store_run {A} (op : S -> Outcome A * S) (w : World S) :
  on_store op w
  = (Result_of (fst (op (store w))), set_store (snd (op (store w))) w).
Proof. unfold on_store. destruct (op (store w)). reflexivity. Qed.

Lemma upsert_one_run (db : Database S) (doc : Doc) (n : Z) (w : World S) :
  try_catch
    (bind (on_store (updateOne db (filter_of doc) doc))
          (fun _ => ret (n + 1)))
    (fun _ => ret n) w
  = (Ok (match fst (updateOne db (filter_of doc) doc (store w)) with
         | Returned _ => n + 1
         | Raised _ => n
         end),
     set_store (snd (updateOne db (filter_of doc) doc (store w))) w).
Proof.
  unfold try_catch, bind. rewrite on_store_run.
  destruct (updateOne db (filter_of doc) doc (store w)) as [[[]|e] s'];
    reflexivity.
Qed.

Lemma upsert_all_run (db : Database S) (docs : list Doc) :
  forall (n : Z) (w : World S),
    exists m w',
      upsert_all db docs n w = (Ok m, w')
      /\ only_store w w'
      /\ n <= m <= n + Z.of_nat (List.length docs).
Proof.
  induction docs as [|doc docs IH]; intros n w.
  - exists n, w. split; [reflexivity|]. split; [apply only_store_refl|].
    simpl. lia.
  - cbn [upsert_all]. fold (filter_of doc).
    rewrite (bind_Ok _ _ _ _ _ (upsert_one_run db doc n w)).
    destruct (IH (match fst (updateOne db (filter_of doc) doc (store w)) with
                  | Returned _ => n + 1
                  | Raised _ => n
                  end)
                (set_store (snd (updateOne db (filter_of doc) doc (store w))) w))
      as (m & w' & Hrun & Hfr & Hm).
    exists m, w'. split; [exact Hrun|]. split.
    + destruct Hfr as (A1 & A2 & A3 & A4 & A5). repeat split; assumption.
    + cbn [List.length]. rewrite Nat2Z.inj_succ.
      destruct (fst (updateOne db (filter_of doc) doc (store w))); lia.
Qed.

Lemma syncScrobbles_phases (fuel : nat) (db : Database S)
    (client : LastFmClient) (w : World S) :
  syncScrobbles env fuel db client w
  = (ensure_indexes db ;;;
     latest <- on_store (findLatest db) ;;
     match latestDate_of latest with
     | None => throw rangeError
     | Some t =>
         newScrobbles <- fetch_phase env fuel client t ;;
         persist_phase env db newScrobbles
     end)%js w.
Proof.
  unfold syncScrobbles, ensure_indexes, bind.
  repeat (match goal with
          | |- context [on_store (createIndex db ?i) ?x] =>
              destruct (on_store (createIndex db i) x) as [[[]|?|] ?];
              try reflexivity
          end).
  destruct (on_store (findLatest db) w4) as [[latest|?|] w5]; try reflexivity.
  unfold latestDate_of.
  destruct (match latest with
            | Some d => scrobbledAt d
            | None => JS.Date_of_num (Some 0)
            end) as [t|]; [|reflexivity].
  unfold fetch_phase, persist_phase.
  destruct (t =? 0); reflexivity.
Qed.





Lemma persist_phase_run (db : Database S) (l : list Track) (w : World S) :
  exists r w', persist_phase env db l w = (Ok r, w')
               /\ 0 <= synced r <= Z.of_nat (List.length l)
               /\ error r = None.
Proof.
  unfold persist_phase. destruct l as [|s l].
  - eexists. exists w. split; [reflexivity|]. simpl. split; [lia | reflexivity].
  - destruct (map_transform_run (s :: l) w) as (docs & w1 & Hm & _ & Hall).
    rewrite (bind_Ok _ _ _ _ _ Hm).
    destruct (upsert_all_run db docs 0 w1) as (m & w2 & Hu & _ & Hm2).
    rewrite (bind_Ok _ _ _ _ _ Hu).
    eexists. exists w2. split; [reflexivity|]. cbn [synced error].
    rewrite (Forall2_length Hall). split; [lia | reflexivity].
Qed.

Lemma fetch_phase_terminates (fuel : nat) (client : LastFmClient) (t N : Z)
    (w : World S) :
  pages_bounded env N ->
  Z.max 1 N <= Z.of_nat fuel ->
  cache_ok env w ->
  fst (fetch_phase env fuel client t w) <> OutOfFuel.
Proof.
  intros HN Hfuel Hok. unfold fetch_phase. destruct (t =? 0).
  - unfold getAllRecentTracks.
    apply getAllRecentTracks_loop_terminates. simpl. lia.
  - unfold getNewScrobbles.
    apply (getNewScrobbles_loop_terminates env client _ N HN); [exact Hok|].
    intros _. lia.
Qed.


End SyncFacts.

(** ** Failures at the boundary of a cycle (lib/sync.js) *)

Section Boundary.
Import Client Sync Controllers.
Context {S : Type}.
Variable env : Env.
Variable getAllStats :
  Database S -> option Limits -> option LastFmClient ->
  World S -> Outcome Stats * World S.

Lemma stats_update_run (db : Database S) (limits : option Limits)
    (client : option LastFmClient) (w : World S) :
  exists w',
    try_catch
      (bind (lift (getAllStats db limits client))
            (fun stats => setCachedStats env stats))
      (fun _ => ret tt) w
    = (Ok tt, w').
Proof.
  unfold try_catch, bind, lift.
  destruct (getAllStats db limits client w) as [[stats|e] w1]; cbn.
  - unfold setCachedStats, bind, Date_now, modify. cbn.
    eexists. reflexivity.
  - eexists. reflexivity.
Qed.







End Boundary.

Section CycleBoundary.
Import Client Sync Controllers.








End CycleBoundary.

(** ** The reference store *)

Section MemDbFacts.
Import Utils Client Sync MemDb.

Lemma mem_createIndex_spec (i : IndexSpec) (s : MemStore) :
  (mem_createIndex i s = (Raised dupKeyError, s)
   /\ (has_dup same_id (scrobbles s) = true
       \/ has_dup same_key (scrobbles s) = true))
  \/ (exists s',
        mem_createIndex i s = (Returned tt, s')
        /\ scrobbles s' = scrobbles s
        /\ meta s' = meta s
        /\ has_index s' i = true
        /\ (forall j, has_index s j = true -> has_index s' j = true)
        /\ (i = UniqueSparse_lastfmId -> has_dup same_id (scrobbles s) = false)
        /\ (i = Unique_trackTitle_artistName_scrobbledAt ->
            has_dup same_key (scrobbles s) = false)).
Proof.
  unfold mem_createIndex.
  destruct (match i with
            | UniqueSparse_lastfmId => has_dup same_id (scrobbles s)
            | Unique_trackTitle_artistName_scrobbledAt =>
                has_dup same_key (scrobbles s)
            | _ => false
            end) eqn:Hclash.
  { left. split; [reflexivity|]. destruct i; auto; discriminate. }
  right. destruct (has_index s i) eqn:Hi.
  - exists s. repeat split; auto; intros ->; exact Hclash.
  - eexists. split; [reflexivity|]. cbn.
    repeat split; try (intros ->; exact Hclash).
    + unfold has_index. cbn. destruct i; reflexivity.
    + intros j Hj. unfold has_index in *. cbn. rewrite Hj. apply orb_true_r.
Qed.

Local Ltac next_index :=
  unfold bind at 1; rewrite on_store_run;
  cbn [createIndex memdb store set_store].

Local Ltac index_fails H :=
  unfold post; cbn; repeat split; try congruence; left;
  (split; [reflexivity|]); destruct H as [H|H]; [left | right]; congruence.

(** The store once the indexes of [syncScrobbles] exist. *)
Lemma ensure_indexes_mem (w : World MemStore) :
  post (ensure_indexes memdb w) (fun r w1 =>
    only_store w w1
    /\ scrobbles (store w1) = scrobbles (store w)
    /\ meta (store w1) = meta (store w)
    /\ ((r = Throw dupKeyError
         /\ (has_dup same_id (scrobbles (store w)) = true
             \/ has_dup same_key (scrobbles (store w)) = true))
        \/ (r = Ok tt
            /\ has_index (store w1) UniqueSparse_lastfmId = true
            /\ has_index (store w1) Unique_trackTitle_artistName_scrobbledAt
               = true
            /\ has_dup same_id (scrobbles (store w)) = false
            /\ has_dup same_key (scrobbles (store w)) = false))).
Proof.
  unfold ensure_indexes.
  next_index.
  destruct (mem_createIndex_spec UniqueSparse_lastfmId (store w))
    as [[E1 C1]|(s1 & E1 & R1 & M1 & I1 & K1 & D1 & _)]; rewrite E1;
    cbn [fst snd Result_of]; [index_fails C1|].
  next_index.
  destruct (mem_createIndex_spec Unique_trackTitle_artistName_scrobbledAt s1)
    as [[E2 C2]|(s2 & E2 & R2 & M2 & I2 & K2 & _ & D2)]; rewrite E2;
    cbn [fst snd Result_of]; [index_fails C2|].
  next_index.
  destruct (mem_createIndex_spec Desc_scrobbledAt s2)
    as [[E3 C3]|(s3 & E3 & R3 & M3 & I3 & K3 & _ & _)]; rewrite E3;
    cbn [fst snd Result_of]; [index_fails C3|].
  next_index.
  destruct (mem_createIndex_spec Asc_artistName s3)
    as [[E4 C4]|(s4 & E4 & R4 & M4 & I4 & K4 & _ & _)]; rewrite E4;
    cbn [fst snd Result_of]; [index_fails C4|].
  rewrite on_store_run. cbn [createIndex memdb store set_store].
  destruct (mem_createIndex_spec Asc_albumTitle s4)
    as [[E5 C5]|(s5 & E5 & R5 & M5 & I5 & K5 & _ & _)]; rewrite E5;
    cbn [fst snd Result_of]; [index_fails C5|].
  unfold post. cbn.
  split; [repeat split|]. split; [congruence|]. split; [congruence|].
  right. split; [reflexivity|].
  split; [auto|]. split; [auto|]. split; [auto|].
  rewrite <- R1. auto.
Qed.

Lemma split_match_spec (f : Filter) (l : list Doc) :
  forall b m a,
    split_match f l = Some (b, m, a) ->
    l = (b ++ m :: a)%list /\ matches f m = true
    /\ existsb (matches f) b = false.
Proof.
  induction l as [|d l IH]; intros b m a H; simpl in H; [discriminate|].
  destruct (matches f d) eqn:Hd.
  - injection H as <- <- <-. auto.
  - destruct (split_match f l) as [[[b' m'] a']|]; [|discriminate].
    injection H as <- <- <-.
    destruct (IH b' m' a' eq_refl) as (-> & Hm & Hb).
    simpl. rewrite Hd. auto.
Qed.

Lemma split_match_none (f : Filter) (l : list Doc) :
  split_match f l = None <-> existsb (matches f) l = false.
Proof.
  induction l as [|d l IH]; simpl; [tauto|].
  destruct (matches f d); simpl.
  - split; discriminate.
  - destruct (split_match f l) as [[[b m] a]|].
    + split; [discriminate|]. intros H. apply IH in H. discriminate.
    + split; [intros _; apply IH; reflexivity | reflexivity].
Qed.

Lemma mem_updateOne_rows (f : Filter) (doc : Doc) (s : MemStore) :
  meta (snd (mem_updateOne f doc s)) = meta s
  /\ indexes (snd (mem_updateOne f doc s)) = indexes s
  /\ (forall d, In d (scrobbles (snd (mem_updateOne f doc s))) ->
                In d (scrobbles s) \/ d = doc)
  /\ (List.length (scrobbles (snd (mem_updateOne f doc s)))
      <= Datatypes.S (List.length (scrobbles s)))%nat.
Proof.
  unfold mem_updateOne.
  destruct (split_match f (scrobbles s)) as [[[b m] a]|] eqn:Hsplit.
  - destruct (split_match_spec f _ b m a Hsplit) as (Hl & _ & _).
    destruct (violates s doc (b ++ a)); cbn; repeat split; auto.
    + intros d Hin. rewrite Hl. apply in_app_or in Hin.
      destruct Hin as [Hin|[<-|Hin]]; auto;
        left; apply in_or_app; [left | right; right]; assumption.
    + rewrite Hl, !length_app. simpl. lia.
  - destruct (violates s doc (scrobbles s)); cbn; repeat split; auto.
    + intros d Hin. apply in_app_or in Hin.
      destruct Hin as [Hin|[<-|[]]]; auto.
    + rewrite length_app. simpl. lia.
Qed.

Lemma upsert_all_mem_rows (docs : list Doc) :
  forall (n : Z) (w : World MemStore) (m : Z) (w' : World MemStore),
    upsert_all memdb docs n w = (Ok m, w') ->
    (forall d, In d (scrobbles (store w')) ->
               In d (scrobbles (store w)) \/ In d docs)
    /\ (List.length (scrobbles (store w'))
        <= List.length (scrobbles (store w)) + List.length docs)%nat.
Proof.
  induction docs as [|doc docs IH]; intros n w m w' H.
  - cbn in H. injection H as <- <-. split; [auto | lia].
  - cbn [upsert_all] in H. fold (filter_of doc) in H.
    rewrite (bind_Ok _ _ _ _ _ (upsert_one_run memdb doc n w)) in H.
    apply IH in H. cbn [store set_store updateOne memdb] in H.
    destruct H as [Hin Hlen].
    destruct (mem_updateOne_rows (filter_of doc) doc (store w))
      as (_ & _ & Hrows & Hlen1).
    split.
    + intros d Hd. destruct (Hin d Hd) as [H1|H1].
      * destruct (Hrows d H1) as [H2|H2]; [left; exact H2 | right; left; auto].
      * right. right. exact H1.
    + cbn [List.length]. lia.
Qed.


Variable env : Env.

Lemma Forall2_In_r {A B} (R : A -> B -> Prop) (l : list A) (l' : list B) :
  Forall2 R l l' ->
  forall b, In b l' -> exists a, In a l /\ R a b.
Proof.
  induction 1 as [|a b l l' Hab _ IH]; intros x Hin; [destruct Hin|].
  destruct Hin as [<-|Hin].
  - exists a. split; [left; reflexivity | exact Hab].
  - destruct (IH x Hin) as (a' & Ha' & HR). exists a'. split; [right|]; auto.
Qed.

Lemma fetch_phase_post (fuel : nat) (client : LastFmClient) (t : Z)
    (w : World MemStore) :
  post (fetch_phase env fuel client t w) (fun r w' =>
    same_process w w'
    /\ (exists new,
          requests w' = (new ++ requests w)%list
          /\ Forall page_request new
          /\ (t = 0 -> (List.length new <= 10)%nat))
    /\ (t = 0 -> r <> OutOfFuel)
    /\ (cache_ok env w ->
        forall l, r = Ok l ->
          Forall (fun s => upstream_entry env s /\ completed s) l
          /\ (t = 0 -> forall n, page_size_bounded env n ->
                                 (List.length l <= 10 * n)%nat))).
Proof.
  unfold fetch_phase. destruct (t =? 0) eqn:Ht.
  - unfold getAllRecentTracks.
    pose proof (getAllRecentTracks_loop_post env client 10 (Z.to_nat 10) 1 true [] w)
      as H.
    pose proof (getAllRecentTracks_loop_terminates env client 10 (Z.to_nat 10) 1
                  true [] w) as Hterm.
    unfold post in *.
    destruct H as (H1 & (new & Hreq & Hlen & Hall) & H3).
    split; [exact H1|]. split.
    + exists new. repeat split; auto.
    + split; [intros _; apply Hterm; simpl; lia|].
      intros Hok l Hl. destruct (H3 Hok) as [_ Hres].
      destruct (Hres l Hl) as (l' & -> & Hl' & Hbound).
      split; [exact Hl'|]. intros _ n Hn. apply (Hbound n Hn).
  - unfold getNewScrobbles.
    pose proof (getNewScrobbles_loop_post env client
                  (JS.floor_div (JS.getTime (Some t)) 1000) fuel 1 true [] w) as H.
    unfold post in *.
    destruct H as (H1 & (new & Hreq & Hlen & Hall) & H3).
    apply Z.eqb_neq in Ht.
    split; [exact H1|]. split.
    + exists new. repeat split; auto. intros; contradiction.
    + split; [intros; contradiction|].
      intros Hok l Hl. destruct (H3 Hok) as [_ Hres].
      destruct (Hres l Hl) as (l' & -> & Hl' & Hbound).
      split; [exact Hl'|]. intros; contradiction.
Qed.

Lemma persist_phase_mem (l : list Track) (w : World MemStore) :
  exists r w',
    persist_phase env memdb l w = (Ok r, w')
    /\ requests w' = requests w
    /\ 0 <= synced r <= Z.of_nat (List.length l)
    /\ (forall doc, In doc (scrobbles (store w')) ->
           In doc (scrobbles (store w))
           \/ exists s, In s l /\ @is_transform MemStore env s doc)
    /\ (List.length (scrobbles (store w'))
        <= List.length (scrobbles (store w)) + List.length l)%nat.
Proof.
  unfold persist_phase. destruct l as [|s l].
  - eexists. exists w. split; [reflexivity|]. cbn.
    repeat split; auto; lia.
  - destruct (map_transform_run env (s :: l) w)
      as (docs & w1 & Hm & (Hr1 & _ & Hs1 & _) & Hall).
    rewrite (bind_Ok _ _ _ _ _ Hm).
    destruct (upsert_all_run memdb docs 0 w1) as (m & w2 & Hu & Hfr & Hm2).
    rewrite (bind_Ok _ _ _ _ _ Hu).
    destruct (upsert_all_mem_rows docs 0 w1 m w2 Hu) as [Hrows Hlen].
    destruct Hfr as (_ & Hr2 & _).
    eexists. exists w2. split; [reflexivity|]. cbn [synced].
    rewrite (Forall2_length Hall).
    split; [congruence|]. split; [lia|]. split.
    + intros doc Hd. destruct (Hrows doc Hd) as [H|H].
      * left. rewrite <- Hs1. exact H.
      * right. destruct (Forall2_In_r _ _ _ Hall doc H) as (s' & Hin & Ht).
        exists s'. auto.
    + rewrite Hs1 in Hlen. exact Hlen.
Qed.


(** Anatomy of one run of [syncScrobbles] against the reference store. *)
Lemma syncScrobbles_mem_post (fuel : nat) (client : LastFmClient)
    (w : World MemStore) :
  cache_ok env w ->
  post (syncScrobbles env fuel memdb client w) (fun r w' =>
    rows_from_completed env w w'
    /\ (exists new,
          requests w' = (new ++ requests w)%list
          /\ Forall page_request new
          /\ (scrobbles (store w) = [] -> (List.length new <= 10)%nat))
    /\ (scrobbles (store w) = [] -> r <> OutOfFuel)
    /\ (scrobbles (store w) = [] ->
        page_size_bounded env 200 ->
        (List.length (scrobbles (store w')) <= 2000)%nat
        /\ forall res, r = Ok res -> synced res <= 2000)).
Proof.
  intros Hok. rewrite syncScrobbles_phases.
  assert (Hleaf : forall (r : Result SyncResult) (w' : World MemStore),
             scrobbles (store w') = scrobbles (store w) ->
             (exists new, requests w' = (new ++ requests w)%list
                          /\ Forall page_request new
                          /\ (scrobbles (store w) = [] ->
                              (List.length new <= 10)%nat)) ->
             (forall res, r <> Ok res) -> r <> OutOfFuel ->
             post (r, w') (fun r w' =>
               rows_from_completed env w w'
               /\ (exists new,
                     requests w' = (new ++ requests w)%list
                     /\ Forall page_request new
                     /\ (scrobbles (store w) = [] ->
                         (List.length new <= 10)%nat))
               /\ (scrobbles (store w) = [] -> r <> OutOfFuel)
               /\ (scrobbles (store w) = [] ->
                   page_size_bounded env 200 ->
                   (List.length (scrobbles (store w')) <= 2000)%nat
                   /\ forall res, r = Ok res -> synced res <= 2000))).
  { intros r w' Hrows Hreq Hr Hr'. unfold post. cbn.
    split; [intros doc Hd; left; rewrite <- Hrows; exact Hd|].
    split; [exact Hreq|]. split; [auto|].
    intros Hnil _. rewrite Hrows, Hnil. split; [simpl; lia|].
    intros res Hres. destruct (Hr res Hres). }
  pose proof (ensure_indexes_mem w) as H1. unfold post in H1.
  unfold bind at 1.
  destruct (ensure_indexes memdb w) as [[[]|e|] w1]; cbn [fst snd] in H1;
    destruct H1 as ((_ & Hq1 & Hc1 & _) & Hrows1 & _ & Hcase).
  2:{ apply Hleaf; [exact Hrows1 | | discriminate | discriminate].
      exists []. rewrite Hq1. repeat split; [constructor | simpl; lia]. }
  2:{ destruct Hcase as [[Hc _]|[Hc _]]; discriminate. }
  unfold bind at 1. rewrite on_store_run.
  cbn [findLatest memdb mem_findLatest fst snd Result_of].
  set (w2 := set_store (store w1) w1).
  assert (Hrows2 : scrobbles (store w2) = scrobbles (store w)) by exact Hrows1.
  assert (Hq2 : requests w2 = requests w) by exact Hq1.
  assert (Hok2 : cache_ok env w2).
  { intros k d t Hin. apply (Hok k d t). rewrite <- Hc1. exact Hin. }
  destruct (latestDate_of (latest_of (scrobbles (store w1)) None)) as [t|] eqn:Hdate.
  2:{ apply Hleaf; [exact Hrows2 | | discriminate | discriminate].
      exists []. rewrite Hq2. repeat split; [constructor | simpl; lia]. }
  assert (Ht : scrobbles (store w) = [] -> t = 0).
  { intros Hnil. rewrite Hrows1, Hnil in Hdate. cbn in Hdate.
    injection Hdate as <-. reflexivity. }
  pose proof (fetch_phase_post fuel client t w2) as Hf. unfold post in Hf.
  unfold bind at 1.
  destruct (fetch_phase env fuel client t w2) as [[l|e|] w3]; cbn [fst snd] in Hf;
    destruct Hf as ((Hs3 & _) & (new & Hq3 & Hpage & Hlen) & Hfuel & Hres).
  2:{ apply Hleaf; [congruence | | discriminate | discriminate].
      exists new. rewrite Hq3, Hq2. repeat split; auto. }
  2:{ unfold post. cbn.
      split; [intros doc Hd; left; rewrite Hs3, Hrows2 in Hd; exact Hd|].
      split; [exists new; rewrite Hq3, Hq2; repeat split; auto|].
      split; [intros Hnil _; apply (Hfuel (Ht Hnil)); reflexivity|].
      intros Hnil _. rewrite Hs3, Hrows2, Hnil.
      split; [simpl; lia | discriminate]. }
  destruct (Hres Hok2 l eq_refl) as [Hall Hbound].
  destruct (persist_phase_mem l w3) as (r & w4 & Hp & Hq4 & Hsynced & Hrows4 & Hlen4).
  rewrite Hp. unfold post. cbn [fst snd].
  split.
  { intros doc Hd. destruct (Hrows4 doc Hd) as [H|(s & Hin & Htr)].
    - left. rewrite Hs3, Hrows2 in H. exact H.
    - right. exists s. rewrite Forall_forall in Hall.
      destruct (Hall s Hin). auto. }
  split; [exists new; rewrite Hq4, Hq3, Hq2; repeat split; auto|].
  split; [discriminate|].
  intros Hnil Hsize.
  specialize (Hbound (Ht Hnil) 200%nat Hsize).
  rewrite Hs3, Hrows2, Hnil in Hlen4. simpl in Hlen4.
  split; [lia|]. intros res Hr. injection Hr as <-. lia.
Qed.


Lemma Date_eqb_eq (a b : JS.Date) : Date_eqb a b = true -> a = b.
Proof.
  destruct a, b; simpl; try discriminate; auto.
  intros H. apply Z.eqb_eq in H. congruence.
Qed.

Lemma matches_filter_of (doc m : Doc) :
  matches (filter_of doc) m = true ->
  trackTitle m = trackTitle doc
  /\ artistName m = artistName doc
  /\ scrobbledAt m = scrobbledAt doc.
Proof.
  unfold matches, filter_of. cbn. intros H.
  apply andb_true_iff in H. destruct H as [H H3].
  apply andb_true_iff in H. destruct H as [H1 H2].
  apply String.eqb_eq in H1, H2. apply Date_eqb_eq in H3. auto.
Qed.

Lemma Date_eqb_sym (a b : JS.Date) : Date_eqb a b = Date_eqb b a.
Proof. destruct a, b; simpl; auto. apply Z.eqb_sym. Qed.

Lemma same_key_sym (a b : Doc) : same_key a b = same_key b a.
Proof.
  unfold same_key.
  rewrite (String.eqb_sym (trackTitle a)), (String.eqb_sym (artistName a)),
    (Date_eqb_sym (scrobbledAt a)). reflexivity.
Qed.

Lemma same_id_sym (a b : Doc) : same_id a b = same_id b a.
Proof. unfold same_id. apply String.eqb_sym. Qed.

Lemma existsb_ext {A} (f g : A -> bool) :
  (forall x, f x = g x) -> forall l, existsb f l = existsb g l.
Proof.
  intros H l. induction l as [|x l IH]; simpl; [reflexivity|].
  rewrite H, IH. reflexivity.
Qed.

Lemma has_dup_middle (eqb : Doc -> Doc -> bool) (b a : list Doc) (m : Doc) :
  (forall x y, eqb x y = eqb y x) ->
  has_dup eqb (b ++ m :: a) = false ->
  existsb (eqb m) (b ++ a) = false.
Proof.
  intros Hsym. induction b as [|x b IH]; simpl; intros H.
  - apply orb_false_iff in H. tauto.
  - apply orb_false_iff in H. destruct H as [Hx H].
    rewrite existsb_app in Hx. apply orb_false_iff in Hx.
    destruct Hx as [_ Hx]. simpl in Hx. apply orb_false_iff in Hx.
    rewrite (Hsym m x). rewrite (proj1 Hx). simpl. apply IH. exact H.
Qed.

Lemma has_dup_replace (eqb : Doc -> Doc -> bool) (b a : list Doc)
    (m doc : Doc) :
  (forall x, eqb doc x = eqb m x) ->
  (forall x, eqb x doc = eqb x m) ->
  has_dup eqb (b ++ doc :: a) = has_dup eqb (b ++ m :: a).
Proof.
  intros Hl Hr. induction b as [|x b IH]; simpl.
  - rewrite (existsb_ext _ _ Hl a). reflexivity.
  - rewrite IH, !existsb_app. simpl. rewrite Hr. reflexivity.
Qed.

(** An upsert whose key is already stored overwrites that row: it
    succeeds and the number of rows stays the same. *)
Lemma mem_updateOne_refresh (doc : Doc) (s : MemStore) :
  has_dup same_key (scrobbles s) = false ->
  has_dup same_id (scrobbles s) = false ->
  Forall well_keyed (scrobbles s) ->
  well_keyed doc ->
  existsb (matches (filter_of doc)) (scrobbles s) = true ->
  exists s',
    mem_updateOne (filter_of doc) doc s = (Returned tt, s')
    /\ List.length (scrobbles s') = List.length (scrobbles s)
    /\ has_dup same_key (scrobbles s') = false
    /\ has_dup same_id (scrobbles s') = false
    /\ Forall well_keyed (scrobbles s')
    /\ (forall f, existsb (matches f) (scrobbles s')
                  = existsb (matches f) (scrobbles s)).
Proof.
  intros Hkey Hid Hwk Hdoc Hex. unfold mem_updateOne.
  destruct (split_match (filter_of doc) (scrobbles s)) as [[[b m] a]|] eqn:Hsplit.
  2:{ apply split_match_none in Hsplit. congruence. }
  destruct (split_match_spec _ _ b m a Hsplit) as (Hl & Hm & _).
  destruct (matches_filter_of doc m Hm) as (Ht & Ha & Hd).
  assert (Hm_wk : well_keyed m).
  { rewrite Forall_forall in Hwk. apply Hwk. rewrite Hl.
    apply in_or_app. right. left. reflexivity. }
  assert (Hsame_id : lastfmId doc = lastfmId m).
  { unfold well_keyed in Hdoc, Hm_wk. rewrite Hdoc, Hm_wk, Ht, Ha, Hd.
    reflexivity. }
  assert (Hk_l : forall x, same_key doc x = same_key m x).
  { intros x. unfold same_key. rewrite Ht, Ha, Hd. reflexivity. }
  assert (Hk_r : forall x, same_key x doc = same_key x m).
  { intros x. rewrite !(same_key_sym x). apply Hk_l. }
  assert (Hi_l : forall x, same_id doc x = same_id m x).
  { intros x. unfold same_id. rewrite Hsame_id. reflexivity. }
  assert (Hi_r : forall x, same_id x doc = same_id x m).
  { intros x. rewrite !(same_id_sym x). apply Hi_l. }
  rewrite Hl in Hkey, Hid.
  assert (Hv : violates s doc (b ++ a) = false).
  { unfold violates.
    rewrite (existsb_ext _ _ Hi_l (b ++ a)), (existsb_ext _ _ Hk_l (b ++ a)).
    rewrite (has_dup_middle same_id b a m same_id_sym Hid).
    rewrite (has_dup_middle same_key b a m same_key_sym Hkey).
    rewrite !andb_false_r. reflexivity. }
  rewrite Hv. eexists. split; [reflexivity|]. cbn [scrobbles].
  split; [rewrite Hl, !length_app; reflexivity|].
  split; [rewrite (has_dup_replace same_key b a m doc Hk_l Hk_r); exact Hkey|].
  split; [rewrite (has_dup_replace same_id b a m doc Hi_l Hi_r); exact Hid|].
  split.
  - rewrite Hl in Hwk. apply Forall_app in Hwk. destruct Hwk as [Hb Hma].
    apply Forall_app. split; [exact Hb|].
    inversion Hma; subst. constructor; assumption.
  - intros f. rewrite Hl, !existsb_app. simpl.
    assert (Hf : matches f doc = matches f m)
      by (unfold matches; rewrite Ht, Ha, Hd; reflexivity).
    rewrite Hf. reflexivity.
Qed.

Lemma upsert_all_refresh (docs : list Doc) :
  forall (n : Z) (w : World MemStore),
    has_dup same_key (scrobbles (store w)) = false ->
    has_dup same_id (scrobbles (store w)) = false ->
    Forall well_keyed (scrobbles (store w)) ->
    Forall (fun doc =>
              well_keyed doc
              /\ existsb (matches (filter_of doc)) (scrobbles (store w)) = true)
           docs ->
    exists w',
      upsert_all memdb docs n w = (Ok (n + Z.of_nat (List.length docs)), w')
      /\ requests w' = requests w
      /\ List.length (scrobbles (store w')) = List.length (scrobbles (store w)).
Proof.
  induction docs as [|doc docs IH]; intros n w Hkey Hid Hwk Hdocs.
  - exists w. cbn. rewrite Z.add_0_r. auto.
  - inversion Hdocs as [|? ? [Hdoc Hex] Hrest]; subst.
    destruct (mem_updateOne_refresh doc (store w) Hkey Hid Hwk Hdoc Hex)
      as (s' & Hup & Hlen & Hkey' & Hid' & Hwk' & Hsame).
    cbn [upsert_all]. fold (filter_of doc).
    rewrite (bind_Ok _ _ _ _ _ (upsert_one_run memdb doc n w)).
    cbn [updateOne memdb]. rewrite Hup. cbn [fst snd].
    destruct (IH (n + 1) (set_store s' w)) as (w' & Hrun & Hreq & Hlen');
      try assumption.
    { eapply Forall_impl; [|exact Hrest]. cbn. intros d [Hd He].
      split; [exact Hd|]. rewrite Hsame. exact He. }
    exists w'. split.
    + rewrite Hrun. f_equal. f_equal. cbn [List.length].
      rewrite Nat2Z.inj_succ. lia.
    + split; [exact Hreq|]. cbn in Hlen'. congruence.
Qed.

Lemma Forall2_Forall_r {A B} (R : A -> B -> Prop) (P : B -> Prop)
    (l : list A) (l' : list B) :
  Forall2 R l l' ->
  (forall a b, In a l -> R a b -> P b) ->
  Forall P l'.
Proof.
  induction 1 as [|a b l l' Hab _ IH]; intros H; constructor.
  - apply (H a b); [left; reflexivity | exact Hab].
  - apply IH. intros a' b' Hin. apply H. right. exact Hin.
Qed.

(** A cycle over data that is all stored already: every fetched play
    is upserted successfully and counted, and no row is added. *)
Lemma syncScrobbles_refresh_only (fuel : nat) (client : LastFmClient)
    (w w' : World MemStore) (r : SyncResult) :
  cache_ok env w ->
  Forall well_keyed (scrobbles (store w)) ->
  (forall s, upstream_entry env s -> completed s -> stored env (store w) s) ->
  syncScrobbles env fuel memdb client w = (Ok r, w') ->
  List.length (scrobbles (store w')) = List.length (scrobbles (store w))
  /\ exists t fetched w2,
       watermark w = Some t
       /\ fetch_phase env fuel client t (at_fetch w) = (Ok fetched, w2)
       /\ synced r = Z.of_nat (List.length fetched)
       /\ error r = None.
Proof.
  intros Hok Hwk Hstored Hrun. rewrite syncScrobbles_phases in Hrun.
  apply bind_inv in Hrun.
  destruct Hrun as [(u & w1 & He & Hrun)|[(e & _ & Hbad)|(_ & Hbad)]];
    try discriminate.
  pose proof (ensure_indexes_mem w) as Hidx. unfold post in Hidx.
  unfold watermark, at_fetch. rewrite He in Hidx |- *. cbn [fst snd] in Hidx |- *.
  destruct Hidx as ((_ & _ & Hc1 & _) & Hrows1 & _ & Hcase).
  destruct Hcase as [[Hc _]|(_ & _ & _ & Hid & Hkey)]; [discriminate|].
  apply bind_inv in Hrun.
  destruct Hrun as [(latest & w2 & Hl & Hrun)|[(e & _ & Hbad)|(_ & Hbad)]];
    try discriminate.
  rewrite on_store_run in Hl.
  cbn [findLatest memdb mem_findLatest fst snd Result_of] in Hl.
  injection Hl as <- <-. rewrite Hrows1 in Hrun.
  destruct (latestDate_of (latest_of (scrobbles (store w)) None)) as [t|];
    [|discriminate].
  apply bind_inv in Hrun.
  destruct Hrun as [(fetched & w3 & Hf & Hrun)|[(e & _ & Hbad)|(_ & Hbad)]];
    try discriminate.
  pose proof (fetch_phase_post fuel client t (set_store (store w1) w1)) as Hpost.
  unfold post in Hpost. rewrite Hf in Hpost. cbn [fst snd] in Hpost.
  destruct Hpost as ((Hs3 & _) & _ & _ & Hres).
  assert (Hok2 : cache_ok env (set_store (store w1) w1)).
  { intros k d t0 Hin. apply (Hok k d t0). rewrite <- Hc1. exact Hin. }
  destruct (Hres Hok2 fetched eq_refl) as [Hall _].
  assert (Hrows3 : scrobbles (store w3) = scrobbles (store w))
    by (rewrite Hs3; exact Hrows1).
  unfold persist_phase in Hrun. destruct fetched as [|s l].
  - injection Hrun as <- <-. split; [congruence|].
    exists t, [], w3. auto.
  - destruct (map_transform_run env (s :: l) w3)
      as (docs & w4 & Hm & (_ & _ & Hs4 & _) & Hdocs).
    rewrite (bind_Ok _ _ _ _ _ Hm) in Hrun.
    assert (Hrows4 : scrobbles (store w4) = scrobbles (store w)) by congruence.
    destruct (upsert_all_refresh docs 0 w4) as (w5 & Hu & _ & Hlen).
    { rewrite Hrows4. exact Hkey. }
    { rewrite Hrows4. exact Hid. }
    { rewrite Hrows4. exact Hwk. }
    { apply (Forall2_Forall_r _ _ _ _ Hdocs). intros a doc Hin Htr.
      rewrite Forall_forall in Hall. destruct (Hall a Hin) as [Hup Hcomp].
      destruct (Hstored a Hup Hcomp) as [Hdate Hex].
      destruct (is_transform_props env a doc Htr) as (Ht & Ha & Hwkd & Hd).
      split; [exact Hwkd|]. rewrite Hrows4.
      unfold filter_of. rewrite Ht, Ha, (Hd Hdate). exact Hex. }
    rewrite (bind_Ok _ _ _ _ _ Hu) in Hrun. injection Hrun as <- <-.
    split; [congruence|].
    exists t, (s :: l), w3. cbn [synced error].
    rewrite (Forall2_length Hdocs). auto.
Qed.

(** With a healthy upstream, enough time and a store whose rows are
    distinct and dated, a cycle returns a result. *)
Lemma syncScrobbles_returns (fuel : nat) (client : LastFmClient) (N : Z)
    (w : World MemStore) :
  healthy env ->
  pages_bounded env N ->
  Z.max 1 N <= Z.of_nat fuel ->
  cache_ok env w ->
  has_dup same_id (scrobbles (store w)) = false ->
  has_dup same_key (scrobbles (store w)) = false ->
  watermark w <> None ->
  exists r w', syncScrobbles env fuel memdb client w = (Ok r, w').
Proof.
  intros Hh HN Hfuel Hok Hid Hkey Hwm. rewrite syncScrobbles_phases.
  pose proof (ensure_indexes_mem w) as H1. unfold post in H1.
  unfold bind at 1.
  destruct (ensure_indexes memdb w) as [[[]|e|] w1]; cbn [fst snd] in H1;
    destruct H1 as ((_ & _ & Hc1 & _) & Hrows1 & _ & Hcase).
  2:{ destruct Hcase as [[_ [Hc|Hc]]|[Hc _]]; congruence. }
  2:{ destruct Hcase as [[Hc _]|[Hc _]]; discriminate. }
  unfold bind at 1. rewrite on_store_run.
  cbn [findLatest memdb mem_findLatest fst snd Result_of].
  unfold watermark in Hwm. rewrite Hrows1.
  destruct (latestDate_of (latest_of (scrobbles (store w)) None)) as [t|];
    [|contradiction].
  set (w2 := set_store (store w1) w1).
  assert (Hok2 : cache_ok env w2).
  { intros k d t0 Hin. apply (Hok k d t0). rewrite <- Hc1. exact Hin. }
  pose proof (fetch_phase_terminates env fuel client t N w2 HN Hfuel Hok2) as Hterm.
  assert (Hnothrow : forall e, fst (fetch_phase env fuel client t w2) <> Throw e).
  { intros e. unfold fetch_phase. destruct (t =? 0).
    - apply getAllRecentTracks_loop_healthy. exact Hh.
    - apply getNewScrobbles_loop_healthy. exact Hh. }
  unfold bind at 1.
  destruct (fetch_phase env fuel client t w2) as [[l|e|] w3]; cbn [fst snd] in *.
  - destruct (persist_phase_mem l w3) as (r & w4 & Hp & _).
    exists r, w4. exact Hp.
  - destruct (Hnothrow e eq_refl).
  - contradiction.
Qed.

End MemDbFacts.

(** ** First sync and the "now playing" entry *)

Section FirstSync.
Import Utils Client Sync MemDb.

(** C6.  The first sync (no row stored yet) issues at most 10 page
    requests, each for 200 items, and comes to an end; when the
    upstream keeps to the page size, at most 2,000 rows are stored and
    at most 2,000 are reported.  In every cycle, first or later, each
    row of the store afterwards either was there before or is the
    transformation of an upstream entry without the "now playing"
    marker: entries carrying the marker are never persisted. *)
Theorem first_sync_capped_and_now_playing_excluded :
  forall (env : Env) (fuel : nat) (client : LastFmClient)
         (w : World MemStore),
    cache_ok env w ->
    (scrobbles (store w) = [] ->
     (exists new,
        requests (snd (syncScrobbles env fuel memdb client w))
        = (new ++ requests w)%list
        /\ (List.length new <= 10)%nat
        /\ Forall page_request new)
     /\ fst (syncScrobbles env fuel memdb client w) <> OutOfFuel
     /\ (page_size_bounded env 200 ->
         (List.length
            (scrobbles (store (snd (syncScrobbles env fuel memdb client w))))
          <= 2000)%nat
         /\ forall res,
              fst (syncScrobbles env fuel memdb client w) = Ok res ->
              synced res <= 2000))
    /\ (forall doc,
          In doc (scrobbles (store (snd (syncScrobbles env fuel memdb client w)))) ->
          In doc (scrobbles (store w))
          \/ exists s,
               upstream_entry env s
               /\ JS.truthy_str (attr_nowplaying s) = false
               /\ @is_transform MemStore env s doc).
Proof.
  intros env fuel client w Hok.
  destruct (syncScrobbles_mem_post env fuel client w Hok)
    as (Hrows & (new & Hreq & Hpage & Hlen) & Hfuel & Hcap).
  split; [|exact Hrows].
  intros Hnil. split; [exists new; auto|]. split; [auto|].
  intros Hsize. exact (Hcap Hnil Hsize).
Qed.

Lemma serve_from_entries (history : list Track) (s : Track) :
  upstream_entry (Examples.env_of (Examples.serve_from history)) s ->
  In s history.
Proof.
  intros (data & (n & req & r & Hr & Hbody) & Hin).
  cbn in Hr. unfold Examples.serve_from in Hr. injection Hr as <-.
  cbn in Hbody. injection Hbody as <-. cbn in Hin.
  apply filter_In in Hin. tauto.
Qed.

Lemma serve_from_page_size (history : list Track) (n : nat) :
  (List.length history <= n)%nat ->
  page_size_bounded (Examples.env_of (Examples.serve_from history)) n.
Proof.
  intros Hlen k req r data Hr Hbody.
  cbn in Hr. unfold Examples.serve_from in Hr. injection Hr as <-.
  cbn in Hbody. injection Hbody as <-. cbn.
  pose proof (filter_length_le
                (fun t => match p_from (r_params req) with
                          | Some f => f
                          | None => 0
                          end <=? Examples.uts_of t) history).
  lia.
Qed.

Lemma first_sync_capped_and_now_playing_excluded_witness :
  fst (syncScrobbles Examples.env_now_playing 10 memdb Examples.client0
         Examples.world0) <> OutOfFuel
  /\ (List.length
        (scrobbles
           (store (snd (syncScrobbles Examples.env_now_playing 10 memdb
                          Examples.client0 Examples.world0))))
      <= 2000)%nat
  /\ (forall doc,
        In doc
           (scrobbles
              (store (snd (syncScrobbles Examples.env_now_playing 10 memdb
                             Examples.client0 Examples.world0)))) ->
        exists s, JS.truthy_str (attr_nowplaying s) = false
                  /\ @is_transform MemStore Examples.env_now_playing s doc).
Proof.
  destruct (first_sync_capped_and_now_playing_excluded
              Examples.env_now_playing 10%nat Examples.client0 Examples.world0
              (cache_nil_ok Examples.env_now_playing Examples.world0 eq_refl))
    as [Hfirst Hrows].
  destruct (Hfirst eq_refl) as (_ & Hfuel & Hcap).
  split; [exact Hfuel|]. split.
  - apply Hcap. apply serve_from_page_size. simpl. lia.
  - intros doc Hin. destruct (Hrows doc Hin) as [H|(s & _ & Hc & Ht)].
    + destruct H.
    + exists s. auto.
Defined.

End FirstSync.

(** ** Running the sync twice *)

Section Resync.
Import Utils Client Sync MemDb.

(** C1.  The code at a store left by a completed cycle, with one
    play upstream and nothing added between the runs: the first run
    stores the play and reports 1; the second run asks for the plays
    from the second of the stored one on, is served that play again,
    overwrites its row and reports 1 as well, although no event was
    newly written and the store holds one row as before.  Likewise a
    page that delivers one play twice is reported as 2 while one row is
    written.  The count is meant to be that of the new plays
    ("New scrobbles", "Synced n new scrobbles"). *)
Lemma second_run_reports_refreshed_row :
fst (runSync Examples.env_one_play Examples.getAllStats0 10
       Examples.indiekit0 Examples.options0 Examples.world0)
= Ok {| synced := 1; error := None |}
/\ fst (runSync Examples.env_one_play Examples.getAllStats0 10
          Examples.indiekit0 Examples.options0
          (snd (runSync Examples.env_one_play Examples.getAllStats0 10
                  Examples.indiekit0 Examples.options0 Examples.world0)))
   = Ok {| synced := 1; error := None |}
/\ List.length
     (scrobbles
        (store
           (snd (runSync Examples.env_one_play Examples.getAllStats0 10
                   Examples.indiekit0 Examples.options0
                   (snd (runSync Examples.env_one_play Examples.getAllStats0
                           10 Examples.indiekit0 Examples.options0
                           Examples.world0))))))
   = 1%nat
/\ map (fun q => p_from (r_params q))
     (requests
        (snd (runSync Examples.env_one_play Examples.getAllStats0 10
                Examples.indiekit0 Examples.options0
                (snd (runSync Examples.env_one_play Examples.getAllStats0
                        10 Examples.indiekit0 Examples.options0
                        Examples.world0)))))
   = [Some 1700000000; None]
/\ fst (runSync Examples.env_repeated Examples.getAllStats0 10
          Examples.indiekit0 Examples.options0 Examples.world0)
   = Ok {| synced := 2; error := None |}
/\ List.length
     (scrobbles
        (store
           (snd (runSync Examples.env_repeated Examples.getAllStats0 10
                   Examples.indiekit0 Examples.options0 Examples.world0))))
   = 1%nat.
Proof. repeat split; vm_compute; reflexivity. Qed.

(** What the code does whenever the upstream holds no new data, that
    is, when every completed play it serves is already stored (and the
    stored rows carry the identifier derived from their key): a cycle
    that returns adds no row and reports the number of plays the fetch
    delivered again, zero exactly when the fetch delivers none.  With a
    healthy upstream, a bounded page count, enough time and rows that
    do not collide, the cycle does return. *)
Theorem resync_reports_redelivered_plays :
  forall (env : Env) (fuel : nat) (client : LastFmClient)
         (w : World MemStore) (N : Z),
    cache_ok env w ->
    Forall well_keyed (scrobbles (store w)) ->
    (forall s, upstream_entry env s -> completed s -> stored env (store w) s) ->
    (forall r w',
       syncScrobbles env fuel memdb client w = (Ok r, w') ->
       List.length (scrobbles (store w')) = List.length (scrobbles (store w))
       /\ exists t fetched w2,
            watermark w = Some t
            /\ fetch_phase env fuel client t (at_fetch w) = (Ok fetched, w2)
            /\ synced r = Z.of_nat (List.length fetched)
            /\ (synced r = 0 <-> fetched = []))
    /\ (healthy env ->
        pages_bounded env N ->
        Z.max 1 N <= Z.of_nat fuel ->
        has_dup same_id (scrobbles (store w)) = false ->
        has_dup same_key (scrobbles (store w)) = false ->
        watermark w <> None ->
        exists r w', syncScrobbles env fuel memdb client w = (Ok r, w')).
Proof.
  intros env fuel client w N Hok Hwk Hstored. split.
  - intros r w' Hrun.
    destruct (syncScrobbles_refresh_only env fuel client w w' r Hok Hwk Hstored Hrun)
      as (Hlen & t & fetched & w2 & Hw & Hf & Hs & _).
    split; [exact Hlen|]. exists t, fetched, w2.
    split; [exact Hw|]. split; [exact Hf|]. split; [exact Hs|].
    rewrite Hs. destruct fetched; simpl; split; intros H;
      try reflexivity; try discriminate; lia.
  - intros Hh HN Hfuel Hid Hkey Hwm.
    exact (syncScrobbles_returns env fuel client N w Hh HN Hfuel Hok Hid Hkey Hwm).
Qed.

Lemma resync_reports_redelivered_plays_witness :
  exists r w',
    syncScrobbles Examples.env_one_play 10 memdb Examples.client0
      Examples.world_after_first_sync = (Ok r, w')
    /\ List.length (scrobbles (store w')) = 1%nat.
Proof.
  destruct (resync_reports_redelivered_plays Examples.env_one_play 10%nat
              Examples.client0 Examples.world_after_first_sync 1)
    as [Hcount Hreturns].
  - apply cache_nil_ok. reflexivity.
  - repeat constructor.
  - intros s Hup _. apply serve_from_entries in Hup.
    destruct Hup as [<-|[]]. split; vm_compute; reflexivity.
  - destruct Hreturns as (r & w' & Hrun).
    + intros n req. eexists. eexists. split; [reflexivity|].
      repeat split; reflexivity.
    + intros n req r data Hr Hbody.
      cbn in Hr. unfold Examples.serve_from in Hr. injection Hr as <-.
      cbn in Hbody. injection Hbody as <-. vm_compute. discriminate.
    + vm_compute. discriminate.
    + reflexivity.
    + reflexivity.
    + vm_compute. discriminate.
    + exists r, w'. split; [exact Hrun|].
      exact (proj1 (Hcount r w' Hrun)).
Defined.

End Resync.

(** ** Entries without a date *)

Section Dateless.
Import Utils Client Sync MemDb.





End Dateless.

(* ================================================================== *)
(** * Further properties of the code *)

Import Notions.

(** ** Normalising an entry (lib/utils.js) *)

Section Normalisers.
Import Utils.

(** X1. [getArtistName] reads the artist in its three shapes, the
    extended [name] first, and falls back to "Unknown Artist"; the only
    entry it gives an empty name is one whose artist is the empty
    string itself. *)
Theorem getArtistName_shapes :
  forall (t : Track) (x : string),
    x <> "" ->
    (forall text mbid,
       t_artist t = ArtistObject (Some x) text mbid ->
       getArtistName (Some t) = x)
    /\ (forall name mbid,
          JS.truthy_str name = false ->
          t_artist t = ArtistObject name (Some x) mbid ->
          getArtistName (Some t) = x)
    /\ (t_artist t = ArtistString x -> getArtistName (Some t) = x)
    /\ (forall name text mbid,
          JS.truthy_str name = false ->
          JS.truthy_str text = false ->
          t_artist t = ArtistObject name text mbid ->
          getArtistName (Some t) = "Unknown Artist")
    /\ (t_artist t = ArtistAbsent -> getArtistName (Some t) = "Unknown Artist")
    /\ getArtistName None = "Unknown Artist"
    /\ (getArtistName (Some t) = "" <-> t_artist t = ArtistString "").
Proof.
  intros t x Hx. unfold getArtistName.
  destruct x as [|c r]; [congruence|].
  repeat split.
  - intros text mbid H. rewrite H. reflexivity.
  - intros name mbid Hn H. rewrite H. cbn.
    destruct name as [[|c' r']|]; cbn in Hn; try discriminate; reflexivity.
  - intros H. rewrite H. reflexivity.
  - intros name text mbid Hn Ht H. rewrite H. cbn.
    destruct name as [[|c1 r1]|]; cbn in Hn; try discriminate;
      destruct text as [[|c2 r2]|]; cbn in Ht; try discriminate; reflexivity.
  - intros H. rewrite H. reflexivity.
  - destruct (t_artist t) as [|s|name text mbid]; cbn.
    + discriminate.
    + intros H. rewrite H. reflexivity.
    + destruct name as [[|c1 r1]|]; destruct text as [[|c2 r2]|];
        discriminate.
  - intros H. rewrite H. reflexivity.
Qed.

Lemma getArtistName_shapes_witness :
  getArtistName (Some Examples.dateless) = "Band".
Proof.
  refine (proj1 (getArtistName_shapes Examples.dateless "Band" _) None None _).
  - discriminate.
  - reflexivity.
Defined.

Lemma or_null_nonempty (a : option string) : JS.or_null a <> Some "".
Proof. destruct a as [[|c r]|]; cbn; discriminate. Qed.

Lemma try_sizes_In (image : list ImageVariant) (sizes : list string) (u : string) :
  try_sizes image sizes = Some u ->
  exists img, In img image /\ offers img u.
Proof.
  induction sizes as [|size rest IH]; cbn; [discriminate|].
  unfold find_size.
  destruct (find _ image) as [img|] eqn:Hf; [|exact IH].
  destruct (JS.truthy_str (img_text img)) eqn:Ht; [|exact IH].
  intros H. apply find_some in Hf. exists img. split; [tauto|].
  split; [exact H|]. intros ->. rewrite H in Ht. discriminate.
Qed.

(** X2. The optional fields of a normalised entry are [null] or a
    non-empty string, never the empty string, and a cover URL is always
    the URL of one of the entry's own image variants. *)
Theorem optional_fields_null_or_nonempty :
  forall (t : option Track) (preferredSize : option string),
    getAlbumName t <> Some ""
    /\ getTrackUrl t <> Some ""
    /\ getMbid t <> Some ""
    /\ getCoverUrl t preferredSize <> Some ""
    /\ (forall u, getCoverUrl t preferredSize = Some u ->
          exists tr image img,
            t = Some tr /\ t_image tr = Some image
            /\ In img image /\ offers img u).
Proof.
  intros t p.
  assert (Hcover : forall u, getCoverUrl t p = Some u ->
            exists tr image img,
              t = Some tr /\ t_image tr = Some image
              /\ In img image /\ offers img u).
  { intros u. unfold getCoverUrl. destruct t as [tr|]; [|discriminate].
    destruct (t_image tr) as [image|] eqn:Hi; [|discriminate].
    destruct (try_sizes image _) as [u'|] eqn:Hs.
    - intros H. injection H as ->. apply try_sizes_In in Hs.
      destruct Hs as (img & Hin & Ho). exists tr, image, img. auto.
    - destruct (find _ image) as [img|] eqn:Hf; [|discriminate].
      apply find_some in Hf. destruct Hf as [Hin Ht]. intros H.
      exists tr, image, img. repeat split; auto.
      + destruct (img_text img) as [[|c r]|]; cbn in *; congruence.
      + intros ->. destruct (img_text img) as [[|c r]|]; cbn in *; congruence. }
  repeat split.
  - unfold getAlbumName. destruct (album_falsy t) eqn:Hf; [discriminate|].
    destruct t as [tr|]; [|discriminate]. cbn in Hf.
    destruct (t_album tr) as [|s|text mbid]; cbn.
    + discriminate.
    + destruct s; [discriminate|]. discriminate.
    + destruct text as [[|c r]|]; discriminate.
  - destruct t as [tr|]; cbn; [apply or_null_nonempty|discriminate].
  - destruct t as [tr|]; cbn; [apply or_null_nonempty|discriminate].
  - intros H. apply Hcover in H. destruct H as (_ & _ & _ & _ & _ & _ & _ & H).
    congruence.
  - exact Hcover.
Qed.

(** X3. Whatever size is asked for, each of the four sizes is tried
    exactly once.  A known size is tried first; a size the code does
    not know makes "small" the first one tried. *)
Theorem orderedSizes_any_preference :
  forall p : string,
    Permutation sizePriority (orderedSizes p)
    /\ (In p sizePriority -> hd_error (orderedSizes p) = Some p)
    /\ (~ In p sizePriority ->
        orderedSizes p = ["small"; "extralarge"; "large"; "medium"]).
Proof.
  intros p. unfold orderedSizes, sizePriority, JS.indexOf. cbn [JS.indexOf_from].
  destruct (String.eqb_spec "extralarge" p) as [<-|N1].
  { cbn. split; [apply Permutation_refl|]. split; [reflexivity|].
    intros H. exfalso. apply H. cbn. auto. }
  destruct (String.eqb_spec "large" p) as [<-|N2].
  { cbn. split; [|split; [reflexivity|]].
    - change (Permutation (["extralarge"] ++ ["large"; "medium"; "small"])
                          (["large"; "medium"; "small"] ++ ["extralarge"])).
      apply Permutation_app_comm.
    - intros H. exfalso. apply H. cbn. auto. }
  destruct (String.eqb_spec "medium" p) as [<-|N3].
  { cbn. split; [|split; [reflexivity|]].
    - change (Permutation (["extralarge"; "large"] ++ ["medium"; "small"])
                          (["medium"; "small"] ++ ["extralarge"; "large"])).
      apply Permutation_app_comm.
    - intros H. exfalso. apply H. cbn. auto. }
  destruct (String.eqb_spec "small" p) as [<-|N4].
  { cbn. split; [|split; [reflexivity|]].
    - change (Permutation (["extralarge"; "large"; "medium"] ++ ["small"])
                          (["small"] ++ ["extralarge"; "large"; "medium"])).
      apply Permutation_app_comm.
    - intros H. exfalso. apply H. cbn. auto. }
  cbn. split; [|split; [|reflexivity]].
  - change (Permutation (["extralarge"; "large"; "medium"] ++ ["small"])
                        (["small"] ++ ["extralarge"; "large"; "medium"])).
    apply Permutation_app_comm.
  - intros [H|[H|[H|[H|[]]]]]; congruence.
Qed.

Lemma orderedSizes_any_preference_witness :
  hd_error (orderedSizes "medium") = Some "medium"
  /\ orderedSizes "huge" = ["small"; "extralarge"; "large"; "medium"].
Proof.
  split.
  - apply (proj1 (proj2 (orderedSizes_any_preference "medium"))).
    cbn. auto.
  - apply (proj2 (proj2 (orderedSizes_any_preference "huge"))).
    cbn. intros [H|[H|[H|[H|[]]]]]; discriminate.
Defined.

End Normalisers.

(** ** Presentation helpers (lib/utils.js) *)

Section Presentation.
Import Format.

(** X4. [truncate] returns a text that fits unchanged; a longer one is
    cut to its first [maxLength - 1] code units followed by three dots,
    so the result is two code units longer than [maxLength].  A missing
    text gives the empty string. *)
Theorem truncate_overshoots :
  forall (text : utf16) (maxLength : Z),
    (Z.of_nat (List.length text) <= maxLength ->
     truncate (Some text) (Some maxLength) = text)
    /\ (1 <= maxLength < Z.of_nat (List.length text) ->
        truncate (Some text) (Some maxLength)
        = (firstn (Z.to_nat (maxLength - 1)) text ++ dots)%list
        /\ Z.of_nat (List.length (truncate (Some text) (Some maxLength)))
           = maxLength + 2)
    /\ truncate None (Some maxLength) = [].
Proof.
  intros text maxLength. split; [|split; [|reflexivity]].
  - intros H. unfold truncate. destruct text as [|u r]; [reflexivity|].
    apply Z.leb_le in H. rewrite H. reflexivity.
  - intros H. unfold truncate. destruct text as [|u r]; [cbn in H; lia|].
    destruct (Z.of_nat (List.length (u :: r)) <=? maxLength) eqn:Hle.
    { apply Z.leb_le in Hle. lia. }
    assert (Hs : JS.slice (u :: r) 0 (maxLength - 1)
                 = firstn (Z.to_nat (maxLength - 1)) (u :: r)).
    { unfold JS.slice, JS.rel_index.
      replace (0 <? 0) with false by reflexivity.
      destruct (maxLength - 1 <? 0) eqn:Hneg; [apply Z.ltb_lt in Hneg; lia|].
      rewrite (Z.min_l 0) by lia. rewrite (Z.min_l (maxLength - 1)) by lia.
      cbn [Z.to_nat skipn]. rewrite Z.sub_0_r. reflexivity. }
    rewrite Hs. split; [reflexivity|].
    rewrite length_app, firstn_length_le by lia.
    cbn [dots List.length]. lia.
Qed.

Lemma truncate_overshoots_witness :
  truncate (Some [97; 98; 99; 100; 101; 102]%N) (Some 4)
  = [97; 98; 99; 46; 46; 46]%N
  /\ Z.of_nat (List.length
                 (truncate (Some [97; 98; 99; 100; 101; 102]%N) (Some 4)))
     = 4 + 2.
Proof.
  apply (proj1 (proj2 (truncate_overshoots
                         [97; 98; 99; 100; 101; 102]%N 4))). cbn. lia.
Defined.

(** X5. Mapping an internal period to the upstream's name and back is
    the identity on "week", "month" and "all"; every other name is
    sent to "overall" and comes back as "all". *)
Theorem period_round_trip :
  forall p : string,
    (In p internal_periods ->
     mapPeriodToInternal (mapPeriodToLastfm p) = p)
    /\ (~ In p internal_periods ->
        mapPeriodToLastfm p = "overall"
        /\ mapPeriodToInternal (mapPeriodToLastfm p) = "all")
    /\ In (mapPeriodToInternal p) internal_periods.
Proof.
  intros p. unfold internal_periods. split; [|split].
  - intros [<-|[<-|[<-|[]]]]; reflexivity.
  - intros H. unfold mapPeriodToLastfm.
    destruct (String.eqb_spec p "week") as [->|N1].
    { exfalso. apply H. cbn. auto. }
    destruct (String.eqb_spec p "month") as [->|N2].
    { exfalso. apply H. cbn. auto. }
    split; reflexivity.
  - unfold mapPeriodToInternal.
    destruct (String.eqb p "7day"); [cbn; auto|].
    destruct (String.eqb p "1month" || String.eqb p "3month"); cbn; auto.
Qed.

Lemma period_round_trip_witness :
  mapPeriodToInternal (mapPeriodToLastfm "month") = "month".
Proof.
  apply (proj1 (period_round_trip "month")). cbn. auto.
Defined.

End Presentation.

(** ** Printing and reading integers *)

Section Numerals.

Lemma digits_of_uint_acc (d : Decimal.uint) :
  forall a : positive,
    JS.digits 10 (NilEmpty.string_of_uint d) (Some (Zpos a))
    = Some (Zpos (Pos.of_uint_acc d a)).
Proof.
  induction d; intros a; cbn [NilEmpty.string_of_uint JS.digits Pos.of_uint_acc];
    try reflexivity;
    match goal with
    | |- context [JS.digit_val 10 ?c] =>
        let v := eval vm_compute in (JS.digit_val 10 c) in
        change (JS.digit_val 10 c) with v
    end;
    cbv iota; rewrite <- IHd; f_equal; f_equal; lia.
Qed.

Lemma digits_of_uint (d : Decimal.uint) :
  JS.digits 10 (NilEmpty.string_of_uint d) (Some 0)
  = Some (Z.of_N (Pos.of_uint d)).
Proof.
  induction d; cbn [NilEmpty.string_of_uint JS.digits Pos.of_uint];
    try reflexivity;
    match goal with
    | |- context [JS.digit_val 10 ?c] =>
        let v := eval vm_compute in (JS.digit_val 10 c) in
        change (JS.digit_val 10 c) with v
    end;
    cbv iota; change (0 * 10 + ?k) with k;
    first [ exact IHd | apply digits_of_uint_acc ].
Qed.

(** A string that starts with a one-byte character other than white
    space has nothing to trim. *)
Lemma trim_start_keeps (c : ascii) (r : string) :
  (nat_of_ascii c <? 128)%nat = true ->
  JS.is_space c = false ->
  JS.trim_start (String c r) = String c r.
Proof.
  intros Hc Hs. apply Nat.ltb_lt in Hc. cbn [JS.trim_start]. rewrite Hs.
  assert (H2 : forall c2, JS.is_space2 c c2 = false).
  { intros c2. unfold JS.is_space2.
    replace (nat_of_ascii c =? 194)%nat with false; [reflexivity|].
    symmetry. apply Nat.eqb_neq. lia. }
  assert (H3 : forall c2 c3, JS.is_space3 c c2 c3 = false).
  { intros c2 c3. unfold JS.is_space3.
    replace (nat_of_ascii c =? 225)%nat with false
      by (symmetry; apply Nat.eqb_neq; lia).
    replace (nat_of_ascii c =? 226)%nat with false
      by (symmetry; apply Nat.eqb_neq; lia).
    replace (nat_of_ascii c =? 227)%nat with false
      by (symmetry; apply Nat.eqb_neq; lia).
    replace (nat_of_ascii c =? 239)%nat with false
      by (symmetry; apply Nat.eqb_neq; lia).
    reflexivity. }
  destruct r as [|c2 [|c3 r3]]; try reflexivity.
  - rewrite H2. reflexivity.
  - rewrite H2, H3. reflexivity.
Qed.

Lemma parseInt_of_uint (d : Decimal.uint) :
  d <> Decimal.Nil ->
  JS.parseInt_str (NilEmpty.string_of_uint d) = Some (Z.of_N (Pos.of_uint d)).
Proof.
  intros Hd. unfold JS.parseInt_str.
  destruct d; try congruence;
    cbn [NilEmpty.string_of_uint];
    rewrite trim_start_keeps by reflexivity; cbv iota.
  1: { assert (H : JS.digits 10 (String "0" (NilEmpty.string_of_uint d)) None
                   = Some (Z.of_N (Pos.of_uint d))).
       { cbn [JS.digits]. change (JS.digit_val 10 "0") with (Some 0).
         cbv iota. apply digits_of_uint. }
       destruct d; cbn [NilEmpty.string_of_uint] in *;
         rewrite H; cbn [Pos.of_uint]; f_equal;
         destruct (Pos.of_uint _); reflexivity. }
  all: cbn [JS.digits];
    match goal with
    | |- context [JS.digit_val 10 ?c] =>
        let v := eval vm_compute in (JS.digit_val 10 c) in
        change (JS.digit_val 10 c) with v
    end; cbv iota; rewrite digits_of_uint_acc; reflexivity.
Qed.

Lemma parseInt_neg_uint (d : Decimal.uint) :
  d <> Decimal.Nil ->
  JS.parseInt_str (String "-" (NilEmpty.string_of_uint d))
  = Some (- Z.of_N (Pos.of_uint d)).
Proof.
  intros Hd. unfold JS.parseInt_str.
  rewrite trim_start_keeps by reflexivity. cbv iota.
  destruct d; try congruence; cbn [NilEmpty.string_of_uint].
  1: { assert (H : JS.digits 10 (String "0" (NilEmpty.string_of_uint d)) None
                   = Some (Z.of_N (Pos.of_uint d))).
       { cbn [JS.digits]. change (JS.digit_val 10 "0") with (Some 0).
         cbv iota. apply digits_of_uint. }
       destruct d; cbn [NilEmpty.string_of_uint] in *;
         rewrite H; cbn [Pos.of_uint]; f_equal; lia. }
  all: cbn [JS.digits];
    match goal with
    | |- context [JS.digit_val 10 ?c] =>
        let v := eval vm_compute in (JS.digit_val 10 c) in
        change (JS.digit_val 10 c) with v
    end; cbv iota; rewrite digits_of_uint_acc; reflexivity.
Qed.

(** Reading back a printed integer gives the integer. *)
Lemma parseInt_num_to_string (z : Z) :
  JS.parseInt_str (JS.num_to_string (Some z)) = Some z.
Proof.
  unfold JS.num_to_string. destruct z as [|p|p]; [reflexivity| |];
    cbn [Z.to_int NilZero.string_of_int]; unfold NilZero.string_of_uint;
    pose proof (DecimalPos.Unsigned.to_uint_nonnil p) as Hn;
    pose proof (DecimalPos.Unsigned.of_to p) as Hv.
  - pose proof (parseInt_of_uint _ Hn) as H. rewrite Hv in H.
    destruct (Pos.to_uint p); try congruence; exact H.
  - pose proof (parseInt_neg_uint _ Hn) as H. rewrite Hv in H.
    destruct (Pos.to_uint p); try congruence; exact H.
Qed.

(** White space beyond ASCII is skipped like a blank: a no-break space
    (U+00A0), a byte order mark (U+FEFF) and a line separator (U+2028)
    before the digits, each in its UTF-8 encoding. *)
Example parseInt_skips_unicode_space :
  JS.parseInt_str
    (String (ascii_of_nat 194) (String (ascii_of_nat 160) "42")) = Some 42
  /\ JS.parseInt_str
       (String (ascii_of_nat 239)
          (String (ascii_of_nat 187) (String (ascii_of_nat 191) " 7")))
     = Some 7
  /\ JS.parseInt_str
       (String (ascii_of_nat 226)
          (String (ascii_of_nat 128) (String (ascii_of_nat 168) "-3x")))
     = Some (-3)
  /\ JS.parseInt_str
       (String (ascii_of_nat 194) (String (ascii_of_nat 133) "42")) = None.
Proof. repeat split; reflexivity. Qed.

(** A printed integer is not the empty string. *)
Lemma num_to_string_nonempty (z : Z) : JS.num_to_string (Some z) <> "".
Proof.
  intros H. pose proof (parseInt_num_to_string z) as P. rewrite H in P.
  discriminate.
Qed.

End Numerals.

(** ** Durations and timestamps *)

Section Durations.
Import Utils Sync Format.

Lemma padStart2_reads_back (n : nat) :
  (n < 60)%nat ->
  String.length (padStart2 (JS.num_to_string (Some (Z.of_nat n)))) = 2%nat
  /\ JS.parseInt_str (padStart2 (JS.num_to_string (Some (Z.of_nat n))))
     = Some (Z.of_nat n).
Proof.
  intros H.
  do 60 (destruct n as [|n]; [vm_compute; split; reflexivity|]).
  lia.
Qed.

(** X6. What [formatDuration] prints for a whole number of seconds
    within the safe range reads back as the duration: below one hour
    it is minutes, a colon and the seconds on exactly two digits; from
    one hour on it is hours and minutes, the seconds being dropped.
    Zero, negative and NaN durations print as "0:00". *)
Theorem formatDuration_reads_back :
  forall s : Z,
    0 < s ->
    JS.safe s ->
    (s < 3600 ->
     exists m ss,
       formatDuration (Some s) = m ++ ":" ++ ss
       /\ String.length ss = 2%nat
       /\ JS.parseInt_str m = Some (s / 60)
       /\ JS.parseInt_str ss = Some (s mod 60))
    /\ (3600 <= s ->
        exists h m,
          formatDuration (Some s) = h ++ "h " ++ m ++ "m"
          /\ JS.parseInt_str h = Some (s / 3600)
          /\ JS.parseInt_str m = Some (s mod 3600 / 60))
    /\ formatDuration (Some (- s)) = "0:00"
    /\ formatDuration (Some 0) = "0:00"
    /\ formatDuration None = "0:00".
Proof.
  intros s Hs _.
  assert (Hz : (s =? 0) || (s <? 0) = false).
  { apply orb_false_iff. split; [apply Z.eqb_neq | apply Z.ltb_ge]; lia. }
  split; [|split; [|split; [|split; reflexivity]]].
  - intros Hlt. unfold formatDuration. rewrite Hz.
    assert (Hh : s / 3600 = 0) by (apply Z.div_small; lia).
    rewrite Hh. cbn [Z.gtb Z.compare].
    rewrite !Z.rem_mod_nonneg by lia.
    rewrite (Z.mod_small s 3600) by lia.
    exists (JS.num_to_string (Some (s / 60))),
           (padStart2 (JS.num_to_string (Some (s mod 60)))).
    assert (Hm : 0 <= s mod 60 < 60) by (apply Z.mod_pos_bound; lia).
    destruct (padStart2_reads_back (Z.to_nat (s mod 60))) as [Hl Hp]; [lia|].
    rewrite Z2Nat.id in Hl, Hp by lia.
    repeat split; auto. apply parseInt_num_to_string.
  - intros Hge. unfold formatDuration. rewrite Hz.
    assert (Hh : 0 < s / 3600) by (apply Z.div_str_pos; lia).
    destruct (s / 3600 >? 0) eqn:Hg; [|rewrite Z.gtb_ltb in Hg; apply Z.ltb_ge in Hg; lia].
    rewrite !Z.rem_mod_nonneg by lia.
    exists (JS.num_to_string (Some (s / 3600))),
           (JS.num_to_string (Some (s mod 3600 / 60))).
    repeat split; auto; apply parseInt_num_to_string.
  - unfold formatDuration.
    assert (H : (- s =? 0) || (- s <? 0) = true).
    { apply orb_true_iff. right. apply Z.ltb_lt. lia. }
    rewrite H. reflexivity.
Qed.

Lemma formatDuration_reads_back_witness :
  exists m ss,
    formatDuration (Some 225) = m ++ ":" ++ ss
    /\ String.length ss = 2%nat
    /\ JS.parseInt_str m = Some (225 / 60)
    /\ JS.parseInt_str ss = Some (225 mod 60).
Proof.
  apply (proj1 (formatDuration_reads_back 225 ltac:(lia)
                  ltac:(unfold JS.safe; cbn; lia))). lia.
Defined.

End Durations.

Section Timestamps.
Import Utils Sync Format.

(** X7. A play dated by the upstream as a printed integer number of
    seconds is stored at exactly that second, in milliseconds, and its
    identifier ends in that number; a [uts] with no leading digits
    gives the Invalid Date and an identifier ending in "NaN". *)
Theorem transformScrobble_keeps_the_second :
  forall (S : Type) (env : Env) (s : Track) (w : World S) (u : string),
    t_date s = DateObject (Some u) ->
    exists doc w',
      transformScrobble env s w = (Ok doc, w')
      /\ (forall n : Z,
            u = JS.num_to_string (Some n) ->
            Z.abs (n * 1000) <= 8640000000000000 ->
            scrobbledAt doc = Some (n * 1000)
            /\ lastfmId doc
               = getArtistName (Some s) ++ ":" ++ t_name s ++ ":"
                   ++ JS.num_to_string (Some (n * 1000)))
      /\ (JS.parseInt_str u = None ->
          scrobbledAt doc = None
          /\ lastfmId doc
             = getArtistName (Some s) ++ ":" ++ t_name s ++ ":NaN").
Proof.
  intros S env s w u Hdate.
  destruct (transformScrobble_run env s w)
    as (doc & w' & Hrun & _ & Ht & Ha & Hk & _ & Hd).
  exists doc, w'. split; [exact Hrun|].
  assert (Hat : scrobbledAt doc = date_value env (t_date s)).
  { apply Hd. rewrite Hdate. reflexivity. }
  unfold well_keyed, id_of in Hk. rewrite Ht, Ha in Hk.
  rewrite Hdate in Hat. unfold date_value in Hat. cbn [date_uts] in Hat.
  split.
  - intros n Hu Hr.
    assert (Hv : scrobbledAt doc = Some (n * 1000)).
    { rewrite Hat.
      assert (Htr : JS.truthy_str (Some u) = true).
      { pose proof (num_to_string_nonempty n) as Hne. rewrite <- Hu in Hne.
        destruct u; [congruence | reflexivity]. }
      rewrite Htr. cbn [JS.parseInt]. rewrite Hu, parseInt_num_to_string.
      cbn [JS.mul JS.Date_of_num JS.TimeClip].
      apply Z.leb_le in Hr. rewrite Hr. reflexivity. }
    split; [exact Hv|]. rewrite Hk, Hv. reflexivity.
  - intros Hnan.
    assert (Hv : scrobbledAt doc = None).
    { rewrite Hat. destruct (JS.truthy_str (Some u)); [|reflexivity].
      cbn [JS.parseInt]. rewrite Hnan. reflexivity. }
    split; [exact Hv|]. rewrite Hk, Hv. reflexivity.
Qed.

Lemma transformScrobble_keeps_the_second_witness :
  exists doc w',
    transformScrobble Examples.env_one_play (Examples.play "1700000000" [])
      Examples.world0 = (Ok doc, w')
    /\ scrobbledAt doc = Some (1700000000 * 1000).
Proof.
  destruct (transformScrobble_keeps_the_second MemDb.MemStore
              Examples.env_one_play (Examples.play "1700000000" [])
              Examples.world0 "1700000000" eq_refl)
    as (doc & w' & Hrun & Hnum & _).
  exists doc, w'. split; [exact Hrun|].
  apply (Hnum 1700000000); [reflexivity | cbn; lia].
Defined.

End Timestamps.

(** ** Relative time and formatted entries (lib/utils.js) *)

Section RelativeTime.
Import Utils Sync Format.
Context {S : Type}.
Variable env : Env.
Variable platform : Platform.

Lemma div_ltb (a b k : Z) : 0 < b -> (a / b <? k) = (a <? k * b).
Proof.
  intros Hb.
  destruct (Z.ltb_spec (a / b) k) as [H|H];
    destruct (Z.ltb_spec a (k * b)) as [H'|H']; try reflexivity; exfalso.
  - assert (k <= a / b) by (apply Z.div_le_lower_bound; lia). lia.
  - assert (a / b < k) by (apply Z.div_lt_upper_bound; lia). lia.
Qed.

Lemma TimeClip_in_range (t : Z) :
  Z.abs t <= 8640000000000000 -> JS.TimeClip (Some t) = Some t.
Proof. intros H. cbn. apply Z.leb_le in H. rewrite H. reflexivity. Qed.

(** The text [formatRelativeTime] gives a dated input, as a function
    of the age [now - played] in milliseconds. *)
Lemma formatRelativeTime_by_age (d : DateInput) (w : World S) (played : Z) :
  date_falsy d = false ->
  date_value env d = Some played ->
  Z.abs (clock env (tick w)) <= 8640000000000000 ->
  fst (formatRelativeTime env platform d w)
  = Ok (let age := clock env (tick w) - played in
        if age <? minute then "just now"
        else if age <? 60 * minute then
          JS.num_to_string (Some (age / minute)) ++ "m ago"
        else if age <? 24 * hour then
          JS.num_to_string (Some (age / hour)) ++ "h ago"
        else if age <? 7 * (24 * hour) then
          JS.num_to_string (Some (age / (24 * hour))) ++ "d ago"
        else toLocaleDateString platform (Some played) "en").
Proof.
  intros Hf Hv Hr.
  destruct (parseDate_run env d w) as (date & w' & Hp & _ & _ & Hd).
  destruct (Hd Hf) as [-> ->]. rewrite Hv in Hp.
  unfold formatRelativeTime. rewrite (bind_Ok _ _ _ _ _ Hp).
  destruct (Date_new_run env w) as (w2 & Hn & _ & _).
  rewrite (bind_Ok _ _ _ _ _ Hn). rewrite TimeClip_in_range by exact Hr.
  cbn [JS.sub JS.getTime JS.floor_div lt_int].
  set (age := clock env (tick w) - played).
  rewrite !div_ltb by lia.
  change (1 * 60000) with minute. change (60 * 60000) with (60 * minute).
  change (24 * 3600000) with (24 * hour).
  change (7 * 86400000) with (7 * (24 * hour)).
  change 60000 with minute. change 3600000 with hour.
  change 86400000 with (24 * hour).
  cbv zeta.
  destruct (age <? minute); [reflexivity|].
  destruct (age <? 60 * minute); [reflexivity|].
  destruct (age <? 24 * hour); [reflexivity|].
  destruct (age <? 7 * (24 * hour)); [reflexivity|].
  unfold formatDate.
  destruct (parseDate_run env d w2) as (date & w3 & Hp2 & _ & _ & Hd2).
  destruct (Hd2 Hf) as [-> ->]. rewrite Hv in Hp2.
  rewrite (bind_Ok _ _ _ _ _ Hp2). reflexivity.
Qed.

(** X8. Read at the same instant, the relative time and the playing
    status of a dated entry without the marker fall in matching
    buckets: under an hour it is "just now" or minutes and
    now-playing, under a day it is hours and recently-played, beyond it
    is days (under a week) or the locale date, and no status. *)
Theorem relative_time_matches_status :
  forall (track : Track) (w : World S) (played now : Z),
    JS.strict_eq (attr_nowplaying track) "true" = false ->
    date_falsy (t_date track) = false ->
    date_value env (t_date track) = Some played ->
    clock env (tick w) = now ->
    Z.abs now <= 8640000000000000 ->
    exists rel status,
      fst (formatRelativeTime env platform (t_date track) w) = Ok rel
      /\ fst (getPlayingStatus env track w) = Ok status
      /\ (now - played < minute -> rel = "just now")
      /\ (now - played < 60 * minute ->
          status = Some "now-playing"
          /\ (rel = "just now"
              \/ rel = JS.num_to_string (Some ((now - played) / minute))
                         ++ "m ago"))
      /\ (60 * minute <= now - played < 24 * hour ->
          status = Some "recently-played"
          /\ rel = JS.num_to_string (Some ((now - played) / hour)) ++ "h ago")
      /\ (24 * hour <= now - played ->
          status = None
          /\ (now - played < 7 * (24 * hour) ->
              rel = JS.num_to_string (Some ((now - played) / (24 * hour)))
                      ++ "d ago")
          /\ (7 * (24 * hour) <= now - played ->
              rel = toLocaleDateString platform (Some played) "en")).
Proof.
  intros track w played now Hm Hf Hv Hc Hr. subst now.
  destruct (parseDate_run env (t_date track) w) as (date & w' & Hp & _ & _ & Hd).
  destruct (Hd Hf) as [-> ->]. rewrite Hv in Hp.
  pose proof (getPlayingStatus_by_age S env w w track played Hm Hp Hr) as Hs.
  pose proof (formatRelativeTime_by_age (t_date track) w played Hf Hv Hr) as Hrel.
  cbv zeta in Hrel.
  eexists. eexists. split; [exact Hrel|]. split; [exact Hs|].
  set (age := clock env (tick w) - played) in *.
  unfold hour, minute in *.
  repeat split.
  - intros H. apply Z.ltb_lt in H. rewrite H. reflexivity.
  - assert (E : (age <? 60 * 60000) = true) by (apply Z.ltb_lt; lia).
    rewrite E. reflexivity.
  - destruct (age <? 60000); [left; reflexivity|].
    assert (E : (age <? 60 * 60000) = true) by (apply Z.ltb_lt; lia).
    rewrite E. right. reflexivity.
  - assert (E1 : (age <? 60 * 60000) = false) by (apply Z.ltb_ge; lia).
    assert (E2 : (age <? 24 * 60 * 60000) = true) by (apply Z.ltb_lt; lia).
    rewrite E1, E2. reflexivity.
  - assert (E0 : (age <? 60000) = false) by (apply Z.ltb_ge; lia).
    assert (E1 : (age <? 60 * 60000) = false) by (apply Z.ltb_ge; lia).
    assert (E2 : (age <? 24 * (60 * 60000)) = true) by (apply Z.ltb_lt; lia).
    rewrite E0, E1, E2. reflexivity.
  - assert (E1 : (age <? 60 * 60000) = false) by (apply Z.ltb_ge; lia).
    assert (E2 : (age <? 24 * 60 * 60000) = false) by (apply Z.ltb_ge; lia).
    rewrite E1, E2. reflexivity.
  - intros H7.
    assert (E0 : (age <? 60000) = false) by (apply Z.ltb_ge; lia).
    assert (E1 : (age <? 60 * 60000) = false) by (apply Z.ltb_ge; lia).
    assert (E2 : (age <? 24 * (60 * 60000)) = false) by (apply Z.ltb_ge; lia).
    assert (E3 : (age <? 7 * (24 * (60 * 60000))) = true) by (apply Z.ltb_lt; lia).
    rewrite E0, E1, E2, E3. reflexivity.
  - intros H7.
    assert (E0 : (age <? 60000) = false) by (apply Z.ltb_ge; lia).
    assert (E1 : (age <? 60 * 60000) = false) by (apply Z.ltb_ge; lia).
    assert (E2 : (age <? 24 * (60 * 60000)) = false) by (apply Z.ltb_ge; lia).
    assert (E3 : (age <? 7 * (24 * (60 * 60000))) = false) by (apply Z.ltb_ge; lia).
    rewrite E0, E1, E2, E3. reflexivity.
Qed.

End RelativeTime.

Section RelativeTimeExample.
Import Utils Sync Format.

Lemma relative_time_matches_status_witness :
  exists rel status,
    fst (formatRelativeTime Examples.env_one_play Examples.platform0
           (t_date (Examples.play "1699996461" [])) Examples.world0) = Ok rel
    /\ fst (getPlayingStatus Examples.env_one_play
              (Examples.play "1699996461" []) Examples.world0) = Ok status
    /\ status = Some "now-playing".
Proof.
  destruct (relative_time_matches_status Examples.env_one_play
              Examples.platform0 (Examples.play "1699996461" [])
              Examples.world0 1699996461000 1700000001000
              eq_refl eq_refl eq_refl eq_refl ltac:(cbn; lia))
    as (rel & status & H1 & H2 & _ & H3 & _).
  exists rel, status. split; [exact H1|]. split; [exact H2|].
  apply H3. unfold minute. lia.
Defined.

End RelativeTimeExample.

Section FormattedEntries.
Import Utils Sync Format.
Context {S : Type}.
Variable env : Env.
Variable platform : Platform.

Lemma formatRelativeTime_returns (d : DateInput) (w : World S) :
  exists rel w', formatRelativeTime env platform d w = (Ok rel, w').
Proof.
  unfold formatRelativeTime.
  destruct (parseDate_run env d w) as (date & w1 & Hp & _).
  rewrite (bind_Ok _ _ _ _ _ Hp).
  destruct (Date_new_run env w1) as (w2 & Hn & _).
  rewrite (bind_Ok _ _ _ _ _ Hn).
  repeat match goal with
         | |- context [if ?b then _ else _] => destruct b
         end; try (eexists; eexists; reflexivity).
  unfold formatDate.
  destruct (parseDate_run env d w2) as (date' & w3 & Hp' & _).
  rewrite (bind_Ok _ _ _ _ _ Hp'). eexists; eexists; reflexivity.
Qed.

Lemma getPlayingStatus_returns (track : Track) (w : World S) :
  exists status w', getPlayingStatus env track w = (Ok status, w').
Proof.
  unfold getPlayingStatus.
  destruct (JS.strict_eq _ _); [eexists; eexists; reflexivity|].
  destruct (parseDate_run env (t_date track) w) as (date & w1 & Hp & _).
  rewrite (bind_Ok _ _ _ _ _ Hp).
  destruct (Date_new_run env w1) as (w2 & Hn & _).
  rewrite (bind_Ok _ _ _ _ _ Hn).
  repeat match goal with
         | |- context [if ?b then _ else _] => destruct b
         end; eexists; eexists; reflexivity.
Qed.

Lemma transformScrobble_fields (s : Track) (doc : Doc) (w w' : World S) :
  transformScrobble env s w = (Ok doc, w') ->
  trackTitle doc = t_name s
  /\ artistName doc = getArtistName (Some s)
  /\ albumTitle doc = getAlbumName (Some s)
  /\ coverUrl doc = getCoverUrl (Some s) None
  /\ trackUrl doc = getTrackUrl (Some s)
  /\ mbid doc = getMbid (Some s)
  /\ loved doc = JS.strict_eq (t_loved s) "1"
  /\ lastfmId doc
     = getArtistName (Some s) ++ ":" ++ t_name s ++ ":"
         ++ JS.num_to_string (JS.getTime (scrobbledAt doc))
  /\ (date_falsy (t_date s) = false ->
      scrobbledAt doc = date_value env (t_date s)).
Proof.
  intros H. unfold transformScrobble in H.
  destruct (parseDate_run env (t_date s) w) as (date & w1 & Hp & _ & _ & Hd).
  rewrite (bind_Ok _ _ _ _ _ Hp) in H.
  destruct (Date_new_run env w1) as (w2 & Hn & _).
  rewrite (bind_Ok _ _ _ _ _ Hn) in H.
  unfold ret in H. injection H as <- <-. cbn.
  repeat split; auto. intros Hf. apply Hd in Hf. tauto.
Qed.

Lemma append_colon_nonempty (a b : string) : a ++ ":" ++ b <> "".
Proof. destruct a; discriminate. Qed.

(** X9. A completed, dated play formats the same whether it is read
    back from the store or taken from the upstream page: title,
    artist, album, cover, URL, MBID, loved flag and timestamp agree.
    The row read back is identified by its [lastfmId], never by the
    [_id] fallback. *)
Theorem stored_row_formats_like_its_entry :
  forall (s : Track) (t : Z) (doc : Doc) (_id : option string)
         (w0 w0' w1 w2 : World S),
    JS.strict_eq (attr_nowplaying s) "true" = false ->
    date_falsy (t_date s) = false ->
    date_value env (t_date s) = Some t ->
    transformScrobble env s w0 = (Ok doc, w0') ->
    exists a b w1' w2',
      formatScrobble_fromDb env platform doc _id w1 = (Ok a, w1')
      /\ formatScrobble env platform s w2 = (Ok b, w2')
      /\ fs_track a = fs_track b
      /\ fs_artist a = fs_artist b
      /\ fs_album a = fs_album b
      /\ fs_coverUrl a = fs_coverUrl b
      /\ fs_trackUrl a = fs_trackUrl b
      /\ fs_mbid a = fs_mbid b
      /\ fs_loved a = fs_loved b
      /\ fs_scrobbledAt a = iso_of platform t
      /\ fs_scrobbledAt b = iso_of platform t
      /\ fs_id a = Some (lastfmId doc).
Proof.
  intros s t doc oid w0 w0' w1 w2 Hm Hf Hv Ht.
  destruct (transformScrobble_fields s doc w0 w0' Ht)
    as (F1 & F2 & F3 & F4 & F5 & F6 & F7 & F8 & F9).
  specialize (F9 Hf). rewrite Hv in F9.
  (* the row read back *)
  unfold formatScrobble_fromDb. rewrite F9. cbn [toISOString].
  unfold bind at 1. cbn [ret].
  destruct (formatRelativeTime_returns (DateInstance (Some t)) w1)
    as (rel1 & w1a & Hr1).
  rewrite (bind_Ok _ _ _ _ _ Hr1).
  destruct (getPlayingStatus_returns (dated (Some t)) w1a)
    as (st1 & w1b & Hs1).
  rewrite (bind_Ok _ _ _ _ _ Hs1).
  (* the entry of the page *)
  unfold formatScrobble. rewrite Hm.
  destruct (parseDate_run env (t_date s) w2) as (date & w2a & Hp & _ & _ & Hd).
  destruct (Hd Hf) as [-> ->]. rewrite Hv in Hp.
  rewrite (bind_Ok _ _ _ _ _ Hp). cbn [toISOString].
  unfold bind at 1. cbn [ret].
  destruct (formatRelativeTime_returns (DateInstance (Some t)) w2)
    as (rel2 & w2b & Hr2).
  rewrite (bind_Ok _ _ _ _ _ Hr2).
  destruct (getPlayingStatus_returns s w2b) as (st2 & w2c & Hs2).
  rewrite (bind_Ok _ _ _ _ _ Hs2).
  eexists. eexists. eexists. eexists.
  split; [reflexivity|]. split; [reflexivity|]. cbn.
  rewrite orb_false_r.
  repeat split; auto.
  assert (Hne : lastfmId doc <> "").
  { rewrite F8. apply append_colon_nonempty. }
  unfold JS.or_str. destruct (lastfmId doc); [congruence | reflexivity].
Qed.

Lemma formatScrobble_marked (s : Track) (w : World S) :
  JS.strict_eq (attr_nowplaying s) "true" = true ->
  Z.abs (clock env (if date_falsy (t_date s) then Datatypes.S (tick w)
                    else tick w)) <= 8640000000000000 ->
  exists b w',
    formatScrobble env platform s w = (Ok b, w')
    /\ fs_relativeTime b = "now"
    /\ fs_status b = Some "now-playing"
    /\ fs_scrobbledAt b
       = iso_of platform
           (clock env (if date_falsy (t_date s) then Datatypes.S (tick w)
                       else tick w))
    /\ fs_track b = t_name s
    /\ fs_artist b = getArtistName (Some s).
Proof.
  intros Hm Hr. unfold formatScrobble. rewrite Hm.
  destruct (parseDate_run env (t_date s) w)
    as (date & w1 & Hp & _ & Hmiss & Hd).
  rewrite (bind_Ok _ _ _ _ _ Hp).
  assert (Htick : tick w1 = if date_falsy (t_date s)
                            then Datatypes.S (tick w) else tick w).
  { destruct (date_falsy (t_date s)) eqn:Hf.
    - unfold parseDate in Hp. rewrite Hf in Hp.
      destruct (Date_new_run env w) as (w1' & Hn & _ & Ht).
      rewrite Hn in Hp. injection Hp as _ <-. exact Ht.
    - destruct (Hd eq_refl) as [_ ->]. reflexivity. }
  destruct (Date_new_run env w1) as (w2 & Hn & _).
  unfold bind at 1. unfold bind at 1. rewrite Hn.
  rewrite Htick, TimeClip_in_range by exact Hr. cbn [toISOString ret].
  unfold bind at 1. cbn [ret].
  unfold getPlayingStatus. rewrite Hm. unfold bind at 1. cbn [ret].
  eexists. eexists. split; [reflexivity|]. cbn. auto.
Qed.

Lemma formatScrobble_invalid_date (s : Track) (w : World S) :
  JS.strict_eq (attr_nowplaying s) "true" = false ->
  date_falsy (t_date s) = false ->
  date_value env (t_date s) = None ->
  formatScrobble env platform s w = (Throw rangeError, w).
Proof.
  intros Hm Hf Hv. unfold formatScrobble. rewrite Hm.
  destruct (parseDate_run env (t_date s) w) as (date & w1 & Hp & _ & _ & Hd).
  destruct (Hd Hf) as [-> ->]. rewrite Hv in Hp.
  rewrite (bind_Ok _ _ _ _ _ Hp). reflexivity.
Qed.

(** X10. An entry carrying the "now playing" marker is formatted as
    playing at the current instant whatever date it carries; without
    the marker, an entry whose date is invalid makes [formatScrobble]
    throw a RangeError. *)
Theorem formatScrobble_marker_or_valid_date :
  forall (s : Track) (w : World S),
    (JS.strict_eq (attr_nowplaying s) "true" = true ->
     Z.abs (clock env (if date_falsy (t_date s) then Datatypes.S (tick w)
                       else tick w)) <= 8640000000000000 ->
     exists b w',
       formatScrobble env platform s w = (Ok b, w')
       /\ fs_relativeTime b = "now"
       /\ fs_status b = Some "now-playing"
       /\ fs_scrobbledAt b
          = iso_of platform
              (clock env (if date_falsy (t_date s) then Datatypes.S (tick w)
                          else tick w)))
    /\ (JS.strict_eq (attr_nowplaying s) "true" = false ->
        date_falsy (t_date s) = false ->
        date_value env (t_date s) = None ->
        formatScrobble env platform s w = (Throw rangeError, w)).
Proof.
  intros s w. split.
  - intros Hm Hr.
    destruct (formatScrobble_marked s w Hm Hr)
      as (b & w' & H & Hrel & Hst & Hiso & _).
    exists b, w'. auto.
  - apply formatScrobble_invalid_date.
Qed.

End FormattedEntries.

Section FormattedEntriesExamples.
Import Utils Sync Format.

Lemma stored_row_formats_like_its_entry_witness :
  exists doc a b w0' w1' w2',
    transformScrobble Examples.env_one_play (Examples.play "1700000000" [])
      Examples.world0 = (Ok doc, w0')
    /\ formatScrobble_fromDb Examples.env_one_play Examples.platform0 doc None
         Examples.world0 = (Ok a, w1')
    /\ formatScrobble Examples.env_one_play Examples.platform0
         (Examples.play "1700000000" []) Examples.world0 = (Ok b, w2')
    /\ fs_artist a = fs_artist b
    /\ fs_scrobbledAt a = fs_scrobbledAt b.
Proof.
  destruct (transformScrobble_run Examples.env_one_play
              (Examples.play "1700000000" []) Examples.world0)
    as (doc & w0' & Ht & _).
  destruct (stored_row_formats_like_its_entry Examples.env_one_play
              Examples.platform0 (Examples.play "1700000000" [])
              1700000000000 doc None Examples.world0 w0' Examples.world0
              Examples.world0 eq_refl eq_refl eq_refl Ht)
    as (a & b & w1' & w2' & Ha & Hb & _ & Hart & _ & _ & _ & _ & _ & Hi1 & Hi2 & _).
  exists doc, a, b, w0', w1', w2'.
  repeat split; auto. congruence.
Defined.

Lemma formatScrobble_marker_or_valid_date_witness :
  exists b w',
    formatScrobble Examples.env_one_play Examples.platform0 Examples.playing_now
      Examples.world0 = (Ok b, w')
    /\ fs_relativeTime b = "now"
    /\ fs_status b = Some "now-playing".
Proof.
  destruct (proj1 (formatScrobble_marker_or_valid_date Examples.env_one_play
                     Examples.platform0 Examples.playing_now Examples.world0)
              eq_refl ltac:(cbn; lia))
    as (b & w' & H & Hr & Hs & _).
  exists b, w'. auto.
Defined.

End FormattedEntriesExamples.

(** ** The client's cache (lib/lastfm-client.js) *)

Section ClientCache.
Import Client Controllers.
Context {S : Type}.
Variable env : Env.

Lemma opt_eqb_refl {A} (eqb : A -> A -> bool) :
  (forall x, eqb x x = true) -> forall a, opt_eqb eqb a a = true.
Proof. intros H [a|]; cbn; auto. Qed.

Lemma Request_eqb_refl (k : Request) : Request_eqb k k = true.
Proof.
  unfold Request_eqb, Params_eqb.
  rewrite String.eqb_refl, !(opt_eqb_refl String.eqb String.eqb_refl),
    !(opt_eqb_refl Z.eqb Z.eqb_refl).
  reflexivity.
Qed.

Lemma cache_get_set c k v : cache_get (cache_set c k v) k = Some v.
Proof. unfold cache_set. cbn. rewrite Request_eqb_refl. reflexivity. Qed.

(** What a call of [fetch] leaves in the cache. *)
Lemma fetch_cache_post (this : LastFmClient) (method : string)
    (params : Params) (w : World S) :
  post (fetch env this method params w) (fun r w' =>
    match r with
    | Ok data =>
        (exists ts,
           cache_get (cache w) (request_of this method params) = Some (data, ts)
           /\ clock env (tick w) - ts < c_cacheTtl this
           /\ cache w' = cache w /\ requests w' = requests w)
        \/ (exists now,
              cache w' = cache_set (cache w) (request_of this method params)
                           (data, now)
              /\ requests w' = request_of this method params :: requests w)
    | _ =>
        cache w' = cache w
        /\ requests w' = request_of this method params :: requests w
    end).
Proof.
  unfold fetch. fold (request_of this method params).
  set (key := request_of this method params).
  unfold bind at 1. unfold get at 1.
  match goal with |- post (bind _ ?k _) _ => set (K := k) end.
  assert (Hmiss : forall w1 : World S,
            cache w1 = cache w -> requests w1 = requests w ->
            post (K None w1)
              (fun r w' =>
                 match r with
                 | Ok data =>
                     exists now,
                       cache w' = cache_set (cache w) key (data, now)
                       /\ requests w' = key :: requests w
                 | _ => cache w' = cache w /\ requests w' = key :: requests w
                 end)).
  { intros w1 Hc1 Hr1. subst K. cbv beta iota.
    destruct (net_fetch_spec env key w1) as (Hreq2 & Hcache2 & _ & Hfuel2 & _).
    unfold bind at 1.
    destruct (net_fetch env key w1) as [[r|e|] w2]; cbn [fst snd] in *.
    3:{ contradiction. }
    2:{ unfold post. cbn. split; congruence. }
    destruct (ok r); cbn [negb].
    2:{ destruct (includes _ _); cbn [negb]; unfold post; cbn; split; congruence. }
    destruct (includes _ _); cbn [negb];
      [|unfold post; cbn; split; congruence].
    destruct (body_json r) as [data|]; [|unfold post; cbn; split; congruence].
    destruct (JS.truthy_num (d_error data));
      [unfold post; cbn; split; congruence|].
    unfold post, bind, Date_now, get, modify, set_cache. cbn.
    eexists. split; [|congruence]. rewrite Hcache2, Hc1. reflexivity. }
  assert (Hrest : forall w1 : World S,
            cache w1 = cache w -> requests w1 = requests w ->
            post (K None w1) (fun r w' =>
              match r with
              | Ok data =>
                  (exists ts,
                     cache_get (cache w) key = Some (data, ts)
                     /\ clock env (tick w) - ts < c_cacheTtl this
                     /\ cache w' = cache w /\ requests w' = requests w)
                  \/ (exists now,
                        cache w' = cache_set (cache w) key (data, now)
                        /\ requests w' = key :: requests w)
              | _ => cache w' = cache w /\ requests w' = key :: requests w
              end)).
  { intros w1 Hc1 Hr1. pose proof (Hmiss w1 Hc1 Hr1) as H. unfold post in *.
    destruct (fst (K None w1)); auto. }
  unfold bind.
  destruct (cache_get (cache w) key) as [[data ts]|] eqn:Hget;
    cbn [cache_fresh ret].
  - unfold bind, Date_now.
    destruct (clock env (tick w) - ts <? c_cacheTtl this) eqn:Hfresh; cbn [ret].
    + unfold post. cbn. left. exists ts. apply Z.ltb_lt in Hfresh. auto.
    + apply Hrest; reflexivity.
  - apply Hrest; reflexivity.
Qed.

(** X11. Once [fetch] has returned an answer, the answer is in the
    cache under the call's key: the same call made while the entry is
    younger than [cacheTtl] returns the same data without any request,
    and made later it goes to the upstream again. *)
Theorem fetch_repeated_within_ttl :
  forall (this : LastFmClient) (method : string) (params : Params)
         (w w1 : World S) (data : Data),
    fetch env this method params w = (Ok data, w1) ->
    exists ts,
      cache_get (cache w1) (request_of this method params) = Some (data, ts)
      /\ (clock env (tick w1) - ts < c_cacheTtl this ->
          exists w2,
            fetch env this method params w1 = (Ok data, w2)
            /\ requests w2 = requests w1
            /\ cache w2 = cache w1)
      /\ (c_cacheTtl this <= clock env (tick w1) - ts ->
          requests (snd (fetch env this method params w1))
          = request_of this method params :: requests w1).
Proof.
  intros this method params w w1 data Hrun.
  set (key := request_of this method params).
  assert (Hget : exists ts, cache_get (cache w1) key = Some (data, ts)).
  { pose proof (fetch_cache_post this method params w) as H.
    rewrite Hrun in H. unfold post in H. cbn in H.
    destruct H as [(ts & Hg & _ & Hc & _) | (now & Hc & _)].
    - exists ts. rewrite Hc. exact Hg.
    - exists now. rewrite Hc. apply cache_get_set. }
  destruct Hget as (ts & Hget). exists ts. split; [exact Hget|]. split.
  - intros Hfresh. unfold fetch. fold (request_of this method params).
    fold key. unfold bind at 1. unfold get at 1. rewrite Hget.
    cbn [cache_fresh]. unfold bind, Date_now.
    apply Z.ltb_lt in Hfresh. rewrite Hfresh. cbn.
    eexists. split; [reflexivity|]. split; reflexivity.
  - intros Hstale.
    pose proof (fetch_cache_post this method params w1) as H.
    unfold post in H. fold key in H.
    destruct (fst (fetch env this method params w1)).
    + destruct H as [(ts' & Hg & Hf & _) | (now & _ & Hr)]; [|exact Hr].
      rewrite Hget in Hg. injection Hg as _ <-. lia.
    + tauto.
    + tauto.
Qed.

(** X12. A call of [fetch] that does not return data has asked the
    upstream and leaves the cache exactly as it was: failures are
    never cached, and such a call never runs out of time. *)
Theorem fetch_failure_not_cached :
  forall (this : LastFmClient) (method : string) (params : Params)
         (w : World S),
    (forall data, fst (fetch env this method params w) <> Ok data) ->
    cache (snd (fetch env this method params w)) = cache w
    /\ requests (snd (fetch env this method params w))
       = request_of this method params :: requests w
    /\ exists e, fst (fetch env this method params w) = Throw e.
Proof.
  intros this method params w Hfail.
  pose proof (fetch_cache_post this method params w) as H.
  pose proof (fetch_post env this method params w) as P.
  unfold post in *. destruct P as (_ & Hfuel & _).
  destruct (fst (fetch env this method params w)) as [d|e|].
  - destruct (Hfail d eq_refl).
  - destruct H. repeat split; auto. exists e. reflexivity.
  - congruence.
Qed.

(** X13. An error the upstream reports inside a successful JSON body
    is thrown as a plain error without a status, whatever its code;
    nothing is cached, and the handlers' error block turns it into a
    500 that is not retryable and carries no Retry-After. *)
Theorem api_error_is_plain_500 :
  forall (this : LastFmClient) (method : string) (params : Params)
         (w : World S) (r : HttpResponse) (data : Data),
    cache_get (cache w) (request_of this method params) = None ->
    upstream env (List.length (requests w)) (request_of this method params)
    = NetResponse r ->
    ok r = true ->
    isJson r = true ->
    body_json r = Some data ->
    JS.truthy_num (d_error data) = true ->
    exists e w',
      fetch env this method params w = (Throw e, w')
      /\ e = plainError ("Last.fm API error " ++ JS.num_to_string (d_error data)
                           ++ ": " ++ opt_string (d_message data))
      /\ err_status e = None
      /\ cache w' = cache w
      /\ error_reply e
         = {| reply_status := 500;
              reply_retryAfter := None;
              reply_body := ErrorDetail (err_message e) false |}.
Proof.
  intros this method params w r data Hmiss Hup Hok Hjson Hbody Herr.
  unfold fetch. fold (request_of this method params).
  unfold bind at 1. unfold get at 1. rewrite Hmiss.
  unfold bind at 1. cbn [cache_fresh ret].
  unfold bind at 1. unfold net_fetch. unfold bind, get, modify.
  cbn [requests set_requests]. rewrite Hup. cbn [ret].
  rewrite Hok. cbn [negb]. unfold isJson in Hjson. rewrite Hjson. cbn [negb].
  rewrite Hbody, Herr. unfold throw.
  eexists. eexists. split; [reflexivity|]. split; [reflexivity|].
  repeat split.
Qed.

(** X14. After [clearCache], and with a newly constructed client,
    every call goes to the upstream: exactly one request is issued
    whatever the cache held before. *)
Theorem emptied_cache_never_answers :
  forall (this : LastFmClient) (method : string) (params : Params)
         (w : World S),
    requests (snd (fetch env this method params
                     (snd (Queries.clearCache this w))))
    = request_of this method params :: requests w
    /\ (forall apiKey username cacheTtl client w1,
          new_LastFmClient apiKey username cacheTtl w = (Ok client, w1) ->
          requests (snd (fetch env client method params w1))
          = request_of client method params :: requests w).
Proof.
  intros this method params w.
  assert (Hempty : forall (c : LastFmClient) (w0 : World S),
            cache w0 = [] ->
            requests (snd (fetch env c method params w0))
            = request_of c method params :: requests w0).
  { intros c w0 Hc.
    pose proof (fetch_cache_post c method params w0) as H. unfold post in H.
    destruct (fst (fetch env c method params w0)); try tauto.
    destruct H as [(ts & Hg & _) | (now & _ & Hr)]; [|exact Hr].
    rewrite Hc in Hg. discriminate. }
  split.
  - rewrite Hempty; reflexivity.
  - intros apiKey username cacheTtl client w1 Hnew.
    unfold new_LastFmClient, bind, modify, ret in Hnew.
    injection Hnew as <- <-. rewrite Hempty; reflexivity.
Qed.

End ClientCache.

Section ClientCacheExamples.
Import Client Controllers.

Lemma fetch_repeated_within_ttl_witness :
  exists data w1 w2,
    fetch Examples.env_one_play Examples.client0 "user.getRecentTracks"
      Examples.params0 Examples.world0 = (Ok data, w1)
    /\ fetch Examples.env_one_play Examples.client0 "user.getRecentTracks"
         Examples.params0 w1 = (Ok data, w2)
    /\ requests w2 = requests w1.
Proof.
  destruct (fetch_healthy Examples.env_one_play Examples.client0
              "user.getRecentTracks" Examples.params0 Examples.world0)
    as (data & w1 & Hrun).
  { intros n req. eexists. eexists. split; [reflexivity|]. repeat split. }
  destruct (fetch_repeated_within_ttl Examples.env_one_play Examples.client0
              "user.getRecentTracks" Examples.params0 Examples.world0 w1 data
              Hrun) as (ts & Hget & Hfresh & _).
  destruct Hfresh as (w2 & H2 & Hr & _).
  { assert (E : clock Examples.env_one_play (tick w1) = 1700000001000)
      by reflexivity.
    assert (T : ts = 1700000001000).
    { vm_compute in Hrun. injection Hrun as <- <-. vm_compute in Hget.
      injection Hget as <-. reflexivity. }
    rewrite E, T. cbn. lia. }
  exists data, w1, w2. auto.
Defined.

Lemma fetch_failure_not_cached_witness :
  cache (snd (fetch Examples.env_429 Examples.client0 "user.getRecentTracks"
                Examples.params0 Examples.world0)) = [].
Proof.
  apply (proj1 (fetch_failure_not_cached Examples.env_429 Examples.client0
                  "user.getRecentTracks" Examples.params0 Examples.world0
                  ltac:(intros data; vm_compute; discriminate))).
Defined.

Lemma api_error_is_plain_500_witness :
  exists e w',
    fetch Samples.env_error_29 Examples.client0 "user.getRecentTracks"
      Examples.params0 Examples.world0 = (Throw e, w')
    /\ reply_status (error_reply e) = 500
    /\ reply_retryable (error_reply e) = false.
Proof.
  destruct (api_error_is_plain_500 Samples.env_error_29 Examples.client0
              "user.getRecentTracks" Examples.params0 Examples.world0
              (Examples.json_response
                 (Samples.api_error 29 "Rate Limit Exceeded"))
              (Samples.api_error 29 "Rate Limit Exceeded")
              eq_refl eq_refl eq_refl eq_refl eq_refl eq_refl)
    as (e & w' & Hrun & _ & _ & _ & Hreply).
  exists e, w'. split; [exact Hrun|]. rewrite Hreply. split; reflexivity.
Defined.

End ClientCacheExamples.

(** ** Pagination (lib/lastfm-client.js) *)

Section Pagination.
Import Client.
Context {S : Type}.
Variable env : Env.

Lemma opt_eqb_Z_eq (a b : option Z) : opt_eqb Z.eqb a b = true -> a = b.
Proof.
  destruct a, b; cbn; try discriminate; auto.
  intros H. apply Z.eqb_eq in H. congruence.
Qed.

Lemma Request_eqb_page (a b : Request) :
  Request_eqb a b = true -> page_no a = page_no b.
Proof.
  unfold Request_eqb, Params_eqb, page_no. intros H.
  repeat (apply andb_true_iff in H; destruct H as [H ?]).
  repeat match goal with
         | H0 : _ && _ = true |- _ =>
             apply andb_true_iff in H0; destruct H0
         end.
  match goal with
  | H0 : opt_eqb Z.eqb (p_page _) (p_page _) = true |- _ =>
      apply opt_eqb_Z_eq in H0; rewrite H0
  end.
  reflexivity.
Qed.

Lemma cache_get_below (c : list (Request * (Data * Z))) (k : Request) :
  (forall k' v, In (k', v) c -> page_no k' < page_no k) ->
  cache_get c k = None.
Proof.
  induction c as [|[k0 v0] c IH]; cbn; [reflexivity|]. intros H.
  destruct (Request_eqb k0 k) eqn:E.
  - apply Request_eqb_page in E. specialize (H k0 v0 (or_introl eq_refl)). lia.
  - apply IH. intros k' v Hin. apply (H k' v). right. exact Hin.
Qed.

(** One page request of the loops, made when nothing cached is for
    this page or a later one. *)
Lemma page_step (this : LastFmClient) (from : JS.num) (page : Z)
    (w : World S) :
  cached_below page w ->
  post (getRecentTracks env this (Some page) (Some 200) from None w)
    (fun r w' =>
       requests w' = page_req this from page :: requests w
       /\ cached_below (page + 1) w'
       /\ r <> OutOfFuel).
Proof.
  intros Hbelow. unfold getRecentTracks.
  change (Z.min 200 200) with 200. change (truthy_param None) with (@None Z).
  pose proof (fetch_cache_post env this "user.getRecentTracks"
                {| p_page := Some page; p_limit := Some 200;
                   p_extended := Some 1; p_from := truthy_param from;
                   p_to := None |} w) as H.
  change (request_of this "user.getRecentTracks"
            {| p_page := Some page; p_limit := Some 200;
               p_extended := Some 1; p_from := truthy_param from;
               p_to := None |}) with (page_req this from page) in H.
  assert (Hmiss : cache_get (cache w) (page_req this from page) = None).
  { apply cache_get_below. intros k' v Hin. apply (Hbelow k' v Hin). }
  pose proof (fetch_post env this "user.getRecentTracks"
                {| p_page := Some page; p_limit := Some 200;
                   p_extended := Some 1; p_from := truthy_param from;
                   p_to := None |} w) as P.
  unfold post in *. destruct P as (_ & Hfuel & _).
  destruct (fst (fetch env this "user.getRecentTracks" _ w)) as [data|e|].
  - destruct H as [(ts & Hg & _) | (now & Hc & Hr)]; [congruence|].
    split; [exact Hr|]. split; [|discriminate].
    intros k v Hin. rewrite Hc in Hin. apply cache_set_In in Hin.
    destruct Hin as [E|Hin].
    + injection E as -> _. cbn. lia.
    + specialize (Hbelow k v Hin). lia.
  - destruct H as [Hc Hr]. split; [exact Hr|]. split; [|discriminate].
    intros k v Hin. rewrite Hc in Hin. specialize (Hbelow k v Hin). lia.
  - congruence.
Qed.

Lemma pages_step_requests (this : LastFmClient) (from : JS.num) (page : Z)
    (n : nat) (rs : list Request) :
  (rev (map (page_req this from) (pages_from (page + 1) n))
     ++ page_req this from page :: rs)%list
  = (rev (map (page_req this from) (pages_from page (Datatypes.S n))) ++ rs)%list.
Proof. cbn [pages_from map rev]. rewrite <- app_assoc. reflexivity. Qed.

Lemma getAllRecentTracks_loop_pages (this : LastFmClient) (maxPages : Z) :
  forall (fuel : nat) (page : Z) (hasMore : bool) (acc : list Track)
         (w : World S),
    cached_below page w ->
    post (getAllRecentTracks_loop env fuel this maxPages page hasMore acc w)
      (fun r w' =>
         exists n : nat,
           requests w'
           = (rev (map (page_req this None) (pages_from page n))
                ++ requests w)%list
           /\ Z.of_nat n <= Z.max 0 (maxPages - page + 1)).
Proof.
  induction fuel as [|fuel IH]; intros page hasMore acc w Hbelow;
    cbn [getAllRecentTracks_loop];
    destruct (hasMore && (page <=? maxPages)) eqn:Hcond;
    try (unfold post; cbn; exists 0%nat; split; [reflexivity | lia]).
  apply andb_true_iff in Hcond. destruct Hcond as [_ Hle].
  apply Z.leb_le in Hle.
  pose proof (page_step this None page w Hbelow) as Hstep.
  unfold bind at 1.
  destruct (getRecentTracks env this (Some page) (Some 200) None None w)
    as [[data|e|] w1]; unfold post in Hstep; cbn [fst snd] in Hstep;
    destruct Hstep as (Hreq & Hbelow1 & Hfuel).
  - specialize (IH (page + 1) (page <? response_totalPages data)
                  (acc ++ scrobbledTracks (response_tracks data))%list
                  w1 Hbelow1).
    unfold post in *. destruct IH as (n & Hn & Hb).
    exists (Datatypes.S n). split.
    + rewrite Hn, Hreq. apply pages_step_requests.
    + lia.
  - unfold post. cbn [fst snd]. exists 1%nat. split.
    + rewrite Hreq. reflexivity.
    + lia.
  - congruence.
Qed.

Lemma getNewScrobbles_loop_pages (this : LastFmClient) (from : JS.num) :
  forall (fuel : nat) (page : Z) (hasMore : bool) (acc : list Track)
         (w : World S),
    cached_below page w ->
    post (getNewScrobbles_loop env fuel this from page hasMore acc w)
      (fun r w' =>
         exists n : nat,
           requests w'
           = (rev (map (page_req this from) (pages_from page n))
                ++ requests w)%list
           /\ (n <= fuel)%nat
           /\ (hasMore = true -> (1 <= fuel)%nat -> (1 <= n)%nat)).
Proof.
  induction fuel as [|fuel IH]; intros page hasMore acc w Hbelow;
    cbn [getNewScrobbles_loop]; destruct hasMore;
    try (unfold post; cbn; exists 0%nat;
         split; [reflexivity | split; [lia | intros; (discriminate || lia)]]).
  pose proof (page_step this from page w Hbelow) as Hstep.
  unfold bind at 1.
  destruct (getRecentTracks env this (Some page) (Some 200) from None w)
    as [[data|e|] w1]; unfold post in Hstep; cbn [fst snd] in Hstep;
    destruct Hstep as (Hreq & Hbelow1 & Hfuel).
  - specialize (IH (page + 1) (page <? response_totalPages data)
                  (acc ++ scrobbledTracks (response_tracks data))%list
                  w1 Hbelow1).
    unfold post in *. destruct IH as (n & Hn & Hb & _).
    exists (Datatypes.S n). split; [|split; lia].
    rewrite Hn, Hreq. apply pages_step_requests.
  - unfold post. cbn [fst snd]. exists 1%nat. split; [|split; lia].
    rewrite Hreq. reflexivity.
  - congruence.
Qed.

Lemma cached_below_nil (page : Z) (w : World S) :
  cache w = [] -> cached_below page w.
Proof. intros H k v Hin. rewrite H in Hin. destruct Hin. Qed.

(** X15. Starting from an empty cache, [getAllRecentTracks] asks for
    pages 1, 2, ..., n in this order, each once, 200 entries a page
    and without a time bound; n is at most [maxPages] (50 when
    omitted), the call always ends, and with [maxPages] below 1 it
    returns the empty list without asking anything. *)
Theorem getAllRecentTracks_pages_in_order :
  forall (this : LastFmClient) (maxPages : option Z) (w : World S),
    cache w = [] ->
    let limit := match maxPages with Some m => m | None => 50 end in
    (exists n : nat,
       requests (snd (getAllRecentTracks env this maxPages w))
       = (rev (map (page_req this None) (pages_from 1 n)) ++ requests w)%list
       /\ Z.of_nat n <= Z.max 0 limit)
    /\ fst (getAllRecentTracks env this maxPages w) <> OutOfFuel
    /\ (limit < 1 -> getAllRecentTracks env this maxPages w = (Ok [], w)).
Proof.
  intros this maxPages w Hc limit. unfold getAllRecentTracks. fold limit.
  split; [|split].
  - pose proof (getAllRecentTracks_loop_pages this limit (Z.to_nat limit) 1
                  true [] w (cached_below_nil 1 w Hc)) as H.
    unfold post in H. destruct H as (n & Hn & Hb).
    exists n. split; [exact Hn | lia].
  - apply getAllRecentTracks_loop_terminates. lia.
  - intros Hlt. destruct (Z.to_nat limit) eqn:E; [|lia].
    cbn [getAllRecentTracks_loop].
    assert (Hle : (1 <=? limit) = false) by (apply Z.leb_gt; lia).
    rewrite Hle. reflexivity.
Qed.

(** X16. Starting from an empty cache, the incremental fetch asks for
    pages 1, 2, ..., n in this order, every request bounded below by
    the whole second of the given date.  It asks at least once, and
    for a date in the first second after the epoch the bound is
    dropped altogether. *)
Theorem getNewScrobbles_asks_from_the_second :
  forall (fuel : nat) (this : LastFmClient) (t : Z) (w : World S),
    cache w = [] ->
    (exists n : nat,
       requests (snd (getNewScrobbles env fuel this (Some t) w))
       = (rev (map (page_req this (Some (t / 1000))) (pages_from 1 n))
            ++ requests w)%list
       /\ (n <= fuel)%nat
       /\ ((1 <= fuel)%nat -> (1 <= n)%nat))
    /\ (forall page,
          p_from (r_params (page_req this (Some (t / 1000)) page))
          = if (0 <=? t) && (t <? 1000) then None else Some (t / 1000)).
Proof.
  intros fuel this t w Hc. split.
  - unfold getNewScrobbles. cbn [JS.floor_div JS.getTime].
    pose proof (getNewScrobbles_loop_pages this (Some (t / 1000)) fuel 1 true
                  [] w (cached_below_nil 1 w Hc)) as H.
    unfold post in H. destruct H as (n & Hn & Hb & H1).
    exists n. auto.
  - intros page. cbn. unfold truthy_param. cbn [JS.truthy_num].
    destruct (Z.leb_spec 0 t); destruct (Z.ltb_spec t 1000); cbn [andb].
    + rewrite Z.div_small by lia. reflexivity.
    + assert (0 < t / 1000) by (apply Z.div_str_pos; lia).
      destruct (Z.eqb_spec (t / 1000) 0); [lia | reflexivity].
    + assert (t / 1000 < 0) by (apply Z.div_lt_upper_bound; lia).
      destruct (Z.eqb_spec (t / 1000) 0); [lia | reflexivity].
    + lia.
Qed.

End Pagination.

Section PaginationExamples.
Import Client.

Lemma getAllRecentTracks_pages_in_order_witness :
  fst (getAllRecentTracks Examples.env_one_play Examples.client0 (Some 0)
         Examples.world0) = Ok []
  /\ fst (getAllRecentTracks Examples.env_one_play Examples.client0 (Some 10)
            Examples.world0) <> OutOfFuel.
Proof.
  split.
  - rewrite (proj2 (proj2 (getAllRecentTracks_pages_in_order
                             Examples.env_one_play Examples.client0 (Some 0)
                             Examples.world0 eq_refl)));
      [reflexivity | cbn; lia].
  - apply (proj1 (proj2 (getAllRecentTracks_pages_in_order
                           Examples.env_one_play Examples.client0 (Some 10)
                           Examples.world0 eq_refl))).
Defined.

Lemma getNewScrobbles_asks_from_the_second_witness :
  exists n : nat,
    requests (snd (getNewScrobbles Examples.env_one_play 10 Examples.client0
                     (Some 1700000000000) Examples.world0))
    = (rev (map (page_req Examples.client0 (Some (1700000000000 / 1000)))
              (pages_from 1 n)) ++ [])%list
    /\ (1 <= n)%nat.
Proof.
  destruct (proj1 (getNewScrobbles_asks_from_the_second Examples.env_one_play
                     10 Examples.client0 1700000000000 Examples.world0
                     eq_refl)) as (n & Hn & _ & H1).
  exists n. split; [exact Hn | apply H1; lia].
Defined.

End PaginationExamples.

(** ** The latest entry (lib/lastfm-client.js) *)

Section LatestEntry.
Import Utils Client Queries.
Context {S : Type}.
Variable env : Env.

Lemma strict_eq_true (a : option string) (b : string) :
  JS.strict_eq a b = true -> a = Some b.
Proof.
  destruct a as [s|]; cbn; [|discriminate].
  intros H. apply String.eqb_eq in H. congruence.
Qed.

(** X17. [getNowPlaying] and [getLatestScrobble] make the same call
    and leave the same state; [getNowPlaying] returns the latest entry
    exactly when that entry carries the marker "true".  Such an entry
    is one the sync filter drops and [getPlayingStatus] reports as
    now-playing. *)
Theorem getNowPlaying_is_marked_latest :
  forall (this : LastFmClient) (w : World S),
    snd (getNowPlaying env this w) = snd (getLatestScrobble env this w)
    /\ (forall t,
          fst (getNowPlaying env this w) = Ok (Some t) ->
          fst (getLatestScrobble env this w) = Ok (Some t)
          /\ attr_nowplaying t = Some "true"
          /\ scrobbledTracks [t] = []
          /\ forall w0 : World S,
               fst (getPlayingStatus env t w0) = Ok (Some "now-playing"))
    /\ (forall t,
          fst (getLatestScrobble env this w) = Ok (Some t) ->
          fst (getNowPlaying env this w)
          = Ok (if JS.strict_eq (attr_nowplaying t) "true" then Some t
                else None))
    /\ (fst (getLatestScrobble env this w) = Ok None ->
        fst (getNowPlaying env this w) = Ok None)
    /\ (forall e,
          fst (getNowPlaying env this w) = Throw e
          <-> fst (getLatestScrobble env this w) = Throw e).
Proof.
  intros this w. unfold getNowPlaying, getLatestScrobble, bind.
  destruct (getRecentTracks env this (Some 1) (Some 1) None None w)
    as [[data|e|] w1]; cbn [fst snd].
  2:{ repeat split; try discriminate; auto. }
  2:{ repeat split; try discriminate; auto. }
  destruct (first_track data) as [t|] eqn:Hfirst.
  - destruct (JS.strict_eq (attr_nowplaying t) "true") eqn:Hm; cbn [ret fst snd].
    + split; [reflexivity|]. split; [|split; [|split]].
      * intros t' H. injection H as <-.
        apply strict_eq_true in Hm. split; [reflexivity|].
        split; [exact Hm|]. split.
        -- cbn. rewrite Hm. reflexivity.
        -- intros w0. unfold getPlayingStatus. rewrite Hm. reflexivity.
      * intros t' H. injection H as <-. rewrite Hm. reflexivity.
      * discriminate.
      * intros e. split; discriminate.
    + split; [reflexivity|]. split; [|split; [|split]].
      * discriminate.
      * intros t' H. injection H as <-. rewrite Hm. reflexivity.
      * discriminate.
      * intros e. split; discriminate.
  - cbn [ret fst snd]. split; [reflexivity|]. split; [|split; [|split]].
    + discriminate.
    + discriminate.
    + reflexivity.
    + intros e. split; discriminate.
Qed.

End LatestEntry.

(** ** The public handlers (lib/controllers) *)

Section PublicHandlers.
Import Utils Client Sync Controllers Format Queries Handlers.
Context {S : Type}.
Variable env : Env.
Variable platform : Platform.

Lemma getEffectiveConfig_run (db : option (Database S))
    (lastfmConfig : option Options) (w : World S) :
  exists apiKey username w1,
    getEffectiveConfig db lastfmConfig w = (Ok (apiKey, username), w1)
    /\ only_store w w1.
Proof.
  unfold getEffectiveConfig. destruct db as [db|].
  2:{ eexists. eexists. eexists. split; [reflexivity|]. apply only_store_refl. }
  unfold try_catch, bind. rewrite on_store_run.
  destruct (findSettings db (store w)) as [[[settings|]|e] s1];
    cbn [Result_of fst snd ret];
    eexists; eexists; eexists; (split; [reflexivity|]); repeat split.
Qed.


Lemma new_LastFmClient_run (apiKey username : option string)
    (cacheTtl : JS.num) (w : World S) :
  exists client,
    new_LastFmClient apiKey username cacheTtl w = (Ok client, set_cache [] w).
Proof. eexists. reflexivity. Qed.














(** X19. The now-playing route formats the latest entry the upstream
    returns for page 1, limit 1.  With no entry it reports that
    nothing was played; an entry carrying the marker is reported as
    playing, with relative time "now"; an entry without the marker
    whose date is invalid makes the route answer 500 "Invalid time
    value", not retryable. *)
Theorem nowPlaying_api_reports_the_latest_entry :
  forall (config : Options) (db : option (Database S)) (w w1 : World S)
         (apiKey username : option string) (r : HttpResponse) (data : Data),
    getEffectiveConfig db (Some config) w = (Ok (apiKey, username), w1) ->
    upstream env (List.length (requests w)) (latest_request apiKey username)
    = NetResponse r ->
    ok r = true ->
    isJson r = true ->
    body_json r = Some data ->
    JS.truthy_num (d_error data) = false ->
    clock_in_range env ->
    (first_track data = None ->
     fst (nowPlaying_api env platform (Some config) db w)
     = Ok (Success NoRecentPlays))
    /\ (forall t,
          first_track data = Some t ->
          JS.strict_eq (attr_nowplaying t) "true" = true ->
          exists p,
            fst (nowPlaying_api env platform (Some config) db w)
            = Ok (Success (Latest p))
            /\ np_playing p = true
            /\ np_status p = Some "now-playing"
            /\ np_relativeTime p = "now"
            /\ np_track p = t_name t
            /\ np_artist p = getArtistName (Some t))
    /\ (forall t,
          first_track data = Some t ->
          JS.strict_eq (attr_nowplaying t) "true" = false ->
          date_falsy (t_date t) = false ->
          date_value env (t_date t) = None ->
          fst (nowPlaying_api env platform (Some config) db w)
          = Ok (Failure
                  {| reply_status := 500;
                     reply_retryAfter := None;
                     reply_body := ErrorDetail "Invalid time value" false |})).
Proof.
  intros config db w w1 apiKey username r data Hcfg Hup Hok Hjs Hbody Herr
    Hclock.
  destruct (getEffectiveConfig_run db (Some config) w)
    as (k & u & w1' & Hcfg' & Hstore).
  rewrite Hcfg in Hcfg'. injection Hcfg' as <- <- <-.
  destruct Hstore as (_ & Hreq1 & _).
  destruct (new_LastFmClient_run apiKey username
              (min_num (cacheTtl config) 60000) w1) as (client & Hnew).
  assert (Hkey : request_of client "user.getRecentTracks"
                   {| p_page := Some 1; p_limit := Some (Z.min 1 200);
                      p_extended := Some 1; p_from := truthy_param None;
                      p_to := truthy_param None |}
                 = latest_request apiKey username).
  { unfold new_LastFmClient, bind, modify, ret in Hnew.
    injection Hnew as <-. reflexivity. }
  destruct (fetch_ok_run env client "user.getRecentTracks"
              {| p_page := Some 1; p_limit := Some (Z.min 1 200);
                 p_extended := Some 1; p_from := truthy_param None;
                 p_to := truthy_param None |} (set_cache [] w1) r data)
    as (w2 & Hfetch & _); auto.
  { rewrite Hkey. cbn [requests set_cache]. rewrite Hreq1. exact Hup. }
  assert (Hlatest : getLatestScrobble env client (set_cache [] w1)
                    = (Ok (first_track data), w2)).
  { unfold getLatestScrobble, getRecentTracks.
    rewrite (bind_Ok _ _ _ _ _ Hfetch). reflexivity. }
  assert (Hhead : forall k0 : option Track -> M S (Answer NowPlayingBody),
            try_catch
              ('(apiKey0, username0) <- getEffectiveConfig db (Some config) ;;
               client0 <-
                 new_LastFmClient apiKey0 username0
                   (min_num (cacheTtl config) 60000) ;;
               track <- getLatestScrobble env client0 ;;
               k0 track)%js
              (fun error => ret (Failure (error_reply error))) w
            = try_catch (k0 (first_track data))
                (fun error => ret (Failure (error_reply error))) w2).
  { intros k0. unfold try_catch.
    rewrite (bind_Ok _ _ _ _ _ Hcfg). rewrite (bind_Ok _ _ _ _ _ Hnew).
    rewrite (bind_Ok _ _ _ _ _ Hlatest). reflexivity. }
  unfold nowPlaying_api. rewrite Hhead. unfold try_catch.
  split; [|split].
  - intros Hnone. rewrite Hnone. reflexivity.
  - intros t Hsome Hm. rewrite Hsome.
    destruct (formatScrobble_marked env platform t w2 Hm (Hclock _))
      as (b & w3 & Hfmt & Hrel & Hst & _ & Htr & Har).
    rewrite (bind_Ok _ _ _ _ _ Hfmt). cbn [ret fst].
    eexists. split; [reflexivity|]. cbn. rewrite Hst. auto.
  - intros t Hsome Hm Hf Hv. rewrite Hsome.
    unfold bind. rewrite (formatScrobble_invalid_date env platform t w2 Hm Hf Hv).
    reflexivity.
Qed.



End PublicHandlers.

Section PublicHandlersExamples.
Import Utils Client Sync Controllers Format Queries Handlers.


Lemma nowPlaying_api_reports_the_latest_entry_witness :
  exists p,
    fst (nowPlaying_api Examples.env_now_playing Examples.platform0
           (Some Examples.options0) None Examples.world0)
    = Ok (Success (Latest p))
    /\ np_playing p = true
    /\ np_relativeTime p = "now".
Proof.
  destruct (proj1 (proj2
              (nowPlaying_api_reports_the_latest_entry
                 Examples.env_now_playing Examples.platform0 Examples.options0
                 None Examples.world0 Examples.world0 (Some "key") (Some "user")
                 (Examples.json_response
                    (Examples.page_of
                       [Examples.playing_now; Examples.play "1700000000" []]
                       "1"))
                 (Examples.page_of
                    [Examples.playing_now; Examples.play "1700000000" []] "1")
                 eq_refl eq_refl eq_refl eq_refl eq_refl eq_refl
                 ltac:(intros n; cbn; lia)))
              Examples.playing_now eq_refl eq_refl)
    as (p & Hrun & Hplay & _ & Hrel & _).
  exists p. auto.
Defined.

End PublicHandlersExamples.

(** ** Credentials and the stats snapshot (lib/sync.js, lib/config.js) *)

Section Credentials.
Import Utils Client Sync Controllers.
Context {S : Type}.
Variable env : Env.
Variable getAllStats :
  Database S -> option Limits -> option LastFmClient ->
  World S -> Outcome Stats * World S.

Lemma getEffectiveSyncOptions_spec (db : Database S) (options : Options)
    (w : World S) :
  getEffectiveSyncOptions db options w
  = (Ok match fst (findSettings db (store w)) with
        | Returned (Some settings) =>
            {| apiKey := JS.or_str (s_apiKey settings) (apiKey options);
               username := JS.or_str (s_username settings) (username options);
               cacheTtl := cacheTtl options;
               syncInterval := syncInterval options;
               limits := limits options |}
        | _ => options
        end,
     set_store (snd (findSettings db (store w))) w).
Proof.
  unfold getEffectiveSyncOptions, try_catch, bind. rewrite on_store_run.
  destruct (findSettings db (store w)) as [[[settings|]|e] s1]; reflexivity.
Qed.

Lemma getEffectiveConfig_spec (db : Database S) (options : Options)
    (w : World S) :
  getEffectiveConfig (Some db) (Some options) w
  = (Ok match fst (findSettings db (store w)) with
        | Returned (Some settings) =>
            (JS.or_str (s_apiKey settings)
               (JS.or_str (apiKey options) (Some "")),
             JS.or_str (s_username settings)
               (JS.or_str (username options) (Some "")))
        | _ =>
            (JS.or_str (apiKey options) (Some ""),
             JS.or_str (username options) (Some ""))
        end,
     set_store (snd (findSettings db (store w))) w).
Proof.
  unfold getEffectiveConfig, try_catch, bind. rewrite on_store_run.
  destruct (findSettings db (store w)) as [[[settings|]|e] s1]; reflexivity.
Qed.

Lemma or_str_assoc (a b c : option string) :
  JS.or_str (JS.or_str a b) c = JS.or_str a (JS.or_str b c).
Proof.
  unfold JS.or_str. destruct (JS.truthy_str a) eqn:Ha; [rewrite Ha|]; reflexivity.
Qed.

(** X22. The sync engine and the request handlers resolve the same
    credentials: a non-empty stored setting wins over the plugin
    option, an empty or missing one falls back to it, and a failing
    settings lookup is ignored.  The two resolvers differ only in that
    the handlers' one gives the empty string where the engine's gives
    nothing; the remaining options pass through unchanged. *)
Theorem credentials_resolvers_agree :
  forall (db : Database S) (options : Options) (w : World S),
    exists o w',
      getEffectiveSyncOptions db options w = (Ok o, w')
      /\ getEffectiveConfig (Some db) (Some options) w
         = (Ok (JS.or_str (apiKey o) (Some ""),
                JS.or_str (username o) (Some "")), w')
      /\ only_store w w'
      /\ (forall settings,
            fst (findSettings db (store w)) = Returned (Some settings) ->
            apiKey o = JS.or_str (s_apiKey settings) (apiKey options)
            /\ username o
               = JS.or_str (s_username settings) (username options))
      /\ (fst (findSettings db (store w)) = Returned None -> o = options)
      /\ (forall e, fst (findSettings db (store w)) = Raised e -> o = options)
      /\ cacheTtl o = cacheTtl options
      /\ syncInterval o = syncInterval options
      /\ limits o = limits options.
Proof.
  intros db options w.
  eexists. eexists. split; [apply getEffectiveSyncOptions_spec|].
  rewrite getEffectiveConfig_spec.
  destruct (fst (findSettings db (store w))) as [[settings|]|e];
    cbn [apiKey username cacheTtl syncInterval limits];
    rewrite ?or_str_assoc;
    (split; [reflexivity|]); (split; [repeat split|]);
    (split;
     [intros s0 H0;
      first [discriminate | injection H0 as <-; split; reflexivity]|]);
    (split; [intros H0; first [discriminate | reflexivity]|]);
    (split; [intros e0 H0; first [discriminate | reflexivity]|]);
    repeat split.
Qed.

Lemma syncScrobbles_result_no_error (fuel : nat) (db : Database S)
    (client : LastFmClient) (w w' : World S) (r : SyncResult) :
  syncScrobbles env fuel db client w = (Ok r, w') -> error r = None.
Proof.
  intros H. rewrite syncScrobbles_phases in H.
  apply bind_inv in H.
  destruct H as [(a & w1 & _ & H)|[(e & _ & H)|[_ H]]]; try discriminate.
  apply bind_inv in H.
  destruct H as [(latest & w2 & _ & H)|[(e & _ & H)|[_ H]]]; try discriminate.
  destruct (latestDate_of latest) as [t|]; [|discriminate].
  apply bind_inv in H.
  destruct H as [(l & w3 & _ & H)|[(e & _ & H)|[_ H]]]; try discriminate.
  destruct (persist_phase_run env db l w3) as (r' & w4 & Hp & _ & He).
  rewrite Hp in H. injection H as <- _. exact He.
Qed.

Lemma runSync_unconfigured_run (fuel : nat) (db : Database S)
    (options : Options) (w w1 : World S) (o : Options) :
  getEffectiveSyncOptions db options w = (Ok o, w1) ->
  JS.truthy_str (apiKey o) && JS.truthy_str (username o) = false ->
  runSync env getAllStats fuel {| database := Some db |} options w
  = (Ok {| synced := 0; error := Some "Not configured" |}, w1).
Proof.
  intros Ho Hf. unfold runSync. cbn [database].
  rewrite (bind_Ok _ _ _ _ _ Ho). rewrite <- negb_andb, Hf. reflexivity.
Qed.

(** X23. [runSync] reports "Not configured" exactly when the resolved
    API key or user name is empty or missing; it then asks the upstream
    nothing and leaves the client cache and the stats snapshot as they
    were.  Every result of a configured run carries no error text. *)
Theorem runSync_not_configured :
  forall (fuel : nat) (db : Database S) (options : Options)
         (w w1 : World S) (o : Options),
    getEffectiveSyncOptions db options w = (Ok o, w1) ->
    (JS.truthy_str (apiKey o) && JS.truthy_str (username o) = false ->
     runSync env getAllStats fuel {| database := Some db |} options w
     = (Ok {| synced := 0; error := Some "Not configured" |}, w1)
     /\ requests w1 = requests w
     /\ cache w1 = cache w
     /\ cachedStats w1 = cachedStats w
     /\ cachedStatsTime w1 = cachedStatsTime w)
    /\ (JS.truthy_str (apiKey o) && JS.truthy_str (username o) = true ->
        forall r,
          fst (runSync env getAllStats fuel {| database := Some db |} options w)
          = Ok r ->
          error r = None).
Proof.
  intros fuel db options w w1 o Ho.
  assert (Hw1 : only_store w w1).
  { rewrite getEffectiveSyncOptions_spec in Ho. injection Ho as _ <-.
    repeat split. }
  split.
  - intros Hf. rewrite (runSync_unconfigured_run fuel db options w w1 o Ho Hf).
    destruct Hw1 as (_ & A & B & C & D). auto.
  - unfold runSync. cbn [database]. rewrite (bind_Ok _ _ _ _ _ Ho).
    rewrite <- negb_andb.
    intros Ht r. rewrite Ht. cbn [negb].
    unfold bind at 1. unfold new_LastFmClient at 1. unfold bind at 1.
    unfold modify at 1. cbn [ret]. unfold bind at 1.
    destruct (syncScrobbles env fuel db _ (set_cache [] w1))
      as [[res|e|] w3] eqn:Hsync; cbn [fst]; try discriminate.
    destruct (stats_update_run env getAllStats db (limits o) (Some
                {| c_apiKey := apiKey o; c_username := username o;
                   c_cacheTtl := JS.or_num (Some 60000) 900000 |}) w3)
      as (w4 & Hs).
    rewrite (bind_Ok _ _ _ _ _ Hs). cbn. intros H. injection H as <-.
    exact (syncScrobbles_result_no_error _ _ _ _ _ _ Hsync).
Qed.

(** X24. After every cycle in which [syncScrobbles] returns, also one
    that synced nothing, the stats are recomputed with the cycle's own
    client and the plugin's limits: a snapshot the engine returns
    replaces the cached one, stamped with the next clock reading, and
    when the engine throws the state it left is kept as it is. *)
Theorem runSync_refreshes_the_snapshot :
  forall (fuel : nat) (db : Database S) (options : Options)
         (w w' : World S) (r : SyncResult),
    runSync env getAllStats fuel {| database := Some db |} options w
    = (Ok r, w') ->
    error r = None ->
    exists client w2 w3 w4 outcome,
      c_cacheTtl client = 60000
      /\ syncScrobbles env fuel db client w2 = (Ok r, w3)
      /\ getAllStats db (limits options) (Some client) w3 = (outcome, w4)
      /\ match outcome with
         | Returned stats =>
             cachedStats w' = Some stats
             /\ cachedStatsTime w' = Some (clock env (tick w4))
             /\ store w' = store w4
             /\ requests w' = requests w4
         | Raised _ => w' = w4
         end.
Proof.
  intros fuel db options w w' r Hrun Herr.
  unfold runSync in Hrun. cbn [database] in Hrun.
  pose proof (getEffectiveSyncOptions_spec db options w) as Ho.
  match type of Ho with _ = (Ok ?x, _) => set (o := x) in * end.
  assert (Hlim : limits o = limits options).
  { subst o. destruct (fst (findSettings db (store w))) as [[settings|]|e];
      reflexivity. }
  rewrite (bind_Ok _ _ _ _ _ Ho) in Hrun.
  destruct (negb (JS.truthy_str (apiKey o)) || negb (JS.truthy_str (username o))).
  { injection Hrun as <- _. discriminate. }
  unfold bind at 1 in Hrun. unfold new_LastFmClient at 1 in Hrun.
  unfold bind at 1 in Hrun. unfold modify at 1 in Hrun. cbn [ret] in Hrun.
  unfold bind at 1 in Hrun.
  match type of Hrun with
  | context [syncScrobbles env fuel db ?c ?w0] =>
      set (client := c) in *; set (w2 := w0) in *
  end.
  destruct (syncScrobbles env fuel db client w2) as [[res|e|] w3] eqn:Hsync;
    try discriminate.
  unfold try_catch, bind, lift in Hrun. rewrite Hlim in Hrun.
  destruct (getAllStats db (limits options) (Some client) w3)
    as [outcome w4] eqn:Hst.
  exists client, w2, w3, w4, outcome.
  split; [reflexivity|].
  destruct outcome as [stats|e]; cbn in Hrun; injection Hrun as <- <-;
    (split; [exact Hsync|]); (split; [exact Hst|]).
  - cbn. auto.
  - reflexivity.
Qed.


(** X29. The admin trigger answers "success" whenever [runSync]
    returns a result, without looking at the result's error text: for
    a store without usable credentials it answers success with
    "Synced 0 new scrobbles" although nothing was attempted. *)
Theorem dashboard_sync_ignores_error_text :
  forall (fuel : nat) (config : Options) (ik : Indiekit S) (w : World S),
    database ik <> None ->
    (forall r w',
       runSync env getAllStats fuel ik config w = (Ok r, w') ->
       dashboard_sync env getAllStats fuel (Some config) (Some ik) w
       = (Ok (json (SyncBody true (synced r)
                      ("Synced " ++ JS.num_to_string (Some (synced r))
                         ++ " new scrobbles"))), w'))
    /\ (forall db o w1,
          database ik = Some db ->
          getEffectiveSyncOptions db config w = (Ok o, w1) ->
          JS.truthy_str (apiKey o) && JS.truthy_str (username o) = false ->
          dashboard_sync env getAllStats fuel (Some config) (Some ik) w
          = (Ok (json (SyncBody true 0 "Synced 0 new scrobbles")), w1)).
Proof.
  intros fuel config ik w Hdb.
  assert (Hany : forall r w',
            runSync env getAllStats fuel ik config w = (Ok r, w') ->
            dashboard_sync env getAllStats fuel (Some config) (Some ik) w
            = (Ok (json (SyncBody true (synced r)
                           ("Synced " ++ JS.num_to_string (Some (synced r))
                              ++ " new scrobbles"))), w')).
  { intros r w' Hrun. unfold dashboard_sync, try_catch.
    destruct (database ik) as [db|]; [|congruence].
    rewrite (bind_Ok _ _ _ _ _ Hrun). reflexivity. }
  split; [exact Hany|].
  intros db o w1 Hik Ho Hf. destruct ik as [d]. cbn [database] in Hik.
  subst d.
  rewrite (Hany _ _ (runSync_unconfigured_run fuel db config w w1 o Ho Hf)).
  reflexivity.
Qed.

End Credentials.

Section CredentialsExamples.
Import Utils Client Sync Controllers MemDb.

Lemma runSync_not_configured_witness :
  runSync Examples.env_one_play Examples.getAllStats0 10 Examples.indiekit0
    Samples.options_unset Examples.world0
  = (Ok {| synced := 0; error := Some "Not configured" |}, Examples.world0).
Proof.
  apply (proj1 (runSync_not_configured Examples.env_one_play
                  Examples.getAllStats0 10 memdb Samples.options_unset
                  Examples.world0 Examples.world0 Samples.options_unset
                  eq_refl)).
  reflexivity.
Defined.

Lemma runSync_refreshes_the_snapshot_witness :
  cachedStats
    (snd (runSync Examples.env_one_play Examples.getAllStats0 10
            Examples.indiekit0 Examples.options0 Examples.world0))
  = Some Examples.stats0.
Proof.
  destruct (runSync Examples.env_one_play Examples.getAllStats0 10
              Examples.indiekit0 Examples.options0 Examples.world0)
    as [[r|e|] w'] eqn:Hrun;
    try (exfalso; vm_compute in Hrun; discriminate).
  assert (Herr : error r = None).
  { vm_compute in Hrun. injection Hrun as <- _. reflexivity. }
  destruct (runSync_refreshes_the_snapshot Examples.env_one_play
              Examples.getAllStats0 10 memdb Examples.options0
              Examples.world0 w' r Hrun Herr)
    as (client & w2 & w3 & w4 & outcome & _ & _ & Hst & Hcase).
  unfold Examples.getAllStats0 in Hst. injection Hst as <- <-.
  cbn [snd]. tauto.
Defined.

Lemma dashboard_sync_ignores_error_text_witness :
  dashboard_sync Examples.env_one_play Examples.getAllStats0 10
    (Some Samples.options_unset) (Some Examples.indiekit0) Examples.world0
  = (Ok (json (SyncBody true 0 "Synced 0 new scrobbles")), Examples.world0).
Proof.
  apply (proj2 (dashboard_sync_ignores_error_text Examples.env_one_play
                  Examples.getAllStats0 10 Samples.options_unset
                  Examples.indiekit0 Examples.world0
                  ltac:(discriminate))
           memdb Samples.options_unset Examples.world0 eq_refl eq_refl eq_refl).
Defined.

End CredentialsExamples.

(** ** Invariants of the reference store under a cycle *)

Section StoreInvariants.
Import Utils Client Sync MemDb.
Variable env : Env.

Lemma has_dup_insert (eqb : Doc -> Doc -> bool) (b a : list Doc) (d : Doc) :
  (forall x y, eqb x y = eqb y x) ->
  has_dup eqb (b ++ d :: a)
  = has_dup eqb (b ++ a) || existsb (eqb d) (b ++ a).
Proof.
  intros Hsym. induction b as [|x b IH]; cbn [app has_dup existsb].
  - apply orb_comm.
  - rewrite IH, !existsb_app. cbn [existsb]. rewrite (Hsym d x).
    destruct (existsb (eqb x) b), (eqb x d), (existsb (eqb x) a),
      (has_dup eqb (b ++ a)), (existsb (eqb d) b), (existsb (eqb d) a);
      reflexivity.
Qed.

Lemma has_dup_remove (eqb : Doc -> Doc -> bool) (b a : list Doc) (m : Doc) :
  (forall x y, eqb x y = eqb y x) ->
  has_dup eqb (b ++ m :: a) = false -> has_dup eqb (b ++ a) = false.
Proof.
  intros Hsym H. rewrite has_dup_insert in H by exact Hsym.
  apply orb_false_iff in H. tauto.
Qed.

Lemma mem_updateOne_unique (f : Filter) (doc : Doc) (s : MemStore) :
  unique_indexes s /\ rows_unique s ->
  unique_indexes (snd (mem_updateOne f doc s))
  /\ rows_unique (snd (mem_updateOne f doc s)).
Proof.
  intros [[Hi1 Hi2] [Hid Hkey]]. unfold mem_updateOne.
  destruct (split_match f (scrobbles s)) as [[[b m] a]|] eqn:Hsplit.
  - destruct (split_match_spec f _ b m a Hsplit) as (Hl & _ & _).
    destruct (violates s doc (b ++ a)) eqn:Hv; cbn [snd];
      [repeat split; assumption|].
    unfold violates in Hv. rewrite Hi1, Hi2 in Hv. cbn [andb] in Hv.
    apply orb_false_iff in Hv. destruct Hv as [Hv1 Hv2].
    rewrite Hl in Hid, Hkey.
    split; [split; assumption|]. split; cbn [scrobbles].
    + rewrite has_dup_insert by apply same_id_sym.
      rewrite (has_dup_remove _ _ _ _ same_id_sym Hid), Hv1. reflexivity.
    + rewrite has_dup_insert by apply same_key_sym.
      rewrite (has_dup_remove _ _ _ _ same_key_sym Hkey), Hv2. reflexivity.
  - destruct (violates s doc (scrobbles s)) eqn:Hv; cbn [snd];
      [repeat split; assumption|].
    unfold violates in Hv. rewrite Hi1, Hi2 in Hv. cbn [andb] in Hv.
    apply orb_false_iff in Hv. destruct Hv as [Hv1 Hv2].
    split; [split; assumption|]. split; cbn [scrobbles].
    + rewrite has_dup_insert by apply same_id_sym.
      rewrite app_nil_r, Hid, Hv1. reflexivity.
    + rewrite has_dup_insert by apply same_key_sym.
      rewrite app_nil_r, Hkey, Hv2. reflexivity.
Qed.

Lemma matches_same_key (f : Filter) (doc m : Doc) :
  matches (filter_of doc) m = true -> matches f doc = matches f m.
Proof.
  intros H. apply matches_filter_of in H. destruct H as (H1 & H2 & H3).
  unfold matches. rewrite H1, H2, H3. reflexivity.
Qed.

Lemma mem_updateOne_keeps (s0 : MemStore) (doc : Doc) (s : MemStore) :
  keeps_rows s0 s ->
  keeps_rows s0 (snd (mem_updateOne (filter_of doc) doc s)).
Proof.
  intros [Hk Hlen]. unfold mem_updateOne.
  destruct (split_match (filter_of doc) (scrobbles s)) as [[[b m] a]|] eqn:Hsplit.
  - destruct (split_match_spec _ _ b m a Hsplit) as (Hl & Hm & _).
    destruct (violates s doc (b ++ a)); cbn [snd]; [split; assumption|].
    split; cbn [scrobbles].
    + intros f Hf. specialize (Hk f Hf). rewrite Hl in Hk.
      rewrite existsb_app in *. cbn [existsb] in *.
      rewrite (matches_same_key f doc m Hm). exact Hk.
    + rewrite Hl in Hlen. rewrite length_app in *. cbn [List.length] in *.
      exact Hlen.
  - destruct (violates s doc (scrobbles s)); cbn [snd]; [split; assumption|].
    split; cbn [scrobbles].
    + intros f Hf. rewrite existsb_app. rewrite (Hk f Hf). reflexivity.
    + rewrite length_app. lia.
Qed.

Lemma upsert_all_mem_stable (I : MemStore -> Prop) :
  upsert_stable I ->
  forall (docs : list Doc) (n : Z) (w : World MemStore),
    I (store w) -> I (store (snd (upsert_all memdb docs n w))).
Proof.
  intros Hstep. induction docs as [|doc docs IH]; intros n w Hw.
  - exact Hw.
  - cbn [upsert_all]. fold (filter_of doc).
    rewrite (bind_Ok _ _ _ _ _ (upsert_one_run memdb doc n w)).
    apply IH. cbn [store set_store updateOne memdb]. apply Hstep. exact Hw.
Qed.

Lemma persist_phase_mem_stable (I : MemStore -> Prop) :
  upsert_stable I ->
  forall (l : list Track) (w : World MemStore),
    I (store w) -> I (store (snd (persist_phase env memdb l w))).
Proof.
  intros Hstep l w Hw. unfold persist_phase. destruct l as [|s l]; [exact Hw|].
  destruct (map_transform_run env (s :: l) w)
    as (docs & w1 & Hm & (_ & _ & Hs1 & _) & _).
  rewrite (bind_Ok _ _ _ _ _ Hm).
  destruct (upsert_all_run memdb docs 0 w1) as (m & w2 & Hu & _).
  pose proof (upsert_all_mem_stable I Hstep docs 0 w1) as H.
  rewrite Hu in H. cbn [snd] in H.
  rewrite (bind_Ok _ _ _ _ _ Hu). cbn [ret snd]. apply H.
  rewrite Hs1. exact Hw.
Qed.

(** What a cycle does to the reference store: it is refused at the
    creation of the unique indexes and changes nothing, or the indexes
    exist and the store changes by upserts only. *)
Lemma syncScrobbles_mem_store (fuel : nat) (client : LastFmClient)
    (w : World MemStore) :
  post (syncScrobbles env fuel memdb client w) (fun r w' =>
    (r = Throw dupKeyError
     /\ ~ rows_unique (store w)
     /\ scrobbles (store w') = scrobbles (store w)
     /\ requests w' = requests w)
    \/ (exists s1,
          scrobbles s1 = scrobbles (store w)
          /\ unique_indexes s1
          /\ rows_unique (store w)
          /\ forall I, upsert_stable I -> I s1 -> I (store w'))).
Proof.
  rewrite syncScrobbles_phases.
  pose proof (ensure_indexes_mem w) as H1. unfold post in H1.
  unfold bind at 1.
  destruct (ensure_indexes memdb w) as [[[]|e|] w1]; cbn [fst snd] in H1;
    destruct H1 as ((_ & Hq1 & _) & Hrows1 & _ & Hcase).
  2:{ unfold post. cbn [fst snd]. left.
      destruct Hcase as [[He Hdup]|[He _]]; [|discriminate].
      injection He as ->. split; [reflexivity|]. split; [|auto].
      unfold rows_unique. intros [A B]. destruct Hdup; congruence. }
  2:{ destruct Hcase as [[Hc _]|[Hc _]]; discriminate. }
  destruct Hcase as [[Hc _]|(_ & Hi1 & Hi2 & Hd1 & Hd2)]; [discriminate|].
  assert (Hright : forall (r : Result SyncResult) (w' : World MemStore),
            (forall I, upsert_stable I -> I (store w1) -> I (store w')) ->
            post (r, w') (fun r w' =>
              (r = Throw dupKeyError
               /\ ~ rows_unique (store w)
               /\ scrobbles (store w') = scrobbles (store w)
               /\ requests w' = requests w)
              \/ (exists s1,
                    scrobbles s1 = scrobbles (store w)
                    /\ unique_indexes s1
                    /\ rows_unique (store w)
                    /\ forall I, upsert_stable I -> I s1 -> I (store w')))).
  { intros r w' HI. unfold post. cbn [fst snd]. right. exists (store w1).
    split; [exact Hrows1|]. split; [split; assumption|].
    split; [split; assumption|]. exact HI. }
  unfold bind at 1. rewrite on_store_run.
  cbn [findLatest memdb mem_findLatest fst snd Result_of].
  set (w2 := set_store (store w1) w1).
  destruct (latestDate_of (latest_of (scrobbles (store w1)) None)) as [t|].
  2:{ apply Hright. intros I _ HI. exact HI. }
  pose proof (fetch_phase_post env fuel client t w2) as Hf. unfold post in Hf.
  unfold bind at 1.
  destruct (fetch_phase env fuel client t w2) as [[l|e|] w3]; cbn [fst snd] in Hf;
    destruct Hf as ((Hs3 & _) & _).
  2:{ apply Hright. intros I _ HI. rewrite Hs3. exact HI. }
  2:{ apply Hright. intros I _ HI. rewrite Hs3. exact HI. }
  destruct (persist_phase env memdb l w3) as [r w4] eqn:Hp.
  apply Hright. intros I Hst HI.
  pose proof (persist_phase_mem_stable I Hst l w3) as H.
  rewrite Hp in H. apply H. rewrite Hs3. exact HI.
Qed.

(** X26. A cycle never leaves two rows of the reference store with
    the same (title, artist, time) or the same [lastfmId]: rows that
    are unique before it are unique after it, whatever the upstream
    delivers.  When the rows already collide, the cycle stops with the
    duplicate-key error at the creation of the indexes, before any
    request, and changes no row. *)
Theorem sync_keeps_rows_unique :
  forall (fuel : nat) (client : LastFmClient) (w : World MemStore),
    (rows_unique (store w) ->
     rows_unique (store (snd (syncScrobbles env fuel memdb client w))))
    /\ (~ rows_unique (store w) ->
        fst (syncScrobbles env fuel memdb client w) = Throw dupKeyError
        /\ scrobbles (store (snd (syncScrobbles env fuel memdb client w)))
           = scrobbles (store w)
        /\ requests (snd (syncScrobbles env fuel memdb client w)) = requests w).
Proof.
  intros fuel client w.
  pose proof (syncScrobbles_mem_store fuel client w) as H. unfold post in H.
  split.
  - intros Hu.
    destruct H as [(_ & Hn & _)|(s1 & Hrows & Hidx & _ & HI)]; [tauto|].
    assert (Hstable : upsert_stable (fun s => unique_indexes s /\ rows_unique s)).
    { intros doc s Hs. apply mem_updateOne_unique. exact Hs. }
    apply (HI _ Hstable). split; [exact Hidx|].
    unfold rows_unique in *. rewrite Hrows. exact Hu.
  - intros Hn. destruct H as [(He & _ & Hrows & Hreq)|(s1 & _ & _ & Hu & _)];
      [auto | tauto].
Qed.

(** X27. A cycle never removes a play from the reference store:
    every (title, artist, time) stored before it is stored after it,
    and the number of rows does not decrease. *)
Theorem sync_never_deletes :
  forall (fuel : nat) (client : LastFmClient) (w : World MemStore),
    keeps_rows (store w) (store (snd (syncScrobbles env fuel memdb client w))).
Proof.
  intros fuel client w.
  pose proof (syncScrobbles_mem_store fuel client w) as H. unfold post in H.
  destruct H as [(_ & _ & Hrows & _)|(s1 & Hrows & _ & _ & HI)].
  - unfold keeps_rows. rewrite Hrows. split; [auto | lia].
  - assert (Hstable : upsert_stable (keeps_rows (store w))).
    { intros doc s Hs. apply (mem_updateOne_keeps (store w) doc s Hs). }
    apply (HI _ Hstable). unfold keeps_rows. rewrite Hrows. split; [auto | lia].
Qed.

End StoreInvariants.

(** ** Stopping the background sync (lib/sync.js) *)

Section StopSync.
Import Client Sync Scheduler.
Context {S : Type}.

Lemma length_drop_handle (h : nat) (l : list (Timer S)) :
  NoDup (handles l) ->
  In h (handles l) ->
  Datatypes.S (List.length (drop_handle h l)) = List.length l.
Proof.
  unfold handles, drop_handle.
  induction l as [|x l IH]; intros Hnd Hin; [destruct Hin|].
  cbn [map] in Hnd, Hin. inversion Hnd as [|? ? Hx Hl]; subst.
  cbn [filter]. destruct (Nat.eqb_spec (handle x) h) as [E|N].
  - cbn [negb List.length]. rewrite forallb_filter_id; [reflexivity|].
    apply forallb_forall. intros y Hy.
    apply negb_true_iff, Nat.eqb_neq. intros E'. apply Hx.
    rewrite E, <- E'. apply in_map. exact Hy.
  - cbn [negb List.length]. f_equal. apply IH; [exact Hl|].
    destruct Hin as [E|Hin]; [contradiction | exact Hin].
Qed.

(** An interval whose handle the module does not hold stays
    registered whatever happens next: no handle is given out twice, so
    the module never holds its handle again. *)
Lemma leaked_interval_stays (trace : list (Event S)) :
  forall (s s' : State S) (t : Timer S),
    consistent s ->
    In t (intervals s) ->
    syncInterval s <> Some (handle t) ->
    run s trace = Some s' ->
    In t (intervals s') /\ syncInterval s' <> Some (handle t).
Proof.
  induction trace as [|e trace IH]; intros s s' t Hc Hin Hne Hrun;
    cbn [run] in Hrun.
  - injection Hrun as <-. auto.
  - destruct (step s e) as [s1|] eqn:Hstep; [|discriminate].
    apply (IH s1 s' t (step_consistent s s1 e Hc Hstep)); [| |exact Hrun].
    + destruct e as [ik o| |h|h|cfg oik|n]; cbn [step] in Hstep.
      * injection Hstep as <-. right. exact Hin.
      * injection Hstep as <-. unfold stopSync.
        destruct (syncInterval s) as [h|] eqn:Hs; [|exact Hin].
        cbn. apply drop_handle_In. split; [exact Hin|]. congruence.
      * destruct (find_timer h (timeouts s)); [|discriminate].
        injection Hstep as <-. exact Hin.
      * destruct (find_timer h (intervals s)); [|discriminate].
        injection Hstep as <-. exact Hin.
      * destruct (admin_call cfg oik); injection Hstep as <-; exact Hin.
      * destruct (nth_error (inFlight s) n); [|discriminate].
        injection Hstep as <-. exact Hin.
    + destruct e as [ik o| |h|h|cfg oik|n]; cbn [step] in Hstep.
      * injection Hstep as <-. cbn. intros E. injection E as E.
        destruct Hc as (_ & Hi & _).
        assert (handle t < nextHandle s)%nat.
        { apply Hi. unfold handles. apply in_map. exact Hin. }
        lia.
      * injection Hstep as <-. unfold stopSync.
        destruct (syncInterval s) as [h|] eqn:Hs; [discriminate|].
        rewrite Hs. discriminate.
      * destruct (find_timer h (timeouts s)); [|discriminate].
        injection Hstep as <-. exact Hne.
      * destruct (find_timer h (intervals s)); [|discriminate].
        injection Hstep as <-. exact Hne.
      * destruct (admin_call cfg oik); injection Hstep as <-; exact Hne.
      * destruct (nth_error (inFlight s) n); [|discriminate].
        injection Hstep as <-. exact Hne.
Qed.

(** X28. [stopSync] clears the one interval whose handle the module
    holds and nothing else.  In every state the process can reach: the
    initial syncs that are pending stay pending and still run after
    [stopSync]; the calls in flight stay in flight; an interval whose
    handle the module does not hold survives [stopSync] and everything
    that may happen later, since no code holds its handle; a second
    [stopSync] changes nothing.  So after k + 1 more calls of
    [startSync], [stopSync] leaves k more intervals alive than before
    and k + 1 more initial syncs pending. *)
Theorem stopSync_clears_one_timer :
  forall (trace : list (Event S)) (s : State S),
    run (init S) trace = Some s ->
    (forall t, In t (timeouts s) ->
       exists s',
         step (stopSync s) (TimeoutFires (handle t)) = Some s'
         /\ inFlight s' = call t :: inFlight s)
    /\ (forall t,
          In t (intervals (stopSync s))
          <-> In t (intervals s) /\ syncInterval s <> Some (handle t))
    /\ List.length (intervals (stopSync s))
       = (List.length (intervals s)
          - match syncInterval s with Some _ => 1 | None => 0 end)%nat
    /\ stopSync (stopSync s) = stopSync s
    /\ (forall t trace' s',
          In t (intervals s) ->
          syncInterval s <> Some (handle t) ->
          run s trace' = Some s' ->
          In t (intervals s'))
    /\ (forall ik options k,
          exists s1,
            run s (repeat (StartSync ik options) (Datatypes.S k)) = Some s1
            /\ List.length (intervals (stopSync s1))
               = (k + List.length (intervals s))%nat
            /\ List.length (timeouts (stopSync s1))
               = (Datatypes.S k + List.length (timeouts s))%nat
            /\ inFlight (stopSync s1) = inFlight s).
Proof.
  intros trace s Hrun.
  assert (Hc : consistent s).
  { exact (run_consistent trace _ _ consistent_init Hrun). }
  assert (Hto : forall x : State S, timeouts (stopSync x) = timeouts x).
  { intros x. unfold stopSync. destruct (syncInterval x); reflexivity. }
  assert (Hfl : forall x : State S, inFlight (stopSync x) = inFlight x).
  { intros x. unfold stopSync. destruct (syncInterval x); reflexivity. }
  assert (Hlen : forall x : State S,
            consistent x ->
            List.length (intervals (stopSync x))
            = (List.length (intervals x)
               - match syncInterval x with Some _ => 1 | None => 0 end)%nat).
  { intros x (_ & _ & _ & Ni & Hv). unfold stopSync.
    destruct (syncInterval x) as [h|] eqn:Hs; [|lia].
    cbn. pose proof (length_drop_handle h _ Ni (Hv h eq_refl)). lia. }
  split.
  { intros t Hin.
    destruct (timeout_fires (stopSync s) t (stopSync_consistent s Hc))
      as (s' & H1 & H2 & _).
    - rewrite Hto. exact Hin.
    - exists s'. split; [exact H1|]. rewrite H2, Hfl. reflexivity. }
  split.
  { intros t. unfold stopSync. destruct (syncInterval s) as [h|] eqn:Hs.
    - cbn. rewrite drop_handle_In. split.
      + intros [Hin Hne]. split; [exact Hin|]. congruence.
      + intros [Hin Hne]. split; [exact Hin|]. congruence.
    - split; [intros Hin; split; [exact Hin | discriminate] | tauto]. }
  split; [exact (Hlen s Hc)|].
  split.
  { unfold stopSync. destruct (syncInterval s) as [h|] eqn:Hs; cbn;
      [reflexivity | rewrite Hs; reflexivity]. }
  split.
  { intros t trace' s' Hin Hne Hrun'.
    exact (proj1 (leaked_interval_stays trace' s s' t Hc Hin Hne Hrun')). }
  intros ik options k.
  destruct (run_starts ik options (Datatypes.S k) s)
    as (s1 & H1 & Ht & Hi & Hf & Hs).
  exists s1. split; [exact H1|].
  assert (Hc1 : consistent s1) by exact (run_consistent _ _ _ Hc H1).
  rewrite (Hlen s1 Hc1), Hto, Hfl, Ht, Hi, Hf.
  destruct (syncInterval s1); [|exfalso; apply Hs; [lia | reflexivity]].
  repeat split. lia.
Qed.

End StopSync.

Section StopSyncExamples.
Import Client Sync Scheduler.

Lemma stopSync_clears_one_timer_witness :
  exists s,
    run (init MemDb.MemStore)
      [StartSync Examples.indiekit0 Examples.options0;
       StartSync Examples.indiekit0 Examples.options0] = Some s
    /\ List.length (intervals (stopSync s)) = 1%nat
    /\ stopSync (stopSync s) = stopSync s.
Proof.
  eexists. split; [reflexivity|].
  destruct (stopSync_clears_one_timer
              [StartSync Examples.indiekit0 Examples.options0;
               StartSync Examples.indiekit0 Examples.options0] _ eq_refl)
    as (_ & _ & Hlen & Hidem & _).
  split; [exact Hlen | exact Hidem].
Defined.

End StopSyncExamples.

(** ** The summary of a time window (lib/stats.js) *)

Section Summaries.
Import Sync MemDb StatsEngine.
Variable env : Env.

Lemma nodup_length_le (l : list string) :
  (List.length (nodup string_dec l) <= List.length l)%nat.
Proof.
  induction l as [|a l IH]; cbn; [lia|].
  destruct (in_dec string_dec a l); cbn; lia.
Qed.

Lemma filter_length_mono {A} (f g : A -> bool) (l : list A) :
  (forall x, f x = true -> g x = true) ->
  (List.length (filter f l) <= List.length (filter g l))%nat.
Proof.
  intros H. induction l as [|a l IH]; cbn; [lia|].
  destruct (f a) eqn:Hf.
  - rewrite (H a Hf). cbn. lia.
  - destruct (g a); cbn; lia.
Qed.

Lemma filter_length_bound {A} (f : A -> bool) (l : list A) :
  (List.length (filter f l) <= List.length l)%nat.
Proof.
  induction l as [|a l IH]; cbn; [lia|]. destruct (f a); cbn; lia.
Qed.

Lemma albums_length (rows : list Doc) :
  (List.length (albums rows) <= List.length rows)%nat.
Proof.
  unfold albums. induction rows as [|d rows IH]; cbn; [lia|].
  rewrite length_app. destruct (albumTitle d); cbn; lia.
Qed.

Lemma filter_passes_all (rows : list Doc) : filter (passes None) rows = rows.
Proof. induction rows as [|d l IH]; cbn; [reflexivity | now rewrite IH]. Qed.

Lemma passes_later_bound (b1 b2 : Z) (d : Doc) :
  b2 <= b1 ->
  Z.abs b2 <= 8640000000000000 ->
  passes (Some (JS.TimeClip (Some b1))) d = true ->
  passes (Some (JS.TimeClip (Some b2))) d = true.
Proof.
  intros Hle Hr. unfold passes, JS.TimeClip.
  apply Z.leb_le in Hr. rewrite Hr.
  destruct (Z.abs b1 <=? 8640000000000000);
    destruct (scrobbledAt d) as [t|]; try discriminate.
  intros H. apply Z.leb_le in H. apply Z.leb_le. lia.
Qed.

(** The window [getDateMatch] builds from the clock reading [now]. *)
Lemma getDateMatch_run (period : string) (w : World MemStore) :
  Z.abs (clock env (tick w)) <= 8640000000000000 ->
  exists w',
    getDateMatch env period w
    = (Ok (if String.eqb period "week" then
             Some (JS.TimeClip (Some (clock env (tick w) - 7 * 86400000)))
           else if String.eqb period "month" then
             Some (JS.TimeClip (Some (clock env (tick w) - 30 * 86400000)))
           else None), w')
    /\ store w' = store w.
Proof.
  intros Hr. unfold getDateMatch.
  destruct (Date_new_run env w) as (w' & Hn & (_ & _ & Hs & _) & _).
  rewrite (bind_Ok _ _ _ _ _ Hn). rewrite TimeClip_in_range by exact Hr.
  exists w'. split; [|exact Hs].
  destruct (String.eqb period "week"); [reflexivity|].
  destruct (String.eqb period "month"); reflexivity.
Qed.

Lemma getSummary_run (period : string) (w : World MemStore) :
  Z.abs (clock env (tick w)) <= 8640000000000000 ->
  exists m,
    m = (if String.eqb period "week" then
           Some (JS.TimeClip (Some (clock env (tick w) - 7 * 86400000)))
         else if String.eqb period "month" then
           Some (JS.TimeClip (Some (clock env (tick w) - 30 * 86400000)))
         else None)
    /\ fst (getSummary env (Some period) w)
       = Ok match group_project (filter (passes m) (scrobbles (store w))) with
            | r :: _ => r
            | [] =>
                {| totalPlays := 0; lovedCount := 0; uniqueTracks := 0;
                   uniqueArtists := 0; uniqueAlbums := 0 |}
            end.
Proof.
  intros Hr. destruct (getDateMatch_run period w Hr) as (w' & Hm & Hs).
  eexists. split; [reflexivity|].
  unfold getSummary. rewrite (bind_Ok _ _ _ _ _ Hm).
  unfold bind, get. rewrite Hs.
  destruct (group_project _); reflexivity.
Qed.

Lemma summary_total (m : DateMatch) (rows : list Doc) :
  totalPlays
    match group_project (filter (passes m) rows) with
    | r :: _ => r
    | [] =>
        {| totalPlays := 0; lovedCount := 0; uniqueTracks := 0;
           uniqueArtists := 0; uniqueAlbums := 0 |}
    end
  = size (filter (passes m) rows).
Proof.
  unfold group_project. destruct (filter (passes m) rows); reflexivity.
Qed.

Lemma summary_bounds (m : DateMatch) (rows : list Doc) :
  let s :=
    match group_project (filter (passes m) rows) with
    | r :: _ => r
    | [] =>
        {| totalPlays := 0; lovedCount := 0; uniqueTracks := 0;
           uniqueArtists := 0; uniqueAlbums := 0 |}
    end in
  0 <= lovedCount s <= totalPlays s
  /\ 0 <= uniqueTracks s <= totalPlays s
  /\ 0 <= uniqueArtists s <= totalPlays s
  /\ 0 <= uniqueAlbums s <= totalPlays s
  /\ totalPlays s <= size rows.
Proof.
  cbv zeta. unfold group_project.
  pose proof (filter_length_bound (passes m) rows) as Hall.
  destruct (filter (passes m) rows) as [|d l] eqn:E.
  - cbn. unfold size. lia.
  - cbn [totalPlays lovedCount uniqueTracks uniqueArtists uniqueAlbums].
    unfold size, addToSet.
    pose proof (filter_length_bound loved (d :: l)).
    pose proof (nodup_length_le
                  (map (fun d => artistName d ++ ":" ++ trackTitle d) (d :: l))).
    pose proof (nodup_length_le (map artistName (d :: l))).
    pose proof (nodup_length_le (albums (d :: l))).
    pose proof (albums_length (d :: l)).
    rewrite !length_map in *. lia.
Qed.

(** X30. In every summary the loved, distinct-track, distinct-artist
    and distinct-album counts are between 0 and the number of plays of
    the window, which is at most the number of stored rows; the "all"
    window counts every row.  Computed from the same store with clock
    readings at most 23 days apart, the windows nest: the week has at
    most as many plays as the month, and the month at most as many as
    the whole history (the clock showing a time at least 30 days after
    the epoch). *)
Theorem summary_windows_nest :
  forall (wW wM wA : World MemStore) (sW sM sA : Summary),
    clock_in_range env ->
    store wW = store wA ->
    store wM = store wA ->
    30 * 86400000 <= clock env (tick wM) ->
    clock env (tick wM) <= clock env (tick wW) + 23 * 86400000 ->
    fst (getSummary env (Some "week") wW) = Ok sW ->
    fst (getSummary env (Some "month") wM) = Ok sM ->
    fst (getSummary env None wA) = Ok sA ->
    totalPlays sW <= totalPlays sM <= totalPlays sA
    /\ totalPlays sA = Z.of_nat (List.length (scrobbles (store wA)))
    /\ Forall (fun s =>
                 0 <= lovedCount s <= totalPlays s
                 /\ 0 <= uniqueTracks s <= totalPlays s
                 /\ 0 <= uniqueArtists s <= totalPlays s
                 /\ 0 <= uniqueAlbums s <= totalPlays s)
         [sW; sM; sA].
Proof.
  intros wW wM wA sW sM sA Hclock HsW HsM Hepoch Hnear HW HM HA.
  destruct (getSummary_run "week" wW (Hclock _)) as (mW & HmW & HrW).
  destruct (getSummary_run "month" wM (Hclock _)) as (mM & HmM & HrM).
  destruct (getSummary_run "all" wA (Hclock _)) as (mA & HmA & HrA).
  change (getSummary env None wA) with (getSummary env (Some "all") wA) in HA.
  rewrite HrW in HW. rewrite HrM in HM. rewrite HrA in HA.
  injection HW as <-. injection HM as <-. injection HA as <-.
  cbn in HmW, HmM, HmA. subst mA.
  rewrite HsW, HsM.
  pose proof (summary_bounds mW (scrobbles (store wA))) as BW.
  pose proof (summary_bounds mM (scrobbles (store wA))) as BM.
  pose proof (summary_bounds None (scrobbles (store wA))) as BA.
  cbv zeta in BW, BM, BA.
  split; [|split]; [| |repeat constructor; lia].
  all: rewrite !summary_total in *.
  - assert (Hnest : (List.length (filter (passes mW) (scrobbles (store wA)))
                     <= List.length (filter (passes mM) (scrobbles (store wA))))%nat).
    { apply filter_length_mono. intros d. subst mW mM.
      pose proof (Hclock (tick wM)) as HcM.
      pose proof (Hclock (tick wW)) as HcW.
      apply passes_later_bound; lia. }
    unfold size in *. rewrite filter_passes_all in *. lia.
  - unfold size. rewrite filter_passes_all. reflexivity.
Qed.

End Summaries.

Section SummariesExamples.
Import Sync MemDb StatsEngine.

Lemma summary_windows_nest_witness :
  exists sW sM sA,
    fst (getSummary Examples.env_one_play (Some "week")
           Examples.world_after_first_sync) = Ok sW
    /\ fst (getSummary Examples.env_one_play (Some "month")
              Examples.world_after_first_sync) = Ok sM
    /\ fst (getSummary Examples.env_one_play None
              Examples.world_after_first_sync) = Ok sA
    /\ totalPlays sW <= totalPlays sM <= totalPlays sA
    /\ totalPlays sA = 1.
Proof.
  set (s1 := {| totalPlays := 1; lovedCount := 0; uniqueTracks := 1;
                uniqueArtists := 1; uniqueAlbums := 1 |}).
  assert (HW : fst (getSummary Examples.env_one_play (Some "week")
                      Examples.world_after_first_sync) = Ok s1)
    by (vm_compute; reflexivity).
  assert (HM : fst (getSummary Examples.env_one_play (Some "month")
                      Examples.world_after_first_sync) = Ok s1)
    by (vm_compute; reflexivity).
  assert (HA : fst (getSummary Examples.env_one_play None
                      Examples.world_after_first_sync) = Ok s1)
    by (vm_compute; reflexivity).
  exists s1, s1, s1. split; [exact HW|]. split; [exact HM|].
  split; [exact HA|].
  destruct (summary_windows_nest Examples.env_one_play
              Examples.world_after_first_sync Examples.world_after_first_sync
              Examples.world_after_first_sync s1 s1 s1
              ltac:(intros n; cbn; lia) eq_refl eq_refl
              ltac:(cbn; lia) ltac:(cbn; lia) HW HM HA)
    as (Hnest & _ & _).
  split; [exact Hnest | reflexivity].
Defined.

End SummariesExamples.
